(** * Sudoku generator and solver: a shallow embedding and its properties

    The development follows the two scripts of the repository:
    - [solve_sudoku.py]: [is_valid_group], [validate_grid], [find_empty],
      [is_valid_move], [solve_sudoku];
    - [generate_sudoku.py]: [find_empty], [is_valid_move] (same text as in
      the solver script), [solve_sudoku_with_stats], [count_solutions],
      [generate_full_grid], [generate_puzzle_base],
      [generate_extreme_puzzle];
    - the input and output of both scripts: [read_sudoku_csv],
      [write_sudoku_csv] and [main] of the solver, [main] of the generator
      with its calls of [print_csv], [write_csv] and [write_pdf], and
      [print_grid] (same text in both scripts).

    Python lists of lists are modelled by [list (list Z)]; an index that is
    out of range raises [IndexError], as in Python.  The in-place mutation
    of the grid is modelled by explicit state passing: every function that
    mutates its grid argument returns the grid as it is when the call
    returns.  Every grid of the scripts is built with fresh rows
    ([[0] * 9 for _ in range(9)], [[row[:] for row in g]], the CSV reader),
    so rows are never aliased and a copy is the identity on values.

    The dictionary [stats] has a single key at every call site
    ([{"attempts": 0}], [{"nodes": 0}]); it is modelled by the integer
    stored under that key, passed in and returned.  Python integers are
    unbounded, hence [Z].

    The recursive searches take a [fuel] argument that bounds the depth of
    the recursion; running out of it is the outcome [OutOfFuel], which is
    shown never to happen when the fuel exceeds the number of empty cells.

    A CSV file is modelled by the rows of fields the [csv] module reads and
    writes, the files by a finite map from names.  A run of [main] is
    modelled by the list of what it prints and writes, in order, with the
    way the call ends; the drawing of the PDF page and the parsing of the
    command line are not modelled: the options are taken as [parse_args]
    returns them. *)

From Stdlib Require Import ZArith Lia Ascii.
From Stdlib Require DecimalString DecimalZ DecimalPos.
From stdpp Require Import list gmap strings.

(** ** Outcomes of a call *)

(** The text of the [ValueError] raised by [validate_grid]; the arguments are
    the numbers interpolated by the f-strings, in order. *)
Inductive message : Type :=
  | Invalid_value_at (val : Z) (row col : nat)
      (* f"Invalid value {val} at row {r+1}, col {c+1}" *)
  | Duplicate_in_row (row : nat)
      (* f"Duplicate value in row {r+1}" *)
  | Duplicate_in_column (col : nat)
      (* f"Duplicate value in column {c+1}" *)
  | Duplicate_in_box (row col : nat).
      (* f"Duplicate value in 3x3 box starting at row {br+1}, col {bc+1}" *)

Inductive exn : Type :=
  | IndexError
  | KeyError (key : string)
  | ValueError (msg : message)
  | RuntimeError (msg : string).

Inductive res (A : Type) : Type :=
  | Ok (a : A)
  | Raise (e : exn)
  | OutOfFuel.
Arguments Ok {A} a.
Arguments Raise {A} e.
Arguments OutOfFuel {A}.

#[global] Instance res_ret : MRet res := λ A, Ok.
#[global] Instance res_bind : MBind res := λ A B f m,
  match m with
  | Ok a => f a
  | Raise e => Raise e
  | OutOfFuel => OutOfFuel
  end.

(** ** Grids *)

Abbreviation Grid := (list (list Z)).

(** [range(a, b)] over indices and over integers. *)
Definition range (a b : nat) : list nat := seq a (b - a).
Definition rangeZ (a b : Z) : list Z :=
  (λ i, a + Z.of_nat i)%Z <$> seq 0 (Z.to_nat (b - a)).

(** The coordinates visited by [for r in rs: for c in cs:], in order. *)
Definition cells (rs cs : list nat) : list (nat * nat) :=
  r ← rs; pair r <$> cs.

(** [grid[r]] *)
Definition get_row (g : Grid) (r : nat) : res (list Z) :=
  match g !! r with
  | Some row => Ok row
  | None => Raise IndexError
  end.

(** [grid[r][c]] *)
Definition get_cell (g : Grid) (r c : nat) : res Z :=
  row ← get_row g r;
  match row !! c with
  | Some v => Ok v
  | None => Raise IndexError
  end.

(** [grid[r][c] = v] *)
Definition set_cell (g : Grid) (r c : nat) (v : Z) : res Grid :=
  row ← get_row g r;
  if decide (c < length row) then Ok (<[r := <[c := v]> row]> g)
  else Raise IndexError.

(** A loop over coordinates that returns at the first cell whose value
    satisfies [p]:
      for (r, c) in cs:
          if p(grid[r][c]): return r, c
    [None] stands for falling out of the loop. *)
Fixpoint scan (p : Z → bool) (g : Grid) (cs : list (nat * nat))
    : res (option (nat * nat)) :=
  match cs with
  | [] => Ok None
  | (r, c) :: cs' =>
      v ← get_cell g r c;
      if p v then Ok (Some (r, c)) else scan p g cs'
  end.

(** ** Solver primitives (both scripts) *)

Definition find_empty (g : Grid) : res (option (nat * nat)) :=
  scan (λ v, v =? 0)%Z g (cells (range 0 9) (range 0 9)).

Definition is_valid_move (g : Grid) (row col : nat) (num : Z) : res bool :=
  rowv ← get_row g row;
  if bool_decide (num ∈ rowv) then Ok false else
  hit ← scan (λ v, v =? num)%Z g (cells (range 0 9) [col]);
  if hit is Some _ then Ok false else
  let br := row / 3 * 3 in
  let bc := col / 3 * 3 in
  hit ← scan (λ v, v =? num)%Z g (cells (range br (br + 3)) (range bc (bc + 3)));
  if hit is Some _ then Ok false else Ok true.

(** ** [solve_sudoku.py]: the solver *)

(** The body of [for num in range(1, 10)] in [solve_sudoku]; [rec] is the
    recursive call and [attempts] is [stats["attempts"]]. *)
Fixpoint solve_loop (rec : Grid → Z → res (bool * Grid * Z))
    (row col : nat) (nums : list Z) (g : Grid) (attempts : Z)
    : res (bool * Grid * Z) :=
  match nums with
  | [] => Ok (false, g, attempts)
  | num :: rest =>
      let attempts := (attempts + 1)%Z in
      ok ← is_valid_move g row col num;
      if ok : bool then
        g1 ← set_cell g row col num;
        '(solved, g2, attempts2) ← rec g1 attempts;
        if solved : bool then Ok (true, g2, attempts2)
        else
          g3 ← set_cell g2 row col 0;
          solve_loop rec row col rest g3 attempts2
      else solve_loop rec row col rest g attempts
  end.

Fixpoint solve_sudoku (fuel : nat) (g : Grid) (attempts : Z)
    : res (bool * Grid * Z) :=
  match fuel with
  | 0 => OutOfFuel
  | S fuel' =>
      empty ← find_empty g;
      match empty with
      | None => Ok (true, g, attempts)
      | Some (row, col) =>
          solve_loop (solve_sudoku fuel') row col (rangeZ 1 10) g attempts
      end
  end.

(** ** [solve_sudoku.py]: validation *)

Definition is_valid_group (values : list Z) : bool :=
  let nums := filter (λ v, v ≠ 0%Z) values in
  bool_decide (length nums = size (list_to_set nums : gset Z)).

(** [for x in xs: body(x)] where the body may raise. *)
Fixpoint for_each {A} (body : A → res ()) (xs : list A) : res () :=
  match xs with
  | [] => Ok ()
  | x :: xs' => _ ← body x; for_each body xs'
  end.

(** [[grid[r][c] for (r, c) in cs]] *)
Definition read_cells (g : Grid) (cs : list (nat * nat)) : res (list Z) :=
  mapM (λ rc, get_cell g rc.1 rc.2) cs.

Definition validate_grid (g : Grid) : res () :=
  _ ← for_each (λ rc,
        val ← get_cell g rc.1 rc.2;
        if bool_decide (0 ≤ val ≤ 9)%Z then Ok ()
        else Raise (ValueError (Invalid_value_at val (rc.1 + 1) (rc.2 + 1))))
      (cells (range 0 9) (range 0 9));
  _ ← for_each (λ r,
        row ← get_row g r;
        if is_valid_group row then Ok ()
        else Raise (ValueError (Duplicate_in_row (r + 1))))
      (range 0 9);
  _ ← for_each (λ c,
        col ← read_cells g (cells (range 0 9) [c]);
        if is_valid_group col then Ok ()
        else Raise (ValueError (Duplicate_in_column (c + 1))))
      (range 0 9);
  for_each (λ b,
        box ← read_cells g (cells (range b.1 (b.1 + 3)) (range b.2 (b.2 + 3)));
        if is_valid_group box then Ok ()
        else Raise (ValueError (Duplicate_in_box (b.1 + 1) (b.2 + 1))))
      (cells [0; 3; 6] [0; 3; 6]).

(** ** [generate_sudoku.py] *)

(** [count_solutions]: the body of [for num in range(1, 10)]. *)
Fixpoint count_loop (rec : Grid → res (Z * Grid))
    (row col : nat) (nums : list Z) (g : Grid) (limit count : Z)
    : res (Z * Grid) :=
  match nums with
  | [] => Ok (count, g)
  | num :: rest =>
      ok ← is_valid_move g row col num;
      if ok : bool then
        g1 ← set_cell g row col num;
        '(n, g2) ← rec g1;
        let count := (count + n)%Z in
        g3 ← set_cell g2 row col 0;
        if decide (limit ≤ count)%Z then Ok (count, g3)
        else count_loop rec row col rest g3 limit count
      else count_loop rec row col rest g limit count
  end.

Fixpoint count_solutions (fuel : nat) (g : Grid) (limit : Z)
    : res (Z * Grid) :=
  match fuel with
  | 0 => OutOfFuel
  | S fuel' =>
      empty ← find_empty g;
      match empty with
      | None => Ok (1%Z, g)
      | Some (row, col) =>
          count_loop (λ g1, count_solutions fuel' g1 limit)
            row col (rangeZ 1 10) g limit 0
      end
  end.

Definition DIFFICULTY_CLUES : gmap string Z :=
  {[ "easy" := 40%Z; "medium" := 32%Z; "hard" := 25%Z; "extreme" := 21%Z ]}.

Definition empty_grid : Grid := replicate 9 (replicate 9 0%Z).

(** [generate_puzzle_base]: the loop [for r, c in cells]; [puzzle] is the
    grid being reduced and [removed] the counter.  The scratch copy [test]
    handed to [count_solutions] is dropped after the call. *)
Fixpoint reduce_loop (fuel : nat) (clues : Z) (cs : list (nat * nat))
    (puzzle : Grid) (removed : Z) : res Grid :=
  match cs with
  | [] => Ok puzzle
  | (r, c) :: rest =>
      if decide (81 - removed ≤ clues)%Z then Ok puzzle
      else
        backup ← get_cell puzzle r c;
        puzzle1 ← set_cell puzzle r c 0;
        let test := puzzle1 in
        '(n, _) ← count_solutions fuel test 2;
        if decide (n ≠ 1%Z) then
          puzzle2 ← set_cell puzzle1 r c backup;
          reduce_loop fuel clues rest puzzle2 removed
        else reduce_loop fuel clues rest puzzle1 (removed + 1)
  end.

(** The functions that draw from [random].  The module is not part of the
    repository: its state is a type [Rng], and the two calls the script
    makes are parameters with the contract of the library documentation:
    [random.sample(range(1, 10), 9)] returns the nine digits in some order
    and [random.shuffle(cells)] reorders [cells]. *)
Section random.
Context {Rng : Type}.
Variable sample9 : Rng → list Z * Rng.
Variable shuffle : list (nat * nat) → Rng → list (nat * nat) * Rng.

(** The body of [for num in random.sample(range(1, 10), 9)] in
    [solve_sudoku_with_stats]; [nodes] is [stats["nodes"]]. *)
Fixpoint stats_loop (rec : Grid → Z → Rng → res (bool * Grid * Z * Rng))
    (row col : nat) (nums : list Z) (g : Grid) (nodes : Z) (rng : Rng)
    : res (bool * Grid * Z * Rng) :=
  match nums with
  | [] => Ok (false, g, nodes, rng)
  | num :: rest =>
      ok ← is_valid_move g row col num;
      if ok : bool then
        g1 ← set_cell g row col num;
        '(solved, g2, nodes2, rng2) ← rec g1 (nodes + 1)%Z rng;
        if solved : bool then Ok (true, g2, nodes2, rng2)
        else
          g3 ← set_cell g2 row col 0;
          stats_loop rec row col rest g3 nodes2 rng2
      else stats_loop rec row col rest g nodes rng
  end.

Fixpoint solve_sudoku_with_stats (fuel : nat) (g : Grid) (nodes : Z)
    (rng : Rng) : res (bool * Grid * Z * Rng) :=
  match fuel with
  | 0 => OutOfFuel
  | S fuel' =>
      empty ← find_empty g;
      match empty with
      | None => Ok (true, g, nodes, rng)
      | Some (row, col) =>
          let '(nums, rng1) := sample9 rng in
          stats_loop (solve_sudoku_with_stats fuel') row col nums g nodes rng1
      end
  end.

(** The result of the search is discarded; the grid is returned as the
    search left it. *)
Definition generate_full_grid (fuel : nat) (rng : Rng) : res (Grid * Rng) :=
  let grid := empty_grid in
  '(_, grid, _, rng1) ← solve_sudoku_with_stats fuel grid 0 rng;
  Ok (grid, rng1).

Definition generate_puzzle_base (fuel : nat) (difficulty : string)
    (rng : Rng) : res (Grid * Rng) :=
  clues ← (match DIFFICULTY_CLUES !! difficulty with
           | Some k => Ok k
           | None => Raise (KeyError difficulty)
           end);
  '(full, rng1) ← generate_full_grid fuel rng;
  let puzzle := full in
  let '(cs, rng2) := shuffle (cells (range 0 9) (range 0 9)) rng1 in
  puzzle ← reduce_loop fuel clues cs puzzle 0;
  Ok (puzzle, rng2).

(** One pass of the body of [for attempt in range(1, max_attempts + 1)]:
    the candidate puzzle, the node count measured on a scratch copy, and
    the state of the random source afterwards. *)
Definition extreme_attempt (fuel : nat) (rng : Rng)
    : res (Grid * Z * Rng) :=
  '(puzzle, rng1) ← generate_puzzle_base fuel "extreme" rng;
  let test := puzzle in
  '(_, _, nodes, rng2) ← solve_sudoku_with_stats fuel test 0 rng1;
  Ok (puzzle, nodes, rng2).

(** The messages printed on [stderr] are not modelled. *)
Fixpoint extreme_loop (fuel : nat) (min_nodes : Z) (attempts : list Z)
    (rng : Rng) : res (Grid * Rng) :=
  match attempts with
  | [] => Raise (RuntimeError "Failed to generate extreme puzzle")
  | _ :: rest =>
      '(puzzle, nodes, rng2) ← extreme_attempt fuel rng;
      if decide (min_nodes ≤ nodes)%Z then Ok (puzzle, rng2)
      else extreme_loop fuel min_nodes rest rng2
  end.

Definition generate_extreme_puzzle (fuel : nat) (min_nodes max_attempts : Z)
    (rng : Rng) : res (Grid * Rng) :=
  extreme_loop fuel min_nodes (rangeZ 1 (max_attempts + 1)) rng.
End random.

(** ** CSV files *)

(** A CSV file as the [csv] module presents it: the rows of fields that
    [csv.reader] yields and that [csv.writer] is given.  The files that can
    be opened are a finite map from names; standard input is a file of its
    own.  The text of a file (separators, line ends, quoting) is the
    business of the [csv] module and is not modelled. *)
Abbreviation Rows := (list (list string)).
Abbreviation Files := (gmap string Rows).

(** What a call of [read_sudoku_csv] can raise: [open] fails, [int(cell)]
    fails on a field, the dimension check of the last lines fails. *)
Inductive read_error : Type :=
  | Cannot_open (filename : string)
  | Invalid_literal (cell : string)
  | Not_nine_by_nine.
      (* "Sudoku grid must be exactly 9x9" *)

(** [str(v)] for an integer: its decimal digits, after a minus sign when it
    is negative.  This is how [csv.writer] writes an integer field. *)
Definition str (v : Z) : string :=
  DecimalString.NilZero.string_of_int (Z.to_int v).

(** [writer.writerows(grid)] *)
Definition writerows (grid : Grid) : Rows :=
  (λ row : list Z, str <$> row) <$> grid.

Section csv.
(** Python's [int] on a string: [None] when it raises [ValueError]. *)
Variable int : string → option Z.
(** Whether [open(filename, "w")] succeeds. *)
Variable writable : string → bool.

(** [[int(cell) for cell in row]] *)
Fixpoint int_row (row : list string) : read_error + list Z :=
  match row with
  | [] => inr []
  | cell :: rest =>
      match int cell with
      | None => inl (Invalid_literal cell)
      | Some v =>
          match int_row rest with
          | inl e => inl e
          | inr vs => inr (v :: vs)
          end
      end
  end.

(** [for row in reader: grid.append(...)] *)
Fixpoint int_rows (rows : Rows) : read_error + Grid :=
  match rows with
  | [] => inr []
  | row :: rest =>
      match int_row row with
      | inl e => inl e
      | inr vs =>
          match int_rows rest with
          | inl e => inl e
          | inr grid => inr (vs :: grid)
          end
      end
  end.

(** The file object [f] of [read_sudoku_csv]. *)
Definition open_input (fs : Files) (stdin : Rows) (filename : option string)
    : read_error + Rows :=
  match filename with
  | None => inr stdin
  | Some name =>
      if decide (name = "-") then inr stdin
      else match fs !! name with
           | Some rows => inr rows
           | None => inl (Cannot_open name)
           end
  end.

Definition read_sudoku_csv (fs : Files) (stdin : Rows)
    (filename : option string) : read_error + Grid :=
  match open_input fs stdin filename with
  | inl e => inl e
  | inr rows =>
      match int_rows rows with
      | inl e => inl e
      | inr grid =>
          if negb (length grid =? 9)
             || existsb (λ row, negb (length row =? 9)) grid
          then inl Not_nine_by_nine
          else inr grid
      end
  end.

(** The files after [write_sudoku_csv(grid, filename)], [None] when [open]
    raises. *)
Definition write_sudoku_csv (fs : Files) (grid : Grid) (filename : string)
    : option Files :=
  if writable filename then Some (<[filename := writerows grid]> fs) else None.

End csv.

(** The file named by an option of the command line when the option is
    given and not the empty string: [if args.output:], [if args.pdf:]. *)
Definition given (name : option string) : option string :=
  match name with
  | Some name => if decide (name = "") then None else Some name
  | None => None
  end.

(** ** Printing a grid *)

(** [s * n] *)
Definition times (s : string) (n : nat) : string :=
  Nat.iter n (String.append s) "".

(** What the body of [for j, val in enumerate(row)] prints. *)
Definition print_cell (j : nat) (val : Z) : string :=
  (if (j `mod` 3 =? 0) && negb (j =? 0) then "| " else "")
  +:+ (if decide (val ≠ 0%Z) then str val else ".") +:+ " ".

Definition print_row (row : list Z) : string :=
  foldr String.append "" (imap print_cell row).

(** The lines [print_grid] prints; the last one is that of the closing
    [print()]. *)
Definition print_grid (grid : Grid) : list string :=
  mjoin (imap (λ i row,
                 (if (i `mod` 3 =? 0) && negb (i =? 0)
                  then [times "-" 21] else [])
                 ++ [print_row row]) grid)
  ++ [""].

(** ** The command line of the solver *)

Module Solve.

(** The namespace [parse_args] returns. *)
Record Args : Type := {
  input : string;
  output : option string;
  validate : bool;
  no_pretty : bool }.

(** What [main] prints, in order; the arguments are the values shown. *)
Inductive event : Type :=
  | Error_reading (e : read_error)
  | Puzzle_is_valid
  | Validation_failed (m : message)
  | Original_puzzle
  | Print_rows (g : Grid)
      (* for row in grid: print(row) *)
  | Print_grid (g : Grid)
  | No_solution_exists
  | Solved_in (attempts : Z)
  | Solved_puzzle
  | Written_to (filename : string)
  | Error_writing (filename : string).

Definition show (args : Args) (g : Grid) : event :=
  if no_pretty args then Print_rows g else Print_grid g.

(** The [if args.validate:] block: what it prints and, when it leaves
    [main], how. *)
Definition validation (args : Args) (grid : Grid)
    : list event * option (res ()) :=
  if validate args then
    match validate_grid grid with
    | Ok _ => ([Puzzle_is_valid], None)
    | Raise (ValueError m) => ([Validation_failed m], Some (Ok ()))
    | Raise e => ([], Some (Raise e))
    | OutOfFuel => ([], Some OutOfFuel)
    end
  else ([], None).

(** The rest of [main] from [print("Original puzzle:")] on, after [out]
    was printed: what is printed in all, the files afterwards, and whether
    the call returns ([Ok ()]) or an exception leaves it. *)
Definition solving (writable : string → bool) (fuel : nat) (args : Args)
    (fs : Files) (grid : Grid) (out : list event)
    : list event * Files * res () :=
  let out := out ++ [Original_puzzle; show args grid] in
  match solve_sudoku fuel grid 0 with
  | Raise e => (out, fs, Raise e)
  | OutOfFuel => (out, fs, OutOfFuel)
  | Ok (false, _, _) => (out ++ [No_solution_exists], fs, Ok ())
  | Ok (true, grid, attempts) =>
      let out := out ++ [Solved_in attempts; Solved_puzzle; show args grid] in
      match given (output args) with
      | None => (out, fs, Ok ())
      | Some filename =>
          match write_sudoku_csv writable fs grid filename with
          | Some fs' => (out ++ [Written_to filename], fs', Ok ())
          | None => (out ++ [Error_writing filename], fs, Ok ())
          end
      end
  end.

Definition main (int : string → option Z) (writable : string → bool)
    (fuel : nat) (args : Args) (fs : Files) (stdin : Rows)
    : list event * Files * res () :=
  match read_sudoku_csv int fs stdin (Some (input args)) with
  | inl e => ([Error_reading e], fs, Ok ())
  | inr grid =>
      match validation args grid with
      | (out, Some r) => (out, fs, r)
      | (out, None) =>
          if validate args && negb (bool_decide (is_Some (given (output args))))
          then (out, fs, Ok ())
          else solving writable fuel args fs grid out
      end
  end.

End Solve.

(** ** The command line of the generator *)

Module Generate.

Record Args : Type := {
  difficulty : string;
  seed : option Z;
  output : option string;
  no_pretty : bool;
  pdf : option string }.

(** What a run of [main] prints on standard output and error, the lines of
    [generate_extreme_puzzle] included, and what it has [write_pdf] and
    [write_csv] write: the grid drawn on the page with the seed and the
    difficulty printed below it, the rows given to [csv.writer]. *)
Inductive event : Type :=
  | Seed_is (seed : Z)
  | Extreme_accepted (attempt nodes : Z) (grouped : bool)
      (* f"Extreme puzzle accepted (attempt {attempt}, nodes={nodes})",
         printed by generate_extreme_puzzle at every attempt; the count is
         written with thousands separators ({nodes:,}) when [grouped], which
         is the line of an attempt below the threshold *)
  | Generated (difficulty : string)
  | Print_csv (rows : Rows)
  | Print_grid (g : Grid)
  | Write_pdf (g : Grid) (filename : string) (seed : Z) (difficulty : string)
  | Pdf_written_to (filename : string)
  | Write_csv (rows : Rows) (filename : string)
  | Written_to (filename : string).

(** How [main] ends: it returns, or an exception leaves it; [OSError] is
    what a file that cannot be written raises. *)
Inductive outcome : Type :=
  | Returned
  | Uncaught (e : exn)
  | OSError (filename : string)
  | Unfinished.

Section main.
Context {Rng : Type}.
Variable sample9 : Rng → list Z * Rng.
Variable shuffle : list (nat * nat) → Rng → list (nat * nat) * Rng.
(** [random.randrange(n)] and the state after [random.seed(seed)]. *)
Variable randrange : Z → Rng → Z * Rng.
Variable reseed : Z → Rng.
(** Whether a file can be opened for writing. *)
Variable writable : string → bool.

(** The [if args.output:] block, after [out] was printed. *)
Definition output_block (args : Args) (puzzle : Grid) (out : list event)
    : list event * outcome :=
  match given (output args) with
  | None => (out, Returned)
  | Some filename =>
      if writable filename
      then (out ++ [Write_csv (writerows puzzle) filename; Written_to filename],
            Returned)
      else (out, OSError filename)
  end.

(** The [if args.pdf:] block and what follows it. *)
Definition pdf_block (args : Args) (puzzle : Grid) (seed : Z)
    (out : list event) : list event * outcome :=
  match given (pdf args) with
  | None => output_block args puzzle out
  | Some filename =>
      if writable filename
      then output_block args puzzle
             (out ++ [Write_pdf puzzle filename seed (difficulty args);
                      Pdf_written_to filename])
      else (out, OSError filename)
  end.

(** The loop of [generate_extreme_puzzle] with the line it prints on
    [stderr] at every attempt: the lines, in order, and the result. *)
Fixpoint extreme_loop (fuel : nat) (min_nodes : Z) (attempts : list Z)
    (rng : Rng) : list event * res (Grid * Rng) :=
  match attempts with
  | [] => ([], Raise (RuntimeError "Failed to generate extreme puzzle"))
  | attempt :: rest =>
      match extreme_attempt sample9 shuffle fuel rng with
      | Ok (puzzle, nodes, rng2) =>
          if decide (min_nodes ≤ nodes)%Z
          then ([Extreme_accepted attempt nodes false], Ok (puzzle, rng2))
          else
            let '(lines, result) := extreme_loop fuel min_nodes rest rng2 in
            (Extreme_accepted attempt nodes true :: lines, result)
      | Raise e => ([], Raise e)
      | OutOfFuel => ([], OutOfFuel)
      end
  end.

Definition generate_extreme_puzzle (fuel : nat) (min_nodes max_attempts : Z)
    (rng : Rng) : list event * res (Grid * Rng) :=
  extreme_loop fuel min_nodes (rangeZ 1 (max_attempts + 1)) rng.

Definition main (fuel : nat) (args : Args) (rng : Rng)
    : list event * outcome :=
  let seed :=
    match seed args with
    | None => (randrange 1000000000 rng).1
    | Some seed => seed
    end in
  let rng := reseed seed in
  let '(lines, generated) :=
    if decide (difficulty args = "extreme")
    then generate_extreme_puzzle fuel 75000 100 rng
    else ([], generate_puzzle_base sample9 shuffle fuel (difficulty args) rng) in
  let out := [Seed_is seed] ++ lines in
  match generated with
  | Raise e => (out, Uncaught e)
  | OutOfFuel => (out, Unfinished)
  | Ok (puzzle, _) =>
      pdf_block args puzzle seed
        (out ++ [Generated (difficulty args);
                 if no_pretty args then Print_csv (writerows puzzle)
                 else Print_grid puzzle])
  end.
End main.

End Generate.

(** * Specification vocabulary *)

(** ** Cells of a nine by nine grid *)

(** The 81 coordinates of the board, in row-major order. *)
Definition all_cells : list (nat * nat) := cells (range 0 9) (range 0 9).

(** A grid as the CSV reader accepts it: nine rows of nine integers. *)
Definition wf (g : Grid) : Prop :=
  length g = 9 ∧ Forall (λ row, length row = 9) g.

#[global] Instance wf_dec g : Decision (wf g).
Proof. unfold wf. apply _. Defined.

(** The content of a cell, [0] outside the grid. *)
Definition val (g : Grid) (r c : nat) : Z :=
  default 0%Z (g !! r ≫= (.!! c)).

(** The value of the cell at a coordinate pair. *)
Definition cell_val (g : Grid) (rc : nat * nat) : Z := val g rc.1 rc.2.

(** The grid after [grid[r][c] = v]. *)
Definition put (g : Grid) (r c : nat) (v : Z) : Grid :=
  match g !! r with
  | Some row => <[r := <[c := v]> row]> g
  | None => g
  end.

(** The number of empty cells of the board. *)
Definition zeros (g : Grid) : nat :=
  length (filter (λ rc, val g rc.1 rc.2 = 0%Z) all_cells).

(** [p'] is [p] with some cells cleared. *)
Definition cleared (p p' : Grid) : Prop :=
  ∀ r c, r < 9 → c < 9 → val p' r c = val p r c ∨ val p' r c = 0%Z.

(** ** Rows, columns and boxes *)

Definition digit (d : Z) : Prop := (1 ≤ d ≤ 9)%Z.

(** The cells that share a row, a column or a 3x3 box with [(r, c)],
    the cell itself included. *)
Definition unit_of (r c r' c' : nat) : Prop :=
  r' < 9 ∧ c' < 9 ∧ (r' = r ∨ c' = c ∨ (r' / 3 = r / 3 ∧ c' / 3 = c / 3)).

(** The other cells of the row, the column and the box of [(r, c)]. *)
Definition peer (r c r' c' : nat) : Prop :=
  unit_of r c r' c' ∧ (r', c') ≠ (r, c).

(** [d] occurs nowhere in the row, the column and the box of [(r, c)]. *)
Definition free (g : Grid) (r c : nat) (d : Z) : Prop :=
  ∀ r' c', unit_of r c r' c' → val g r' c' ≠ d.

(** Every cell holds a value between 0 and 9. *)
Definition in_range (g : Grid) : Prop :=
  ∀ r c, r < 9 → c < 9 → (0 ≤ val g r c ≤ 9)%Z.

(** No cell is empty. *)
Definition complete (g : Grid) : Prop :=
  ∀ r c, r < 9 → c < 9 → val g r c ≠ 0%Z.

(** No two equal non-zero values share a row, a column or a box. *)
Definition conflict_free (g : Grid) : Prop :=
  ∀ r c r' c', r < 9 → c < 9 → peer r c r' c' →
    val g r c ≠ 0%Z → val g r' c' ≠ val g r c.

(** Some cell and one of its peers hold the same non-zero value. *)
Definition conflict (g : Grid) : Prop :=
  ∃ r c r' c', r < 9 ∧ c < 9 ∧ peer r c r' c' ∧ val g r c ≠ 0%Z ∧
               val g r' c' = val g r c.

(** Two different cells of the group [cs] hold the same non-zero value. *)
Definition group_conflict (g : Grid) (cs : list (nat * nat)) : Prop :=
  ∃ x y, x ∈ cs ∧ y ∈ cs ∧ x ≠ y ∧ cell_val g x = cell_val g y ∧
         cell_val g x ≠ 0%Z.

(** ** Completions and solutions *)

(** [s] keeps the filled cells of [g] and puts in each empty cell of [g] a
    digit between 1 and 9 that no peer of the cell holds in [s]: what the
    search can reach from [g] by placing digits that pass [is_valid_move]. *)
Definition completion (g s : Grid) : Prop :=
  wf s ∧
  ∀ r c, r < 9 → c < 9 →
    if decide (val g r c = 0%Z)
    then digit (val s r c) ∧ ∀ r' c', peer r c r' c' → val s r' c' ≠ val s r c
    else val s r c = val g r c.

(** What a first-solution search reports about [g]: either a completion of
    [g], left in the grid, or no completion at all and the grid as it was. *)
Definition first_solution (g : Grid) (solved : bool) (g' : Grid) : Prop :=
  if solved then completion g g' else g' = g ∧ ∀ s, ¬ completion g s.

(** The completions of [g] as an exhaustive search lists them: one branch
    per digit that passes [is_valid_move] at the first empty cell. *)
Fixpoint completions (fuel : nat) (g : Grid) : list Grid :=
  match fuel with
  | 0 => []
  | S fuel' =>
      match find_empty g with
      | Ok None => [g]
      | Ok (Some (r, c)) =>
          d ← rangeZ 1 10;
          if is_valid_move g r c d is Ok true
          then completions fuel' (put g r c d) else []
      | _ => []
      end
  end.

(** Complete and valid: nine by nine, every cell a digit between 1 and 9,
    no digit twice in a row, a column or a box. *)
Definition solved (g : Grid) : Prop :=
  wf g ∧ (∀ r c, r < 9 → c < 9 → digit (val g r c)) ∧ conflict_free g.

(** [s] is a solved grid that keeps the clues of [p]. *)
Definition solution (p s : Grid) : Prop :=
  solved s ∧ ∀ r c, r < 9 → c < 9 → val p r c ≠ 0%Z → val s r c = val p r c.

Definition unique_solution (p s : Grid) : Prop :=
  solution p s ∧ ∀ s', solution p s' → s' = s.

(** ** The loops of [validate_grid] when no read can fail *)

(** A loop body that tests its argument and raises when the test fails. *)
Definition check {A} (test : A → bool) (err : A → exn) (x : A) : res () :=
  if test x then Ok () else Raise (err x).

Definition range_checks (g : Grid) : res () :=
  for_each
    (check (λ rc, bool_decide (0 ≤ cell_val g rc ≤ 9)%Z)
           (λ rc, ValueError
                    (Invalid_value_at (cell_val g rc) (rc.1 + 1) (rc.2 + 1))))
    all_cells.

Definition row_checks (g : Grid) : res () :=
  for_each
    (check (λ r, is_valid_group (cell_val g <$> cells [r] (range 0 9)))
           (λ r, ValueError (Duplicate_in_row (r + 1))))
    (range 0 9).

Definition column_checks (g : Grid) : res () :=
  for_each
    (check (λ c, is_valid_group (cell_val g <$> cells (range 0 9) [c]))
           (λ c, ValueError (Duplicate_in_column (c + 1))))
    (range 0 9).

Definition box_checks (g : Grid) : res () :=
  for_each
    (check (λ b, is_valid_group
                   (cell_val g <$> cells (range b.1 (b.1 + 3))
                                         (range b.2 (b.2 + 3))))
           (λ b, ValueError (Duplicate_in_box (b.1 + 1) (b.2 + 1))))
    (cells [0; 3; 6] [0; 3; 6]).

(** ** The attempts of the extreme tier *)

(** The outcome of the attempt number [k] (from 0) of
    [generate_extreme_puzzle], when the attempts before it were rejected:
    the loop body run from the state the earlier attempts left. *)
Fixpoint attempt_at {Rng : Type} (sample9 : Rng → list Z * Rng)
    (shuffle : list (nat * nat) → Rng → list (nat * nat) * Rng)
    (fuel k : nat) (rng : Rng) : res (Grid * Z * Rng) :=
  match k with
  | 0 => extreme_attempt sample9 shuffle fuel rng
  | S k' =>
      '(_, _, rng1) ← extreme_attempt sample9 shuffle fuel rng;
      attempt_at sample9 shuffle fuel k' rng1
  end.

(** Two outcomes of the measuring search, run on two random sources whose
    states are related by [same], agree. *)
Definition agree {R1 R2 : Type} (same : R1 → R2 → Prop)
    (o1 : res (bool * Grid * Z * R1)) (o2 : res (bool * Grid * Z * R2)) : Prop :=
  match o1, o2 with
  | Ok (b1, g1, n1, r1), Ok (b2, g2, n2, r2) =>
      b1 = b2 ∧ g1 = g2 ∧ n1 = n2 ∧ same r1 r2
  | Raise e1, Raise e2 => e1 = e2
  | OutOfFuel, OutOfFuel => True
  | _, _ => False
  end.

(** ** Example grids and a toy random source *)

(** The grid [solve_sudoku] reaches from the empty grid. *)
Definition first_grid : Grid :=
  [[1; 2; 3; 4; 5; 6; 7; 8; 9]; [4; 5; 6; 7; 8; 9; 1; 2; 3];
   [7; 8; 9; 1; 2; 3; 4; 5; 6]; [2; 1; 4; 3; 6; 5; 8; 9; 7];
   [3; 6; 5; 8; 9; 7; 2; 1; 4]; [8; 9; 7; 2; 1; 4; 3; 6; 5];
   [5; 3; 1; 6; 4; 2; 9; 7; 8]; [6; 4; 2; 9; 7; 8; 5; 3; 1];
   [9; 7; 8; 5; 3; 1; 6; 4; 2]]%Z.

(** Another solved grid, from which the next two are cut. *)
Definition order_solution : Grid :=
  [[5; 3; 4; 6; 7; 8; 9; 1; 2]; [6; 7; 2; 1; 9; 5; 3; 4; 8];
   [1; 9; 8; 3; 4; 2; 5; 6; 7]; [8; 5; 9; 7; 6; 1; 4; 2; 3];
   [4; 2; 6; 8; 5; 3; 7; 9; 1]; [7; 1; 3; 9; 2; 4; 8; 5; 6];
   [9; 6; 1; 5; 3; 7; 2; 8; 4]; [2; 8; 7; 4; 1; 9; 6; 3; 5];
   [3; 4; 5; 2; 8; 6; 1; 7; 9]]%Z.

(** [order_solution] with rows 0, 3, 8 cleared in columns 3, 4, 5: it has
    three completions. *)
Definition three_grid : Grid :=
  [[5; 3; 4; 0; 0; 0; 9; 1; 2]; [6; 7; 2; 1; 9; 5; 3; 4; 8];
   [1; 9; 8; 3; 4; 2; 5; 6; 7]; [8; 5; 9; 0; 0; 0; 4; 2; 3];
   [4; 2; 6; 8; 5; 3; 7; 9; 1]; [7; 1; 3; 9; 2; 4; 8; 5; 6];
   [9; 6; 1; 5; 3; 7; 2; 8; 4]; [2; 8; 7; 4; 1; 9; 6; 3; 5];
   [3; 4; 5; 0; 0; 0; 1; 7; 9]]%Z.

(** [order_solution] with the cells (0,2), (0,8), (1,2), (1,8) cleared: it
    has one completion, and digit 2 at (0,2) is a dead end. *)
Definition order_grid : Grid :=
  [[5; 3; 0; 6; 7; 8; 9; 1; 0]; [6; 7; 0; 1; 9; 5; 3; 4; 0];
   [1; 9; 8; 3; 4; 2; 5; 6; 7]; [8; 5; 9; 7; 6; 1; 4; 2; 3];
   [4; 2; 6; 8; 5; 3; 7; 9; 1]; [7; 1; 3; 9; 2; 4; 8; 5; 6];
   [9; 6; 1; 5; 3; 7; 2; 8; 4]; [2; 8; 7; 4; 1; 9; 6; 3; 5];
   [3; 4; 5; 2; 8; 6; 1; 7; 9]]%Z.

(** A grid without completion: the last cell of the first row can only
    take 9, which already stands below it. *)
Definition stuck_grid : Grid :=
  [[1; 2; 3; 4; 5; 6; 7; 8; 0]; [0; 0; 0; 0; 0; 0; 0; 0; 9];
   [0; 0; 0; 0; 0; 0; 0; 0; 0]; [0; 0; 0; 0; 0; 0; 0; 0; 0];
   [0; 0; 0; 0; 0; 0; 0; 0; 0]; [0; 0; 0; 0; 0; 0; 0; 0; 0];
   [0; 0; 0; 0; 0; 0; 0; 0; 0]; [0; 0; 0; 0; 0; 0; 0; 0; 0];
   [0; 0; 0; 0; 0; 0; 0; 0; 0]]%Z.

(** A row with two 1s, and a cell that holds 10. *)
Definition twin_grid : Grid :=
  <[0 := [1; 1; 0; 0; 0; 0; 0; 0; 0]%Z]> empty_grid.

Definition ten_grid : Grid :=
  <[0 := [9; 5; 10; 0; 0; 0; 0; 0; 0]%Z]> twin_grid.

(** A complete grid that is full of conflicts. *)
Definition ones_grid : Grid := replicate 9 (replicate 9 1%Z).

(** The grid [solve_sudoku_with_stats] reaches from the empty grid when
    the draws are descending, and the puzzle [generate_puzzle_base] cuts
    from it for the difficulty "extreme" when the toy source is in state 1
    (descending draws, cells visited from the last to the first):
    33 clues. *)
Definition descending_grid : Grid :=
  [[9; 8; 7; 6; 5; 4; 3; 2; 1]; [6; 5; 4; 3; 2; 1; 9; 8; 7];
   [3; 2; 1; 9; 8; 7; 6; 5; 4]; [8; 9; 6; 7; 4; 5; 2; 1; 3];
   [7; 4; 5; 2; 1; 3; 8; 9; 6]; [2; 1; 3; 8; 9; 6; 7; 4; 5];
   [5; 7; 9; 4; 6; 8; 1; 3; 2]; [4; 6; 8; 1; 3; 2; 5; 7; 9];
   [1; 3; 2; 5; 7; 9; 4; 6; 8]]%Z.

Definition extreme_grid : Grid :=
  [[0; 0; 7; 0; 0; 4; 3; 2; 0]; [0; 0; 4; 3; 2; 0; 9; 8; 0];
   [3; 2; 0; 9; 0; 0; 6; 5; 0]; [8; 9; 6; 0; 4; 5; 2; 0; 0];
   [0; 4; 5; 2; 0; 0; 0; 0; 0]; [2; 0; 0; 0; 0; 0; 0; 0; 0];
   [5; 7; 9; 4; 6; 8; 0; 0; 0]; [4; 6; 8; 0; 0; 0; 0; 0; 0];
   [0; 0; 0; 0; 0; 0; 0; 0; 0]]%Z.

(** A toy random source: the state is a seed that never changes; an even
    seed keeps the order, an odd seed reverses it. *)
Definition toy_sample (seed : nat) : list Z * nat :=
  (if Nat.even seed then rangeZ 1 10 else reverse (rangeZ 1 10), seed).

Definition toy_shuffle (cs : list (nat * nat)) (seed : nat)
    : list (nat * nat) * nat :=
  (if Nat.even seed then cs else reverse cs, seed).

(** ** Files *)


(** A reader of decimal numerals, and a disk where every file can be
    written. *)
Definition decimal (s : string) : option Z :=
  Z.of_int <$> DecimalString.NilZero.int_of_string s.

Definition all_writable (filename : string) : bool := true.

(** The line [generate_extreme_puzzle] prints for the attempt number [j]
    (from 0) of a run started in state [rng], shown as attempt [attempt]:
    the count of that attempt, grouped by thousands when it is below the
    threshold. *)
Definition attempt_line {Rng : Type} (sample9 : Rng → list Z * Rng)
    (shuffle : list (nat * nat) → Rng → list (nat * nat) * Rng)
    (fuel : nat) (min_nodes : Z) (rng : Rng) (j : nat) (attempt : Z)
    : option Generate.event :=
  match attempt_at sample9 shuffle fuel j rng with
  | Ok (_, nodes, _) =>
      Some (Generate.Extreme_accepted attempt nodes
              (bool_decide (nodes < min_nodes)%Z))
  | _ => None
  end.

(** Seeding and drawing a seed with the toy random source. *)
Definition toy_randrange (n : Z) (seed : nat) : Z * nat :=
  ((Z.of_nat seed `mod` n)%Z, seed).

Definition toy_reseed (s : Z) : nat := Z.to_nat s.

(** Command lines for the examples. *)
Definition easy_args : Generate.Args :=
  {| Generate.difficulty := "easy"; Generate.seed := Some 4%Z;
     Generate.output := Some "puzzle.csv"; Generate.no_pretty := false;
     Generate.pdf := None |}.


(** ** Reading a printed grid *)

(** The value shown by a character, the character at a position of a
    line, and the grid shown by the lines of [print_grid]: the cells stand
    at the even positions of a line that hold no bar, the rows on the lines
    that hold no dashes. *)
Definition read_cell (a : ascii) : Z :=
  if decide (a = "."%char) then 0%Z else (Z.of_nat (nat_of_ascii a) - 48)%Z.

Definition char_at (s : string) (n : nat) : ascii :=
  default " "%char (String.get n s).

Definition read_row (line : string) : list Z :=
  (λ n, read_cell (char_at line n)) <$> [0; 2; 4; 8; 10; 12; 16; 18; 20].

Definition read_grid (lines : list string) : Grid :=
  (λ n, read_row (default "" (lines !! n))) <$> [0; 1; 2; 4; 5; 6; 8; 9; 10].

(** * Properties *)

(** ** Tactics *)

(** Running a [bind] whose first computation is known. *)
Ltac simpl_res := cbn [mbind res_bind]; cbv beta.
Ltac simpl_res_in H := cbn [mbind res_bind] in H; cbv beta in H.

(** Well-formedness of a literal grid, by evaluation. *)
Ltac wf_compute :=
  lazymatch goal with
  | |- wf ?g => apply (bool_decide_unpack (wf g)); vm_compute; exact I
  end.

(** Quotient and remainder of an index by 3, for [lia]. *)
Ltac div3 n :=
  pose proof (Nat.div_mod_eq n 3);
  pose proof (Nat.mod_upper_bound n 3 ltac:(lia)).


(** ** Outcomes *)

Lemma bind_Ok {A B} (m : res A) (f : A → res B) (b : B) :
  m ≫= f = Ok b ↔ ∃ a, m = Ok a ∧ f a = Ok b.
Proof.
  destruct m as [a| |]; simpl; split.
  - intros Hf. exists a. split; [reflexivity|exact Hf].
  - by intros (? & [= <-] & ?).
  - done.
  - by intros (? & ? & ?).
  - done.
  - by intros (? & ? & ?).
Qed.

Lemma bind_Raise {A B} (m : res A) (f : A → res B) (e : exn) :
  m ≫= f = Raise e ↔ m = Raise e ∨ ∃ a, m = Ok a ∧ f a = Raise e.
Proof.
  destruct m as [a| |]; simpl; split.
  - intros Hf. right. exists a. split; [reflexivity|exact Hf].
  - by intros [?|(? & [= <-] & ?)].
  - intros [= ->]. by left.
  - by intros [[= ->]|(? & ? & ?)].
  - done.
  - by intros [?|(? & ? & ?)].
Qed.

Lemma bind_ext {A B} (m m' : res A) (f f' : A → res B) :
  m = m' → (∀ a, f a = f' a) → m ≫= f = m' ≫= f'.
Proof. intros -> Hf. destruct m' as [a| |]; simpl; auto. Qed.

(** ** Ranges and coordinates *)

Lemma elem_of_range (a b i : nat) : i ∈ range a b ↔ a ≤ i < b.
Proof. unfold range. rewrite elem_of_seq. lia. Qed.

Lemma elem_of_rangeZ (a b x : Z) : x ∈ rangeZ a b ↔ (a ≤ x < b)%Z.
Proof.
  unfold rangeZ. rewrite list_elem_of_fmap. split.
  - intros (i & -> & Hi). apply elem_of_seq in Hi. lia.
  - intros Hx. exists (Z.to_nat (x - a)). split; [lia|].
    apply elem_of_seq. lia.
Qed.

Lemma elem_of_cells (rs cs : list nat) (r c : nat) :
  (r, c) ∈ cells rs cs ↔ r ∈ rs ∧ c ∈ cs.
Proof.
  unfold cells. rewrite list_elem_of_bind. split.
  - intros (r' & Hin & Hr'). apply list_elem_of_fmap in Hin as (c' & [= -> ->] & Hc').
    done.
  - intros [Hr Hc]. exists r. split; [|done]. apply list_elem_of_fmap. eauto.
Qed.

Lemma elem_of_all_cells (r c : nat) : (r, c) ∈ all_cells ↔ r < 9 ∧ c < 9.
Proof. unfold all_cells. rewrite elem_of_cells, !elem_of_range. lia. Qed.

(** ** Well-formed grids and their cells *)

Lemma wf_row (g : Grid) (r : nat) :
  wf g → r < 9 → ∃ row, g !! r = Some row ∧ length row = 9.
Proof.
  intros [Hlen Hrows] Hr.
  destruct (lookup_lt_is_Some_2 g r) as [row Hrow]; [lia|].
  exists row. split; [done|].
  by apply (Forall_lookup_1 _ _ _ _ Hrows Hrow).
Qed.

Lemma wf_cell (g : Grid) (r c : nat) :
  wf g → r < 9 → c < 9 →
  ∃ row, g !! r = Some row ∧ length row = 9 ∧ row !! c = Some (val g r c).
Proof.
  intros Hwf Hr Hc. destruct (wf_row g r Hwf Hr) as (row & Hrow & Hlen).
  exists row. split_and!; [done..|].
  destruct (lookup_lt_is_Some_2 row c) as [v Hv]; [lia|].
  unfold val. rewrite Hrow. simpl. by rewrite Hv.
Qed.

Lemma get_row_wf (g : Grid) (r : nat) :
  wf g → r < 9 → ∃ row, get_row g r = Ok row ∧ g !! r = Some row ∧ length row = 9.
Proof.
  intros Hwf Hr. destruct (wf_row g r Hwf Hr) as (row & Hrow & Hlen).
  exists row. unfold get_row. by rewrite Hrow.
Qed.

Lemma get_cell_wf (g : Grid) (r c : nat) :
  wf g → r < 9 → c < 9 → get_cell g r c = Ok (val g r c).
Proof.
  intros Hwf Hr Hc. destruct (wf_cell g r c Hwf Hr Hc) as (row & Hrow & _ & Hv).
  unfold get_cell, get_row. rewrite Hrow. simpl. by rewrite Hv.
Qed.

Lemma set_cell_wf (g : Grid) (r c : nat) (v : Z) :
  wf g → r < 9 → c < 9 → set_cell g r c v = Ok (put g r c v).
Proof.
  intros Hwf Hr Hc. destruct (wf_row g r Hwf Hr) as (row & Hrow & Hlen).
  unfold set_cell, get_row, put. rewrite Hrow. simpl.
  rewrite decide_True by lia. done.
Qed.

Lemma wf_put (g : Grid) (r c : nat) (v : Z) : wf g → wf (put g r c v).
Proof.
  intros [Hlen Hrows]. unfold put. destruct (g !! r) as [row|] eqn:Hrow; [|done].
  split; [by rewrite length_insert|].
  apply Forall_insert; [done|]. rewrite length_insert.
  by apply (Forall_lookup_1 _ _ _ _ Hrows Hrow).
Qed.

Lemma val_put_eq (g : Grid) (r c : nat) (v : Z) :
  wf g → r < 9 → c < 9 → val (put g r c v) r c = v.
Proof.
  intros Hwf Hr Hc. destruct (wf_row g r Hwf Hr) as (row & Hrow & Hlen).
  unfold val, put. rewrite Hrow.
  rewrite list_lookup_insert_eq by (apply lookup_lt_Some in Hrow; lia). simpl.
  rewrite list_lookup_insert_eq by lia. done.
Qed.

Lemma val_put_ne (g : Grid) (r c r' c' : nat) (v : Z) :
  (r, c) ≠ (r', c') → val (put g r c v) r' c' = val g r' c'.
Proof.
  intros Hne. unfold val, put. destruct (g !! r) as [row|] eqn:Hrow; [|done].
  destruct (decide (r = r')) as [<-|Hr].
  - rewrite list_lookup_insert_eq by (by apply lookup_lt_Some in Hrow).
    rewrite Hrow. simpl. rewrite list_lookup_insert_ne by congruence. done.
  - by rewrite list_lookup_insert_ne.
Qed.

Lemma put_put_restore (g : Grid) (r c : nat) (v : Z) :
  wf g → r < 9 → c < 9 → put (put g r c v) r c (val g r c) = g.
Proof.
  intros Hwf Hr Hc. destruct (wf_cell g r c Hwf Hr Hc) as (row & Hrow & Hlen & Hv).
  unfold put at 2. rewrite Hrow. unfold put.
  rewrite list_lookup_insert_eq by (apply lookup_lt_Some in Hrow; lia).
  rewrite list_insert_insert_eq, list_insert_insert_eq.
  rewrite (list_insert_id row c) by done. by apply list_insert_id.
Qed.

Lemma put_put_zero (g : Grid) (r c : nat) (v : Z) :
  wf g → r < 9 → c < 9 → val g r c = 0%Z → put (put g r c v) r c 0 = g.
Proof.
  intros Hwf Hr Hc H0. pose proof (put_put_restore g r c v Hwf Hr Hc) as Hput.
  by rewrite H0 in Hput.
Qed.

Lemma grid_ext (g s : Grid) :
  wf g → wf s → (∀ r c, r < 9 → c < 9 → val g r c = val s r c) → g = s.
Proof.
  intros Hg Hs Heq. apply list_eq. intros r.
  destruct (decide (r < 9)) as [Hr|Hr].
  - destruct (wf_row g r Hg Hr) as (row & Hrow & Hlen).
    destruct (wf_row s r Hs Hr) as (row' & Hrow' & Hlen').
    rewrite Hrow, Hrow'. f_equal. apply list_eq. intros c.
    destruct (decide (c < 9)) as [Hc|Hc].
    + specialize (Heq r c Hr Hc). unfold val in Heq. rewrite Hrow, Hrow' in Heq.
      simpl in Heq.
      destruct (lookup_lt_is_Some_2 row c) as [v Hv]; [lia|].
      destruct (lookup_lt_is_Some_2 row' c) as [v' Hv']; [lia|].
      rewrite Hv, Hv' in Heq |- *. simpl in Heq. by subst.
    + rewrite !lookup_ge_None_2 by lia. done.
  - destruct Hg as [Hg _], Hs as [Hs _]. rewrite !lookup_ge_None_2 by lia. done.
Qed.

Lemma zeros_le (g : Grid) : zeros g ≤ 81.
Proof.
  unfold zeros. pose proof (length_filter (λ rc, val g rc.1 rc.2 = 0%Z) all_cells).
  assert (length all_cells = 81) by reflexivity. lia.
Qed.

Lemma filter_length_lt {A} (P Q : A → Prop) `{!∀ x, Decision (P x)}
    `{!∀ x, Decision (Q x)} (l : list A) (a : A) :
  (∀ x, x ∈ l → Q x → P x) → a ∈ l → P a → ¬ Q a →
  length (filter Q l) < length (filter P l).
Proof.
  intros Himp Hin HP HQ. induction l as [|x l IH]; [by apply elem_of_nil in Hin|].
  assert (Hle : ∀ l' : list A, (∀ x, x ∈ l' → Q x → P x) →
                 length (filter Q l') ≤ length (filter P l')).
  { clear. intros l' Himp. induction l' as [|y l' IH]; [done|].
    rewrite !filter_cons.
    assert (length (filter Q l') ≤ length (filter P l')).
    { apply IH. intros z Hz. apply Himp. by right. }
    destruct (decide (Q y)) as [Hq|Hq].
    - rewrite decide_True by (apply Himp; [left|done]). simpl. lia.
    - destruct (decide (P y)); simpl; lia. }
  rewrite !filter_cons. apply elem_of_cons in Hin as [<-|Hin].
  - rewrite (decide_True (P:=P a)) by done.
    rewrite (decide_False (P:=Q a)) by done. simpl.
    assert (length (filter Q l) ≤ length (filter P l)); [|lia].
    apply Hle. intros z Hz. apply Himp. by right.
  - assert (length (filter Q l) < length (filter P l)).
    { apply IH; [|done]. intros z Hz. apply Himp. by right. }
    destruct (decide (Q x)) as [Hq|Hq].
    + rewrite decide_True by (apply Himp; [left|done]). simpl. lia.
    + destruct (decide (P x)); simpl; lia.
Qed.

Lemma zeros_put (g : Grid) (r c : nat) (v : Z) :
  wf g → r < 9 → c < 9 → val g r c = 0%Z → v ≠ 0%Z →
  zeros (put g r c v) < zeros g.
Proof.
  intros Hwf Hr Hc H0 Hv. unfold zeros.
  apply (filter_length_lt _ _ _ (r, c)).
  - intros [r' c'] _. simpl. destruct (decide ((r, c) = (r', c'))) as [[= <- <-]|Hne].
    + by rewrite val_put_eq.
    + by rewrite val_put_ne.
  - by apply elem_of_all_cells.
  - done.
  - simpl. by rewrite val_put_eq.
Qed.

(** ** The solver primitives on well-formed grids *)

Lemma scan_wf (p : Z → bool) (g : Grid) (cs : list (nat * nat)) :
  wf g → (∀ r c, (r, c) ∈ cs → r < 9 ∧ c < 9) →
  (scan p g cs = Ok None ∧ ∀ r c, (r, c) ∈ cs → p (val g r c) = false) ∨
  (∃ r c, scan p g cs = Ok (Some (r, c)) ∧ (r, c) ∈ cs ∧ p (val g r c) = true).
Proof.
  intros Hwf. induction cs as [|[r c] cs IH]; intros Hin; simpl.
  - left. split; [done|]. intros r c Hrc. by apply elem_of_nil in Hrc.
  - destruct (Hin r c) as [Hr Hc]; [left|].
    rewrite get_cell_wf by done. simpl.
    destruct (p (val g r c)) eqn:Hp.
    + right. exists r, c. split_and!; [done| left |done].
    + destruct IH as [[Hscan Hall]|(r' & c' & Hscan & Hin' & Hp')].
      * intros r' c' Hrc. apply Hin. by right.
      * left. split; [done|]. intros r' c' [[= -> ->]|Hrc]%elem_of_cons; auto.
      * right. exists r', c'. split_and!; [done| by right |done].
Qed.

Lemma find_empty_wf (g : Grid) :
  wf g →
  (find_empty g = Ok None ∧ ∀ r c, r < 9 → c < 9 → val g r c ≠ 0%Z) ∨
  (∃ r c, find_empty g = Ok (Some (r, c)) ∧ r < 9 ∧ c < 9 ∧ val g r c = 0%Z).
Proof.
  intros Hwf. unfold find_empty.
  destruct (scan_wf (λ v, v =? 0)%Z g all_cells Hwf)
    as [[Hscan Hall]|(r & c & Hscan & Hin & Hp)].
  - intros r c. apply elem_of_all_cells.
  - left. split; [done|]. intros r c Hr Hc.
    apply Z.eqb_neq, Hall, elem_of_all_cells. done.
  - right. exists r, c. apply elem_of_all_cells in Hin as [Hr Hc].
    apply Z.eqb_eq in Hp. done.
Qed.

Lemma box_range (i j : nat) : j ∈ range (i / 3 * 3) (i / 3 * 3 + 3) ↔ j / 3 = i / 3.
Proof.
  rewrite elem_of_range.
  pose proof (Nat.div_mod_eq i 3). pose proof (Nat.div_mod_eq j 3).
  pose proof (Nat.mod_upper_bound i 3). pose proof (Nat.mod_upper_bound j 3).
  lia.
Qed.

Lemma is_valid_move_wf (g : Grid) (r c : nat) (d : Z) :
  wf g → r < 9 → c < 9 →
  ∃ b : bool, is_valid_move g r c d = Ok b ∧ (b = true ↔ free g r c d).
Proof.
  intros Hwf Hr Hc. unfold is_valid_move.
  destruct (get_row_wf g r Hwf Hr) as (row & -> & Hrow & Hlen). simpl_res.
  case_bool_decide as Hin.
  { exists false. split; [done|]. split; [done|]. intros Hfree. exfalso.
    apply list_elem_of_lookup in Hin as [c' Hc'].
    assert (c' < 9) as Hlt by (apply lookup_lt_Some in Hc'; lia).
    apply (Hfree r c'); [unfold unit_of; lia|].
    unfold val. rewrite Hrow. simpl. by rewrite Hc'. }
  destruct (scan_wf (λ v, v =? d)%Z g (cells (range 0 9) [c]) Hwf)
    as [[-> Hcol]|(r' & c' & -> & Hin' & Hp)]; simpl_res.
  { intros r' c' [Hr' ->%list_elem_of_singleton]%elem_of_cells.
    apply elem_of_range in Hr'. lia. }
  2:{ exists false. split; [done|]. split; [done|]. intros Hfree. exfalso.
      apply elem_of_cells in Hin' as [Hr' ->%list_elem_of_singleton].
      apply elem_of_range in Hr'. apply Z.eqb_eq in Hp.
      apply (Hfree r' c); [unfold unit_of; lia|done]. }
  destruct (scan_wf (λ v, v =? d)%Z g
              (cells (range (r / 3 * 3) (r / 3 * 3 + 3))
                     (range (c / 3 * 3) (c / 3 * 3 + 3))) Hwf)
    as [[-> Hbox]|(r' & c' & -> & Hin' & Hp)]; simpl_res.
  { intros r' c' [Hr' Hc']%elem_of_cells.
    apply box_range in Hr', Hc'.
    pose proof (Nat.div_mod_eq r 3). pose proof (Nat.div_mod_eq r' 3).
    pose proof (Nat.mod_upper_bound r' 3).
    pose proof (Nat.div_mod_eq c 3). pose proof (Nat.div_mod_eq c' 3).
    pose proof (Nat.mod_upper_bound c' 3). lia. }
  2:{ exists false. split; [done|]. split; [done|]. intros Hfree. exfalso.
      apply elem_of_cells in Hin' as [Hr' Hc']. apply Z.eqb_eq in Hp.
      apply box_range in Hr', Hc'.
      apply (Hfree r' c'); [|done]. unfold unit_of. split_and!; [| |auto].
      - pose proof (Nat.div_mod_eq r 3). pose proof (Nat.div_mod_eq r' 3).
        pose proof (Nat.mod_upper_bound r' 3). lia.
      - pose proof (Nat.div_mod_eq c 3). pose proof (Nat.div_mod_eq c' 3).
        pose proof (Nat.mod_upper_bound c' 3). lia. }
  exists true. split; [done|]. split; [|done]. intros _ r' c' (Hr' & Hc' & Hunit).
  destruct Hunit as [->|[->|[Hbr Hbc]]].
  - intros Hd. apply Hin. apply list_elem_of_lookup. exists c'.
    destruct (wf_cell g r c' Hwf Hr Hc') as (row' & Hrow' & _ & Hv).
    rewrite Hrow in Hrow'. injection Hrow' as <-. by rewrite Hv, Hd.
  - apply Z.eqb_neq, Hcol, elem_of_cells. split; [|by apply list_elem_of_singleton].
    apply elem_of_range. lia.
  - apply Z.eqb_neq, Hbox, elem_of_cells. by rewrite !box_range.
Qed.

(** ** Completions of a grid *)

Lemma peer_sym (r c r' c' : nat) : r < 9 → c < 9 → peer r c r' c' → peer r' c' r c.
Proof.
  intros Hr Hc [(Hr' & Hc' & Hu) Hne]. split; [|congruence].
  unfold unit_of. split_and!; [done..|].
  destruct Hu as [->|[->|[-> ->]]]; auto.
Qed.

Lemma completion_wf (g s : Grid) : completion g s → wf s.
Proof. by intros [? _]. Qed.

Lemma completion_extends (g s : Grid) (r c : nat) :
  completion g s → r < 9 → c < 9 → val g r c ≠ 0%Z → val s r c = val g r c.
Proof.
  intros [_ Hs] Hr Hc Hv. specialize (Hs r c Hr Hc). by rewrite decide_False in Hs.
Qed.

Lemma completion_filled (g s : Grid) (r c : nat) :
  completion g s → r < 9 → c < 9 → val g r c = 0%Z →
  digit (val s r c) ∧ ∀ r' c', peer r c r' c' → val s r' c' ≠ val s r c.
Proof.
  intros [_ Hs] Hr Hc Hv. specialize (Hs r c Hr Hc). by rewrite decide_True in Hs.
Qed.

Lemma completion_complete (g s : Grid) (r c : nat) :
  completion g s → r < 9 → c < 9 → val s r c = 0%Z → False.
Proof.
  intros Hs Hr Hc Hv. destruct (decide (val g r c = 0%Z)) as [H0|H0].
  - destruct (completion_filled g s r c Hs Hr Hc H0) as [Hd _].
    unfold digit in Hd. lia.
  - pose proof (completion_extends g s r c Hs Hr Hc H0). congruence.
Qed.

Lemma completion_conflict_free (g s : Grid) :
  conflict_free g → completion g s → conflict_free s.
Proof.
  intros Hg Hs r c r' c' Hr Hc Hp Hv.
  destruct (decide (val g r c = 0%Z)) as [H0|H0].
  { by apply (completion_filled g s r c Hs Hr Hc H0). }
  assert (r' < 9 ∧ c' < 9) as [Hr' Hc'] by (destruct Hp as [(? & ? & _) _]; done).
  destruct (decide (val g r' c' = 0%Z)) as [H0'|H0'].
  { intros Heq. symmetry in Heq. revert Heq.
    apply (completion_filled g s r' c' Hs Hr' Hc' H0'). by apply peer_sym. }
  rewrite (completion_extends g s r c), (completion_extends g s r' c') by done.
  by apply Hg.
Qed.

(** A grid without an empty cell has exactly one completion: itself. *)
Lemma completion_of_complete (g s : Grid) :
  wf g → complete g → completion g s ↔ s = g.
Proof.
  intros Hwf Hfull. split.
  - intros Hs. apply grid_ext; [by eapply completion_wf|done|].
    intros r c Hr Hc. apply (completion_extends g s); auto.
  - intros ->. split; [done|]. intros r c Hr Hc.
    rewrite decide_False by auto. done.
Qed.

(** Completions of [g] are the completions of the grids obtained by
    placing a valid digit in an empty cell. *)
Lemma completion_place (g s : Grid) (r c : nat) :
  wf g → r < 9 → c < 9 → val g r c = 0%Z → completion g s →
  digit (val s r c) ∧ free g r c (val s r c) ∧
  completion (put g r c (val s r c)) s.
Proof.
  intros Hwf Hr Hc H0 Hs.
  destruct (completion_filled g s r c Hs Hr Hc H0) as [Hd Hpeers].
  split; [done|]. split.
  - intros r' c' Hu. destruct (decide ((r', c') = (r, c))) as [[= -> ->]|Hne].
    { rewrite H0. unfold digit in Hd. lia. }
    assert (r' < 9 ∧ c' < 9) as [Hr' Hc'] by (destruct Hu as (? & ? & _); done).
    destruct (decide (val g r' c' = 0%Z)) as [H0'|H0'].
    { rewrite H0'. unfold digit in Hd. lia. }
    rewrite <-(completion_extends g s r' c') by done. by apply Hpeers.
  - split; [by eapply completion_wf|]. intros r' c' Hr' Hc'.
    destruct (decide ((r, c) = (r', c'))) as [[= <- <-]|Hne].
    + rewrite val_put_eq by done. rewrite decide_False; [done|].
      unfold digit in Hd. lia.
    + rewrite val_put_ne by done. by apply Hs.
Qed.

Lemma completion_unplace (g s : Grid) (r c : nat) (d : Z) :
  wf g → r < 9 → c < 9 → val g r c = 0%Z → digit d → free g r c d →
  completion (put g r c d) s → completion g s ∧ val s r c = d.
Proof.
  intros Hwf Hr Hc H0 Hd Hfree Hs.
  assert (val s r c = d) as Hsd.
  { rewrite (completion_extends (put g r c d) s r c Hs Hr Hc);
      rewrite val_put_eq by done; [done|]. unfold digit in Hd. lia. }
  split; [|done]. split; [by eapply completion_wf|]. intros r0 c0 Hr0 Hc0.
  destruct (decide ((r, c) = (r0, c0))) as [[= <- <-]|Hne].
  - rewrite decide_True by done. rewrite Hsd. split; [done|].
    intros r' c' Hp.
    assert (r' < 9 ∧ c' < 9) as [Hr' Hc'] by (destruct Hp as [(? & ? & _) _]; done).
    assert ((r, c) ≠ (r', c')) as Hne by (destruct Hp as [_ ?]; congruence).
    destruct (decide (val g r' c' = 0%Z)) as [H0'|H0'].
    + rewrite <-Hsd. intros Heq. symmetry in Heq. revert Heq.
      apply (completion_filled (put g r c d) s r' c' Hs Hr' Hc').
      * by rewrite val_put_ne.
      * by apply peer_sym.
    + rewrite (completion_extends (put g r c d) s r' c' Hs Hr' Hc');
        rewrite val_put_ne by done; [|done].
      apply Hfree. by destruct Hp.
  - destruct Hs as [_ Hs]. specialize (Hs r0 c0 Hr0 Hc0).
    by rewrite val_put_ne in Hs.
Qed.

(** ** The first-solution searches *)

Lemma digit_rangeZ (d : Z) : d ∈ rangeZ 1 10 ↔ digit d.
Proof. rewrite elem_of_rangeZ. unfold digit. lia. Qed.

Lemma digit_nonzero (d : Z) : digit d → d ≠ 0%Z.
Proof. unfold digit. lia. Qed.

Lemma solve_loop_spec (rec : Grid → Z → res (bool * Grid * Z)) (g : Grid)
    (r c : nat) :
  wf g → r < 9 → c < 9 → val g r c = 0%Z →
  (∀ d a, digit d → free g r c d →
     ∃ b g' a', rec (put g r c d) a = Ok (b, g', a') ∧ (a ≤ a')%Z ∧
                first_solution (put g r c d) b g') →
  ∀ nums a, (∀ d, d ∈ nums → digit d) →
  ∃ b g' a', solve_loop rec r c nums g a = Ok (b, g', a') ∧ (a ≤ a')%Z ∧
    if b : bool then completion g g'
    else g' = g ∧ ∀ s, completion g s → val s r c ∉ nums.
Proof.
  intros Hwf Hr Hc H0 Hrec nums.
  induction nums as [|d nums IH]; intros a Hnums; cbn [solve_loop].
  { exists false, g, a. split_and!; [done|lia|done|].
    intros s _ Hin. by apply elem_of_nil in Hin. }
  assert (digit d) as Hd by (apply Hnums; left).
  destruct (IH (a + 1)%Z) as (bI & gI & aI & HI & HaI & HspecI).
  { intros d' Hd'. apply Hnums. by right. }
  destruct (is_valid_move_wf g r c d Hwf Hr Hc) as (ok & -> & Hok). simpl_res.
  destruct ok.
  - assert (free g r c d) as Hfree by (by apply Hok).
    rewrite set_cell_wf by done. simpl_res.
    destruct (Hrec d (a + 1)%Z Hd Hfree) as (b & g' & a' & -> & Ha' & Hspec).
    simpl_res. destruct b; simpl in Hspec.
    + exists true, g', a'. split_and!; [done|lia|].
      exact (proj1 (completion_unplace g g' r c d Hwf Hr Hc H0 Hd Hfree Hspec)).
    + destruct Hspec as [-> Hnone].
      rewrite set_cell_wf by (done || by apply wf_put). simpl_res.
      rewrite put_put_zero by done.
      destruct (IH a') as (b2 & g2 & a2 & -> & Ha2 & Hspec2).
      { intros d' Hd'. apply Hnums. by right. }
      exists b2, g2, a2. split_and!; [done|lia|].
      destruct b2; [done|]. destruct Hspec2 as [-> Hrest]. split; [done|].
      intros s Hs [Heq|Hin]%elem_of_cons; [|by eapply Hrest].
      subst d. apply (Hnone s). by apply completion_place.
  - exists bI, gI, aI. split_and!; [done|lia|].
    destruct bI; [done|]. destruct HspecI as [-> Hrest]. split; [done|].
    intros s Hs [Heq|Hin]%elem_of_cons; [|by eapply Hrest].
    subst d. assert (free g r c (val s r c)) as Hfree by (by apply completion_place).
    apply Hok in Hfree. done.
Qed.

Lemma solve_sudoku_spec (fuel : nat) (g : Grid) (a : Z) :
  wf g → zeros g < fuel →
  ∃ b g' a', solve_sudoku fuel g a = Ok (b, g', a') ∧ (a ≤ a')%Z ∧
             first_solution g b g'.
Proof.
  revert g a. induction fuel as [|fuel IH]; intros g a Hwf Hfuel; [lia|].
  cbn [solve_sudoku].
  destruct (find_empty_wf g Hwf) as [[-> Hfull]|(r & c & -> & Hr & Hc & H0)];
    simpl_res.
  { exists true, g, a. split_and!; [done|lia|].
    by apply completion_of_complete. }
  destruct (solve_loop_spec (solve_sudoku fuel) g r c Hwf Hr Hc H0)
    with (nums := rangeZ 1 10) (a := a) as (b & g' & a' & -> & Ha & Hspec).
  { intros d a0 Hd Hfree. apply IH; [by apply wf_put|].
    pose proof (zeros_put g r c d Hwf Hr Hc H0 (digit_nonzero d Hd)). lia. }
  { intros d. by rewrite digit_rangeZ. }
  exists b, g', a'. split_and!; [done..|].
  destruct b; [done|]. destruct Hspec as [-> Hnone]. split; [done|].
  intros s Hs. apply (Hnone s Hs), digit_rangeZ.
  by apply (completion_filled g s r c).
Qed.

Section random_search.
Context {Rng : Type} (sample9 : Rng → list Z * Rng).
Hypothesis sample9_perm : ∀ rng, (sample9 rng).1 ≡ₚ rangeZ 1 10.

Lemma stats_loop_spec (rec : Grid → Z → Rng → res (bool * Grid * Z * Rng))
    (g : Grid) (r c : nat) :
  wf g → r < 9 → c < 9 → val g r c = 0%Z →
  (∀ d n rng, digit d → free g r c d →
     ∃ b g' n' rng', rec (put g r c d) n rng = Ok (b, g', n', rng') ∧
                     (n ≤ n')%Z ∧ first_solution (put g r c d) b g') →
  ∀ nums n rng, (∀ d, d ∈ nums → digit d) →
  ∃ b g' n' rng', stats_loop rec r c nums g n rng = Ok (b, g', n', rng') ∧
    (n ≤ n')%Z ∧ (b = true → n + 1 ≤ n')%Z ∧
    if b : bool then completion g g'
    else g' = g ∧ ∀ s, completion g s → val s r c ∉ nums.
Proof.
  intros Hwf Hr Hc H0 Hrec nums.
  induction nums as [|d nums IH]; intros n rng Hnums; cbn [stats_loop].
  { exists false, g, n, rng. split_and!; [done|lia|done|done|].
    intros s _ Hin. by apply elem_of_nil in Hin. }
  assert (digit d) as Hd by (apply Hnums; left).
  assert (∀ d', d' ∈ nums → digit d') as Hnums'.
  { intros d' Hd'. apply Hnums. by right. }
  destruct (is_valid_move_wf g r c d Hwf Hr Hc) as (ok & -> & Hok). simpl_res.
  destruct ok.
  - assert (free g r c d) as Hfree by (by apply Hok).
    rewrite set_cell_wf by done. simpl_res.
    destruct (Hrec d (n + 1)%Z rng Hd Hfree)
      as (b & g' & n' & rng' & -> & Hn' & Hspec).
    simpl_res. destruct b; simpl in Hspec.
    + exists true, g', n', rng'. split_and!; [done|lia|lia|].
      exact (proj1 (completion_unplace g g' r c d Hwf Hr Hc H0 Hd Hfree Hspec)).
    + destruct Hspec as [-> Hnone].
      rewrite set_cell_wf by (done || by apply wf_put). simpl_res.
      rewrite put_put_zero by done.
      destruct (IH n' rng' Hnums') as (b2 & g2 & n2 & rng2 & -> & Hn2 & Hb2 & Hspec2).
      exists b2, g2, n2, rng2. split_and!; [done|lia|lia|].
      destruct b2; [done|]. destruct Hspec2 as [-> Hrest]. split; [done|].
      intros s Hs [Heq|Hin]%elem_of_cons; [|by eapply Hrest].
      subst d. apply (Hnone s). by apply completion_place.
  - destruct (IH n rng Hnums') as (b2 & g2 & n2 & rng2 & -> & Hn2 & Hb2 & Hspec2).
    exists b2, g2, n2, rng2. split_and!; [done..|].
    destruct b2; [done|]. destruct Hspec2 as [-> Hrest]. split; [done|].
    intros s Hs [Heq|Hin]%elem_of_cons; [|by eapply Hrest].
    subst d.
    assert (free g r c (val s r c)) as Hfree by (by apply completion_place).
    apply Hok in Hfree. done.
Qed.

Lemma solve_sudoku_with_stats_spec (fuel : nat) (g : Grid) (n : Z) (rng : Rng) :
  wf g → zeros g < fuel →
  ∃ b g' n' rng',
    solve_sudoku_with_stats sample9 fuel g n rng = Ok (b, g', n', rng') ∧
    (n ≤ n')%Z ∧ (b = true → ¬ complete g → n + 1 ≤ n')%Z ∧
    first_solution g b g'.
Proof.
  revert g n rng. induction fuel as [|fuel IH]; intros g n rng Hwf Hfuel; [lia|].
  cbn [solve_sudoku_with_stats].
  destruct (find_empty_wf g Hwf) as [[-> Hfull]|(r & c & -> & Hr & Hc & H0)];
    simpl_res.
  { exists true, g, n, rng. split_and!; [done|lia|done|].
    by apply completion_of_complete. }
  pose proof (sample9_perm rng) as Hperm.
  destruct (sample9 rng) as [nums rng1]. simpl in Hperm.
  destruct (stats_loop_spec (solve_sudoku_with_stats sample9 fuel) g r c
              Hwf Hr Hc H0)
    with (nums := nums) (n := n) (rng := rng1)
    as (b & g' & n' & rng' & -> & Hn & Hb & Hspec).
  { intros d n0 rng0 Hd Hfree.
    destruct (IH (put g r c d) n0 rng0) as (b & g' & n' & rng' & ? & ? & _ & ?).
    - by apply wf_put.
    - pose proof (zeros_put g r c d Hwf Hr Hc H0 (digit_nonzero d Hd)). lia.
    - by exists b, g', n', rng'. }
  { intros d. rewrite Hperm. by rewrite digit_rangeZ. }
  exists b, g', n', rng'. split_and!; [done|done|auto|].
  destruct b; [done|]. destruct Hspec as [-> Hnone]. split; [done|].
  intros s Hs. apply (Hnone s Hs). rewrite Hperm. apply digit_rangeZ.
  by apply (completion_filled g s r c).
Qed.
End random_search.

(** ** The counting search *)

Lemma elem_of_completions (fuel : nat) (g s : Grid) :
  wf g → zeros g < fuel → s ∈ completions fuel g ↔ completion g s.
Proof.
  revert g. induction fuel as [|fuel IH]; intros g Hwf Hfuel; [lia|].
  cbn [completions].
  destruct (find_empty_wf g Hwf) as [[-> Hfull]|(r & c & -> & Hr & Hc & H0)].
  { rewrite list_elem_of_singleton. by rewrite completion_of_complete. }
  rewrite list_elem_of_bind. split.
  - intros (d & Hin & Hd%digit_rangeZ).
    destruct (is_valid_move_wf g r c d Hwf Hr Hc) as (ok & Hmove & Hok).
    rewrite Hmove in Hin. destruct ok; [|by apply elem_of_nil in Hin].
    apply IH in Hin.
    + assert (free g r c d) as Hfree by (by apply Hok).
      exact (proj1 (completion_unplace g s r c d Hwf Hr Hc H0 Hd Hfree Hin)).
    + by apply wf_put.
    + pose proof (zeros_put g r c d Hwf Hr Hc H0 (digit_nonzero d Hd)). lia.
  - intros Hs. exists (val s r c).
    destruct (completion_place g s r c Hwf Hr Hc H0 Hs) as (Hd & Hfree & Hput).
    split; [|by apply digit_rangeZ].
    destruct (is_valid_move_wf g r c (val s r c) Hwf Hr Hc) as (ok & -> & Hok).
    apply Hok in Hfree as ->. apply IH; [by apply wf_put| |done].
    pose proof (zeros_put g r c _ Hwf Hr Hc H0 (digit_nonzero _ Hd)). lia.
Qed.

Lemma NoDup_rangeZ (a b : Z) : NoDup (rangeZ a b).
Proof.
  unfold rangeZ. apply NoDup_fmap_2_strong; [|apply NoDup_seq].
  intros i j _ _ Heq. lia.
Qed.

Lemma NoDup_completions (fuel : nat) (g : Grid) :
  wf g → zeros g < fuel → NoDup (completions fuel g).
Proof.
  revert g. induction fuel as [|fuel IH]; intros g Hwf Hfuel; [lia|].
  cbn [completions].
  destruct (find_empty_wf g Hwf) as [[-> Hfull]|(r & c & -> & Hr & Hc & H0)].
  { apply NoDup_singleton. }
  assert (∀ d s, d ∈ rangeZ 1 10 →
            s ∈ (if is_valid_move g r c d is Ok true
                 then completions fuel (put g r c d) else []) →
            free g r c d ∧ completion (put g r c d) s) as Hbranch.
  { intros d s Hd%digit_rangeZ Hin.
    destruct (is_valid_move_wf g r c d Hwf Hr Hc) as (ok & Hmove & Hok).
    rewrite Hmove in Hin. destruct ok; [|by apply elem_of_nil in Hin].
    split; [by apply Hok|]. apply elem_of_completions in Hin; [done|by apply wf_put|].
    pose proof (zeros_put g r c d Hwf Hr Hc H0 (digit_nonzero d Hd)). lia. }
  apply NoDup_bind; [| |apply NoDup_rangeZ].
  - intros d1 d2 s Hd1 Hd2 Hin1 Hin2.
    destruct (Hbranch d1 s Hd1 Hin1) as [Hfree1 Hs1].
    destruct (Hbranch d2 s Hd2 Hin2) as [Hfree2 Hs2].
    apply digit_rangeZ in Hd1, Hd2.
    rewrite <-(proj2 (completion_unplace g s r c d1 Hwf Hr Hc H0 Hd1 Hfree1 Hs1)).
    exact (proj2 (completion_unplace g s r c d2 Hwf Hr Hc H0 Hd2 Hfree2 Hs2)).
  - intros d Hd%digit_rangeZ.
    destruct (is_valid_move g r c d) as [[|]| |]; try apply NoDup_nil_2.
    apply IH; [by apply wf_put|].
    pose proof (zeros_put g r c d Hwf Hr Hc H0 (digit_nonzero d Hd)). lia.
Qed.

Lemma count_loop_spec (rec : Grid → res (Z * Grid)) (f : Z → list Grid)
    (g : Grid) (r c : nat) (limit bound : Z) :
  wf g → r < 9 → c < 9 → val g r c = 0%Z → (0 ≤ bound)%Z →
  (∀ d, digit d → free g r c d →
     ∃ m, rec (put g r c d) = Ok (m, put g r c d) ∧
          (0 ≤ m ≤ Z.of_nat (length (f d)))%Z ∧ (m < limit → m = Z.of_nat (length (f d)))%Z ∧
          (1 ≤ limit → m ≤ bound)%Z) →
  (∀ d, ¬ free g r c d → f d = []) →
  ∀ nums acc, (0 ≤ acc)%Z → (∀ d, d ∈ nums → digit d) →
  ∃ n, count_loop rec r c nums g limit acc = Ok (n, g) ∧
       (acc ≤ n ≤ acc + Z.of_nat (length (nums ≫= f)))%Z ∧
       (n < limit → n = acc + Z.of_nat (length (nums ≫= f)))%Z ∧
       (acc < limit → n ≤ limit - 1 + bound)%Z.
Proof.
  intros Hwf Hr Hc H0 Hbound Hrec Hinvalid nums.
  induction nums as [|d nums IH]; intros acc Hacc Hnums; cbn [count_loop].
  { exists acc. simpl. split_and!; [done|lia..]. }
  assert (digit d) as Hd by (apply Hnums; left).
  assert (∀ d', d' ∈ nums → digit d') as Hnums'.
  { intros d' Hd'. apply Hnums. by right. }
  rewrite bind_cons, length_app.
  destruct (is_valid_move_wf g r c d Hwf Hr Hc) as (ok & -> & Hok). simpl_res.
  destruct ok.
  - assert (free g r c d) as Hfree by (by apply Hok).
    rewrite set_cell_wf by done. simpl_res.
    destruct (Hrec d Hd Hfree) as (m & -> & Hm & Hexact & Hmb). simpl_res.
    rewrite set_cell_wf by (done || by apply wf_put). simpl_res.
    rewrite put_put_zero by done.
    case_decide as Hlimit.
    + exists (acc + m)%Z. split_and!; [done|lia..].
    + destruct (IH (acc + m)%Z) as (n & -> & Hn & Hnexact & Hnb); [lia|done|].
      exists n. split_and!; [done|lia..].
  - rewrite (Hinvalid d) by (intros Hfree; by apply Hok in Hfree). simpl.
    destruct (IH acc Hacc Hnums') as (n & -> & Hn & Hnexact & Hnb).
    exists n. split_and!; [done|lia..].
Qed.

Lemma count_solutions_spec (fuel : nat) (g : Grid) (limit : Z) :
  wf g → zeros g < fuel →
  ∃ n, count_solutions fuel g limit = Ok (n, g) ∧
       (0 ≤ n ≤ Z.of_nat (length (completions fuel g)))%Z ∧
       (n < limit → n = Z.of_nat (length (completions fuel g)))%Z ∧
       (1 ≤ limit → n ≤ 1 + (limit - 1) * Z.of_nat (zeros g))%Z.
Proof.
  revert g. induction fuel as [|fuel IH]; intros g Hwf Hfuel; [lia|].
  cbn [count_solutions completions].
  destruct (find_empty_wf g Hwf) as [[-> Hfull]|(r & c & -> & Hr & Hc & H0)];
    simpl_res.
  { exists 1%Z. simpl. split_and!; [done|try lia..|nia]. }
  assert (1 ≤ zeros g) as Hz.
  { pose proof (zeros_put g r c 1 Hwf Hr Hc H0). lia. }
  destruct (count_loop_spec (λ g1, count_solutions fuel g1 limit)
              (λ d, if is_valid_move g r c d is Ok true
                    then completions fuel (put g r c d) else [])
              g r c limit (Z.max 0 (1 + (limit - 1) * (Z.of_nat (zeros g) - 1)))
              Hwf Hr Hc H0)
    with (nums := rangeZ 1 10) (acc := 0%Z) as (n & -> & Hn & Hexact & Hnb).
  - lia.
  - intros d Hd Hfree.
    pose proof (zeros_put g r c d Hwf Hr Hc H0 (digit_nonzero d Hd)) as Hlt.
    destruct (IH (put g r c d)) as (m & -> & Hm & Hmexact & Hmb);
      [by apply wf_put|lia|].
    destruct (is_valid_move_wf g r c d Hwf Hr Hc) as (ok & -> & Hok).
    apply Hok in Hfree as ->.
    exists m. split_and!; [done|lia..|]. intros Hl. specialize (Hmb Hl). nia.
  - intros d Hfree.
    destruct (is_valid_move_wf g r c d Hwf Hr Hc) as (ok & -> & Hok).
    destruct ok; [|done]. exfalso. by apply Hfree, Hok.
  - lia.
  - intros d. by rewrite digit_rangeZ.
  - exists n. split_and!; [done|lia..|]. intros Hl. nia.
Qed.

(** ** The puzzle reducer *)

Lemma cleared_refl (p : Grid) : cleared p p.
Proof. intros r c _ _. by left. Qed.

Lemma cleared_trans (p1 p2 p3 : Grid) :
  cleared p1 p2 → cleared p2 p3 → cleared p1 p3.
Proof.
  intros H12 H23 r c Hr Hc.
  destruct (H23 r c Hr Hc) as [-> | ->]; [|by right]. by apply H12.
Qed.

Lemma cleared_put_zero (p : Grid) (r c : nat) :
  wf p → r < 9 → c < 9 → cleared p (put p r c 0).
Proof.
  intros Hwf Hr Hc r' c' Hr' Hc'.
  destruct (decide ((r, c) = (r', c'))) as [[= <- <-]|Hne].
  - right. by apply val_put_eq.
  - left. by apply val_put_ne.
Qed.

Lemma cleared_zero (p p' : Grid) (r c : nat) :
  cleared p p' → r < 9 → c < 9 → val p r c = 0%Z → val p' r c = 0%Z.
Proof. intros Hcl Hr Hc H0. destruct (Hcl r c Hr Hc) as [-> | ->]; done. Qed.

Lemma reduce_loop_spec (fuel : nat) (clues : Z) (cs : list (nat * nat))
    (p : Grid) (removed : Z) :
  81 < fuel → wf p → (∀ r c, (r, c) ∈ cs → r < 9 ∧ c < 9) →
  ∃ p', reduce_loop fuel clues cs p removed = Ok p' ∧ wf p' ∧ cleared p p' ∧
        (count_solutions fuel p 2 = Ok (1%Z, p) →
         count_solutions fuel p' 2 = Ok (1%Z, p')).
Proof.
  intros Hfuel. revert p removed.
  induction cs as [|[r c] cs IH]; intros p removed Hwf Hcs; cbn [reduce_loop].
  { exists p. split_and!; [done|done|apply cleared_refl|done]. }
  case_decide as Hclues.
  { exists p. split_and!; [done|done|apply cleared_refl|done]. }
  destruct (Hcs r c) as [Hr Hc]; [left|].
  assert (∀ r' c', (r', c') ∈ cs → r' < 9 ∧ c' < 9) as Hcs'.
  { intros r' c' Hin. apply Hcs. by right. }
  rewrite get_cell_wf, set_cell_wf by done. simpl_res.
  pose proof (wf_put p r c 0 Hwf) as Hwf1.
  destruct (count_solutions_spec fuel (put p r c 0) 2 Hwf1) as (n & Hcnt & _).
  { pose proof (zeros_le (put p r c 0)). lia. }
  rewrite Hcnt. simpl_res. case_decide as Hn.
  - rewrite set_cell_wf by done. simpl_res.
    rewrite put_put_restore by done. by apply IH.
  - destruct (IH (put p r c 0) (removed + 1)%Z Hwf1 Hcs')
      as (p' & -> & Hwf' & Hcl & Hcount).
    exists p'. split_and!; [done|done| |].
    + apply (cleared_trans p (put p r c 0) p'); [|exact Hcl].
      by apply cleared_put_zero.
    + intros _. apply Hcount. by rewrite <-Hn.
Qed.

(** ** Solved grids and solutions of a puzzle *)

Lemma solved_complete (g : Grid) : solved g → complete g.
Proof. intros (_ & Hd & _) r c Hr Hc. apply digit_nonzero. by apply Hd. Qed.

Lemma solution_completion (p s : Grid) : solution p s → completion p s.
Proof.
  intros [(Hwf & Hd & Hcf) Hext]. split; [done|]. intros r c Hr Hc.
  case_decide as H0; [|by apply Hext]. split; [by apply Hd|].
  intros r' c' Hp. apply Hcf; [done..|]. apply digit_nonzero. by apply Hd.
Qed.

(** A grid obtained by clearing cells of a solved grid has that grid among
    its completions, and all its completions are solutions. *)
Lemma cleared_solution (full p : Grid) : solved full → cleared full p → solution p full.
Proof.
  intros Hfull Hcl. split; [done|]. intros r c Hr Hc H0.
  destruct (Hcl r c Hr Hc) as [Heq|Heq]; congruence.
Qed.

Lemma completion_solution (p full s : Grid) :
  solution p full → completion p s → solution p s.
Proof.
  intros [(Hwf & Hd & Hcf) Hext] Hs.
  split; [|intros r c Hr Hc H0; by apply (completion_extends p s)].
  split_and!.
  - by eapply completion_wf.
  - intros r c Hr Hc. destruct (decide (val p r c = 0%Z)) as [H0|H0].
    + by apply (completion_filled p s).
    + rewrite (completion_extends p s), <-Hext by done. by apply Hd.
  - apply (completion_conflict_free p); [|done].
    intros r c r' c' Hr Hc Hp H0.
    assert (r' < 9 ∧ c' < 9) as [Hr' Hc'] by (destruct Hp as [(? & ? & _) _]; done).
    destruct (decide (val p r' c' = 0%Z)) as [H0'|H0']; [congruence|].
    rewrite <-!Hext by done. apply Hcf; [done..|].
    apply digit_nonzero. by apply Hd.
Qed.

(** Every digit occurs in every row of a solved grid. *)
Lemma solved_row_has_digit (g : Grid) (r : nat) (d : Z) :
  solved g → r < 9 → digit d → ∃ c, c < 9 ∧ val g r c = d.
Proof.
  intros (Hwf & Hd & Hcf) Hr Hdigit.
  set (l := val g r <$> seq 0 9).
  assert (NoDup l) as Hnd.
  { apply NoDup_fmap_2_strong; [|apply NoDup_seq].
    intros c c' Hc%elem_of_seq Hc'%elem_of_seq Heq.
    destruct (decide (c = c')) as [|Hne]; [done|]. exfalso.
    apply (Hcf r c r c'); [lia..| | |done].
    - split; [unfold unit_of; lia|congruence].
    - apply digit_nonzero, Hd; lia. }
  assert (l ≡ₚ rangeZ 1 10) as Hperm.
  { apply submseteq_length_Permutation; [|done].
    apply NoDup_submseteq; [done|].
    intros x (c & -> & Hc%elem_of_seq)%list_elem_of_fmap.
    apply digit_rangeZ, Hd; lia. }
  assert (d ∈ l) as (c & -> & Hc%elem_of_seq)%list_elem_of_fmap.
  { rewrite Hperm. by apply digit_rangeZ. }
  exists c. split; [lia|done].
Qed.

(** Clearing one cell of a solved grid leaves a single completion. *)
Lemma completion_one_cleared (full s : Grid) (r c : nat) :
  solved full → r < 9 → c < 9 → completion (put full r c 0) s ↔ s = full.
Proof.
  intros Hfull Hr Hc. pose proof Hfull as (Hwf & Hd & Hcf). split.
  - intros Hs. apply grid_ext; [by eapply completion_wf|done|].
    intros r' c' Hr' Hc'.
    destruct (decide ((r, c) = (r', c'))) as [[= <- <-]|Hne].
    + destruct (completion_filled _ s r c Hs Hr Hc) as [Hds Hpeers];
        [by apply val_put_eq|].
      destruct (solved_row_has_digit full r (val s r c) Hfull Hr Hds)
        as (c1 & Hc1 & Hv).
      destruct (decide (c1 = c)) as [->|Hne]; [done|]. exfalso.
      apply (Hpeers r c1).
      * split; [unfold unit_of; lia|congruence].
      * rewrite <-Hv. rewrite (completion_extends _ s r c1 Hs Hr Hc1);
          rewrite val_put_ne by congruence; [done|].
        apply digit_nonzero. by apply Hd.
    + rewrite (completion_extends _ s r' c' Hs Hr' Hc');
        rewrite val_put_ne by done; [done|].
      apply digit_nonzero. by apply Hd.
  - intros ->. apply solution_completion, cleared_solution; [done|].
    by apply cleared_put_zero.
Qed.

(** ** What the count says when the limit is 2 *)

Lemma count_solutions_one_unique (fuel : nat) (g : Grid) :
  wf g → zeros g < fuel →
  count_solutions fuel g 2 = Ok (1%Z, g) ↔
  ∃ s, ∀ s', completion g s' ↔ s' = s.
Proof.
  intros Hwf Hfuel.
  destruct (count_solutions_spec fuel g 2 Hwf Hfuel) as (n & Hcnt & Hn & Hexact & _).
  pose proof (NoDup_completions fuel g Hwf Hfuel) as Hnd.
  pose proof (λ s, elem_of_completions fuel g s Hwf Hfuel) as Hin.
  rewrite Hcnt. split.
  - intros [= ->]. assert (length (completions fuel g) = 1) as Hlen by lia.
    destruct (completions fuel g) as [|s [|??]]; try done.
    exists s. intros s'. rewrite <-Hin. apply list_elem_of_singleton.
  - intros (s & Hs). do 2 f_equal.
    assert (length (completions fuel g) = 1) as Hlen; [|lia].
    destruct (completions fuel g) as [|s1 [|s2 l]]; [| done |].
    + exfalso. apply (elem_of_nil s). apply Hin, Hs. done.
    + exfalso. assert (s1 = s) as -> by (apply Hs, Hin; left).
      assert (s2 = s) as -> by (apply Hs, Hin; right; left).
      apply NoDup_cons_1_1 in Hnd. apply Hnd. left.
Qed.

(** ** The empty grid *)

Lemma wf_empty_grid : wf empty_grid.
Proof. wf_compute. Qed.

Lemma val_empty_grid (r c : nat) : val empty_grid r c = 0%Z.
Proof.
  unfold val, empty_grid.
  destruct (replicate 9 (replicate 9 0%Z) !! r) as [row|] eqn:Hrow; [|done].
  apply lookup_replicate in Hrow as [-> _]. simpl.
  by do 9 (destruct c as [|c]; [done|]).
Qed.

Lemma conflict_free_empty_grid : conflict_free empty_grid.
Proof. intros r c r' c' _ _ _. by rewrite val_empty_grid. Qed.

Lemma completion_empty_grid : completion empty_grid first_grid.
Proof.
  destruct (solve_sudoku_spec 82 empty_grid 0 wf_empty_grid)
    as (b & g' & a' & Hrun & _ & Hspec).
  { pose proof (zeros_le empty_grid). lia. }
  vm_compute in Hrun. injection Hrun as <- <- <-. exact Hspec.
Qed.

Lemma completion_empty_solved (g : Grid) : completion empty_grid g → solved g.
Proof.
  intros Hg. split_and!.
  - by eapply completion_wf.
  - intros r c Hr Hc. apply (completion_filled empty_grid g); [done..|].
    apply val_empty_grid.
  - exact (completion_conflict_free empty_grid g conflict_free_empty_grid Hg).
Qed.

(** ** The generators *)

Lemma count_solutions_complete (fuel : nat) (g : Grid) (limit : Z) :
  wf g → complete g → 0 < fuel → count_solutions fuel g limit = Ok (1%Z, g).
Proof.
  intros Hwf Hfull Hfuel. destruct fuel as [|fuel]; [lia|]. cbn [count_solutions].
  destruct (find_empty_wf g Hwf) as [[-> _]|(r & c & _ & Hr & Hc & H0)]; [done|].
  by destruct (Hfull r c Hr Hc).
Qed.

Lemma reduce_loop_unique (fuel : nat) (clues : Z) (cs : list (nat * nat))
    (full : Grid) :
  81 < fuel → wf full → complete full → (∀ r c, (r, c) ∈ cs → r < 9 ∧ c < 9) →
  ∃ puzzle, reduce_loop fuel clues cs full 0 = Ok puzzle ∧ wf puzzle ∧
            cleared full puzzle ∧
            count_solutions fuel puzzle 2 = Ok (1%Z, puzzle).
Proof.
  intros Hfuel Hwf Hfull Hcs.
  destruct (reduce_loop_spec fuel clues cs full 0 Hfuel Hwf Hcs)
    as (puzzle & Hrun & Hwf' & Hcl & Hcount).
  exists puzzle. split_and!; [done..|].
  apply Hcount, count_solutions_complete; [done|done|lia].
Qed.

Section generation.
Context {Rng : Type}.
Variable sample9 : Rng → list Z * Rng.
Variable shuffle : list (nat * nat) → Rng → list (nat * nat) * Rng.
Hypothesis sample9_perm : ∀ rng, (sample9 rng).1 ≡ₚ rangeZ 1 10.
Hypothesis shuffle_perm : ∀ cs rng, (shuffle cs rng).1 ≡ₚ cs.

Lemma generate_full_grid_spec (fuel : nat) (rng : Rng) :
  81 < fuel →
  ∃ g rng', generate_full_grid sample9 fuel rng = Ok (g, rng') ∧ solved g.
Proof.
  intros Hfuel. unfold generate_full_grid.
  destruct (solve_sudoku_with_stats_spec sample9 sample9_perm fuel empty_grid 0
              rng wf_empty_grid)
    as (b & g & n & rng' & -> & _ & _ & Hspec).
  { pose proof (zeros_le empty_grid). lia. }
  simpl_res. exists g, rng'. split; [done|].
  destruct b; [by apply completion_empty_solved|].
  destruct Hspec as [_ Hnone]. destruct (Hnone _ completion_empty_grid).
Qed.

Lemma shuffle_in_range (rng : Rng) (r c : nat) :
  (r, c) ∈ (shuffle all_cells rng).1 → r < 9 ∧ c < 9.
Proof. rewrite shuffle_perm. apply elem_of_all_cells. Qed.

Lemma generate_puzzle_base_spec (fuel : nat) (difficulty : string) (clues : Z)
    (rng : Rng) :
  81 < fuel → DIFFICULTY_CLUES !! difficulty = Some clues →
  ∃ full rng1 puzzle,
    generate_full_grid sample9 fuel rng = Ok (full, rng1) ∧ solved full ∧
    reduce_loop fuel clues (shuffle all_cells rng1).1 full 0 = Ok puzzle ∧
    generate_puzzle_base sample9 shuffle fuel difficulty rng
      = Ok (puzzle, (shuffle all_cells rng1).2) ∧
    wf puzzle ∧ cleared full puzzle ∧
    count_solutions fuel puzzle 2 = Ok (1%Z, puzzle).
Proof.
  intros Hfuel Hclues. unfold generate_puzzle_base. rewrite Hclues. simpl_res.
  destruct (generate_full_grid_spec fuel rng Hfuel) as (full & rng1 & Hgen & Hfull).
  rewrite Hgen. simpl_res. fold all_cells.
  destruct (reduce_loop_unique fuel clues (shuffle all_cells rng1).1 full Hfuel)
    as (puzzle & Hrun & Hwf & Hcl & Hcount).
  { by destruct Hfull. }
  { by apply solved_complete. }
  { apply shuffle_in_range. }
  exists full, rng1, puzzle. split_and!; [done..| |done|done|done].
  destruct (shuffle all_cells rng1) as [cs rng2]. simpl in *.
  rewrite Hrun. done.
Qed.
End generation.

(** ** Validation *)

Lemma size_list_to_set_le (l : list Z) : size (list_to_set l : gset Z) ≤ length l.
Proof.
  induction l as [|x l IH]; [done|]. rewrite list_to_set_cons. simpl.
  pose proof (size_union_alt {[x]} (list_to_set l : gset Z)) as Hu.
  rewrite size_singleton in Hu.
  pose proof (subseteq_size (list_to_set l ∖ {[x]}) (list_to_set l : gset Z)) as Hd.
  rewrite Hu. assert (size (list_to_set l ∖ {[x]} : gset Z) ≤ size (list_to_set l : gset Z)).
  { apply Hd. apply subseteq_difference_l. reflexivity. }
  lia.
Qed.

Lemma size_list_to_set_NoDup (l : list Z) :
  size (list_to_set l : gset Z) = length l ↔ NoDup l.
Proof.
  split; [|apply size_list_to_set].
  induction l as [|x l IH]; [constructor|]. rewrite list_to_set_cons. simpl.
  intros Hsize. pose proof (size_list_to_set_le l) as Hle.
  destruct (decide (x ∈ l)) as [Hin|Hin].
  - exfalso. rewrite (subseteq_union_1_L {[x]} (list_to_set l)) in Hsize; [lia|].
    set_solver.
  - constructor; [done|]. apply IH.
    rewrite size_union, size_singleton in Hsize by set_solver. lia.
Qed.

Lemma NoDup_filter_nonzero (l : list Z) :
  NoDup (filter (λ v, v ≠ 0%Z) l) ↔
  ∀ i j v, l !! i = Some v → l !! j = Some v → v ≠ 0%Z → i = j.
Proof.
  induction l as [|x l IH].
  { split; [intros _ i j v Hi; by rewrite lookup_nil in Hi|constructor]. }
  rewrite filter_cons. destruct (decide (x ≠ 0%Z)) as [Hx|Hx].
  - rewrite NoDup_cons, IH, list_elem_of_filter. split.
    + intros [Hnin Hl] [|i] [|j] v Hi Hj Hv; simpl in *.
      * done.
      * injection Hi as ->. destruct Hnin. split; [done|].
        apply list_elem_of_lookup. eauto.
      * injection Hj as ->. destruct Hnin. split; [done|].
        apply list_elem_of_lookup. eauto.
      * f_equal. by apply (Hl i j v).
    + intros Hl. split.
      * intros [_ [j Hj]%list_elem_of_lookup]. by specialize (Hl 0 (S j) x eq_refl Hj Hx).
      * intros i j v Hi Hj Hv. by specialize (Hl (S i) (S j) v Hi Hj Hv) as [= ->].
  - rewrite IH. split.
    + intros Hl [|i] [|j] v Hi Hj Hv; simpl in *.
      * done.
      * injection Hi as ->. by destruct Hx.
      * injection Hj as ->. by destruct Hx.
      * f_equal. by apply (Hl i j v).
    + intros Hl i j v Hi Hj Hv. by specialize (Hl (S i) (S j) v Hi Hj Hv) as [= ->].
Qed.

Lemma is_valid_group_true (values : list Z) :
  is_valid_group values = true ↔
  ∀ i j v, values !! i = Some v → values !! j = Some v → v ≠ 0%Z → i = j.
Proof.
  unfold is_valid_group. rewrite bool_decide_eq_true, <-NoDup_filter_nonzero.
  split; [intros Heq; by apply size_list_to_set_NoDup|].
  intros Hnd. symmetry. by apply size_list_to_set.
Qed.

(** A duplicate found by position in a list. *)
Lemma duplicate_dec (l : list Z) :
  (∀ i j v, l !! i = Some v → l !! j = Some v → v ≠ 0%Z → i = j) ∨
  (∃ i j v, i ≠ j ∧ l !! i = Some v ∧ l !! j = Some v ∧ v ≠ 0%Z).
Proof.
  induction l as [|x l IH].
  { left. intros i j v Hi. by rewrite lookup_nil in Hi. }
  destruct IH as [IH|(i & j & v & Hne & Hi & Hj & Hv)].
  2:{ right. exists (S i), (S j), v. split_and!; [lia|done..]. }
  destruct (decide (x ≠ 0%Z ∧ x ∈ l)) as [[Hx [j Hj]%list_elem_of_lookup]|Hx].
  { right. exists 0, (S j), x. split_and!; [lia|done..]. }
  left. intros [|i] [|j] v Hi Hj Hv; simpl in *.
  - done.
  - injection Hi as ->. destruct Hx. split; [done|].
    apply list_elem_of_lookup. eauto.
  - injection Hj as ->. destruct Hx. split; [done|].
    apply list_elem_of_lookup. eauto.
  - f_equal. by apply (IH i j v).
Qed.

Lemma is_valid_group_cells (g : Grid) (cs : list (nat * nat)) :
  NoDup cs →
  (is_valid_group (cell_val g <$> cs) = true ↔ ¬ group_conflict g cs) ∧
  (is_valid_group (cell_val g <$> cs) = false ↔ group_conflict g cs).
Proof.
  intros Hnd.
  assert (is_valid_group (cell_val g <$> cs) = true → ¬ group_conflict g cs) as H1.
  { rewrite is_valid_group_true.
    intros Hok (x & y & [i Hi]%list_elem_of_lookup & [j Hj]%list_elem_of_lookup
                & Hne & Heq & Hv).
    apply Hne. assert (i = j) as ->; [|congruence].
    apply (Hok i j (cell_val g x)); [| |done]; rewrite list_lookup_fmap.
    - by rewrite Hi.
    - rewrite Hj. simpl. by rewrite Heq. }
  assert (is_valid_group (cell_val g <$> cs) ≠ true → group_conflict g cs) as H2.
  { rewrite is_valid_group_true. intros Hnot.
    destruct (duplicate_dec (cell_val g <$> cs))
      as [Hok|(i & j & v & Hne & Hi & Hj & Hv)]; [done|].
    rewrite list_lookup_fmap in Hi, Hj.
    destruct (cs !! i) as [x|] eqn:Hx; [|done].
    destruct (cs !! j) as [y|] eqn:Hy; [|done].
    simpl in Hi, Hj. injection Hi as Hi. injection Hj as Hj.
    exists x, y. split_and!.
    - apply list_elem_of_lookup. eauto.
    - apply list_elem_of_lookup. eauto.
    - intros ->. apply Hne. by apply (NoDup_lookup cs i j y).
    - congruence.
    - congruence. }
  split; split; try done.
  - intros Hnc. destruct (is_valid_group (cell_val g <$> cs)) eqn:Hv; [done|].
    destruct Hnc. by apply H2.
  - intros Hf. apply H2. by rewrite Hf.
  - intros Hc. destruct (is_valid_group (cell_val g <$> cs)) eqn:Hv; [|done].
    by destruct H1.
Qed.

Lemma for_each_ext {A} (f f' : A → res ()) (xs : list A) :
  (∀ x, x ∈ xs → f x = f' x) → for_each f xs = for_each f' xs.
Proof.
  induction xs as [|x xs IH]; intros Heq; [done|]. cbn [for_each].
  rewrite (Heq x) by left. rewrite IH; [done|]. intros y Hy. apply Heq. by right.
Qed.

Lemma for_each_check_cons {A} (test : A → bool) (err : A → exn) (x : A)
    (xs : list A) :
  for_each (check test err) (x :: xs) =
  if test x then for_each (check test err) xs else Raise (err x).
Proof.
  cbn [for_each].
  change (check test err x) with (if test x then Ok () else Raise (err x)).
  by destruct (test x).
Qed.

Lemma for_each_check {A} (test : A → bool) (err : A → exn) (xs : list A) :
  (for_each (check test err) xs = Ok () ∧ ∀ x, x ∈ xs → test x = true) ∨
  (∃ pre x post, xs = pre ++ x :: post ∧ (∀ y, y ∈ pre → test y = true) ∧
     test x = false ∧ for_each (check test err) xs = Raise (err x)).
Proof.
  induction xs as [|x xs IH].
  { left. split; [done|]. intros x Hx. by apply elem_of_nil in Hx. }
  rewrite for_each_check_cons. destruct (test x) eqn:Hx.
  - destruct IH as [[Hrun Hall]|(pre & y & post & -> & Hpre & Hy & Hrun)].
    + left. split; [done|]. intros y [->|Hy]%elem_of_cons; auto.
    + right. exists (x :: pre), y, post. split_and!; [done| |done..].
      intros z [->|Hz]%elem_of_cons; auto.
  - right. exists [], x, xs. split_and!; [done| |done..].
    intros y Hy. by apply elem_of_nil in Hy.
Qed.

Lemma read_cells_wf (g : Grid) (cs : list (nat * nat)) :
  wf g → (∀ r c, (r, c) ∈ cs → r < 9 ∧ c < 9) →
  read_cells g cs = Ok (cell_val g <$> cs).
Proof.
  intros Hwf. unfold read_cells.
  induction cs as [|[r c] cs IH]; intros Hcs; [done|]. cbn [mapM].
  destruct (Hcs r c) as [Hr Hc]; [left|].
  rewrite get_cell_wf by done. simpl_res. rewrite IH; [done|].
  intros r' c' Hin. apply Hcs. by right.
Qed.

Lemma get_row_cells (g : Grid) (r : nat) :
  wf g → r < 9 → get_row g r = Ok (cell_val g <$> cells [r] (range 0 9)).
Proof.
  intros Hwf Hr. destruct (get_row_wf g r Hwf Hr) as (row & -> & Hrow & Hlen).
  f_equal. unfold cell_val, val. simpl. rewrite Hrow. simpl.
  do 9 (destruct row as [|? row]; [done|]). by destruct row.
Qed.

Lemma validate_grid_wf (g : Grid) :
  wf g →
  validate_grid g =
    (_ ← range_checks g; _ ← row_checks g; _ ← column_checks g; box_checks g).
Proof.
  intros Hwf. unfold validate_grid. fold all_cells.
  apply bind_ext; [|intros _; apply bind_ext; [|intros _; apply bind_ext; [|intros _]]].
  - apply for_each_ext. intros [r c] [Hr Hc]%elem_of_all_cells. simpl.
    by rewrite get_cell_wf.
  - apply for_each_ext. intros r Hr%elem_of_range.
    rewrite get_row_cells by (done || lia). done.
  - apply for_each_ext. intros c Hc%elem_of_range. rewrite read_cells_wf; [done..|].
    intros r' c' [Hr' ->%list_elem_of_singleton]%elem_of_cells.
    apply elem_of_range in Hr'. lia.
  - apply for_each_ext. intros [br bc] [Hbr Hbc]%elem_of_cells. simpl.
    rewrite read_cells_wf; [done..|].
    intros r' c' [Hr' Hc']%elem_of_cells.
    apply elem_of_range in Hr', Hc'.
    assert (br ≤ 6 ∧ bc ≤ 6); [|lia].
    repeat (apply elem_of_cons in Hbr as [->|Hbr]); try (by apply elem_of_nil in Hbr);
    repeat (apply elem_of_cons in Hbc as [->|Hbc]); try (by apply elem_of_nil in Hbc);
    lia.
Qed.

Lemma conflict_free_iff (g : Grid) : conflict_free g ↔ ¬ conflict g.
Proof.
  split.
  - intros Hcf (r & c & r' & c' & Hr & Hc & Hp & H0 & Heq). by apply (Hcf r c r' c').
  - intros Hnc r c r' c' Hr Hc Hp H0 Heq. apply Hnc. by exists r, c, r', c'.
Qed.

Lemma box_origin (n : nat) : n < 9 → n / 3 * 3 ∈ [0; 3; 6].
Proof.
  intros Hn. div3 n.
  assert (n / 3 = 0 ∨ n / 3 = 1 ∨ n / 3 = 2) as [-> | [-> | ->]] by lia;
    simpl; rewrite !elem_of_cons; auto.
Qed.

Lemma box_origin_inv (b n : nat) : b ∈ [0; 3; 6] → n ∈ range b (b + 3) → n < 9 ∧ n / 3 * 3 = b.
Proof.
  rewrite !elem_of_cons, elem_of_nil, elem_of_range. intros Hb Hn. div3 n. lia.
Qed.

Lemma conflict_groups (g : Grid) :
  conflict g ↔
  (∃ r, r < 9 ∧ group_conflict g (cells [r] (range 0 9))) ∨
  (∃ c, c < 9 ∧ group_conflict g (cells (range 0 9) [c])) ∨
  (∃ br bc, (br, bc) ∈ cells [0; 3; 6] [0; 3; 6] ∧
            group_conflict g (cells (range br (br + 3)) (range bc (bc + 3)))).
Proof.
  split.
  - intros (r & c & r' & c' & Hr & Hc & [(Hr' & Hc' & Hu) Hne] & H0 & Heq).
    destruct Hu as [-> | [-> | [Hbr Hbc]]].
    + left. exists r. split; [done|]. exists (r, c), (r, c').
      rewrite !elem_of_cells, !list_elem_of_singleton, !elem_of_range.
      split_and!; solve [done | lia | congruence | by symmetry].
    + right. left. exists c. split; [done|]. exists (r, c), (r', c).
      rewrite !elem_of_cells, !list_elem_of_singleton, !elem_of_range.
      split_and!; solve [done | lia | congruence | by symmetry].
    + right. right. exists (r / 3 * 3), (c / 3 * 3). split.
      { apply elem_of_cells. split; by apply box_origin. }
      exists (r, c), (r', c'). rewrite !elem_of_cells, !box_range.
      split_and!; solve [done | lia | congruence | by symmetry].
  - intros [(r & Hr & Hg) | [(c & Hc & Hg) | (br & bc & Hb & Hg)]];
      destruct Hg as ([r1 c1] & [r2 c2] & H1 & H2 & Hne & Heq & H0);
      unfold cell_val in Heq, H0; simpl in Heq, H0;
      apply elem_of_cells in H1 as [Hr1 Hc1], H2 as [Hr2 Hc2].
    + apply list_elem_of_singleton in Hr1 as ->, Hr2 as ->.
      apply elem_of_range in Hc1, Hc2.
      exists r, c1, r, c2. split_and!; [done|lia| |done|done].
      split; [unfold unit_of; lia|congruence].
    + apply list_elem_of_singleton in Hc1 as ->, Hc2 as ->.
      apply elem_of_range in Hr1, Hr2.
      exists r1, c, r2, c. split_and!; [lia|done| |done|done].
      split; [unfold unit_of; lia|congruence].
    + apply elem_of_cells in Hb as [Hbr Hbc].
      destruct (box_origin_inv br r1 Hbr Hr1) as [? Hb1].
      destruct (box_origin_inv br r2 Hbr Hr2) as [? Hb2].
      destruct (box_origin_inv bc c1 Hbc Hc1) as [? Hd1].
      destruct (box_origin_inv bc c2 Hbc Hc2) as [? Hd2].
      exists r1, c1, r2, c2. split_and!; [done|done| |done|done].
      split; [|congruence]. unfold unit_of. split_and!; [done..|]. lia.
Qed.

Lemma NoDup_cells (rs cs : list nat) : NoDup rs → NoDup cs → NoDup (cells rs cs).
Proof.
  intros Hrs Hcs. unfold cells. apply NoDup_bind; [| |done].
  - intros r1 r2 [r c] _ _ (? & [= -> _] & _)%list_elem_of_fmap
                          (? & [= -> _] & _)%list_elem_of_fmap. done.
  - intros r _. apply NoDup_fmap_2_strong; [|done]. by intros c1 c2 _ _ [= ->].
Qed.

Lemma NoDup_range (a b : nat) : NoDup (range a b).
Proof. apply NoDup_seq. Qed.

Lemma NoDup_all_cells : NoDup all_cells.
Proof. apply NoDup_cells; apply NoDup_range. Qed.

Lemma all_cells_lookup (r c : nat) :
  r < 9 → c < 9 → all_cells !! (9 * r + c) = Some (r, c).
Proof.
  intros Hr Hc.
  do 9 (destruct r as [|r]; [do 9 (destruct c as [|c]; [reflexivity|]); lia|]).
  lia.
Qed.

(** The cells visited before [(r, c)] in row-major order. *)
Lemma all_cells_before (pre post : list (nat * nat)) (r c r' c' : nat) :
  all_cells = pre ++ (r, c) :: post → r' < 9 → c' < 9 →
  r' < r ∨ (r' = r ∧ c' < c) → (r', c') ∈ pre.
Proof.
  intros Hsplit Hr' Hc' Hlt.
  assert (r < 9 ∧ c < 9) as [Hr Hc].
  { apply elem_of_all_cells. rewrite Hsplit, elem_of_app. right. left. }
  assert (length pre = 9 * r + c) as Hlen.
  { apply (NoDup_lookup all_cells _ _ (r, c) NoDup_all_cells).
    - rewrite Hsplit. apply list_lookup_middle. done.
    - by apply all_cells_lookup. }
  pose proof (all_cells_lookup r' c' Hr' Hc') as Hlook.
  rewrite Hsplit, lookup_app_l in Hlook by lia.
  apply list_elem_of_lookup. eauto.
Qed.

Lemma range_checks_cases (g : Grid) :
  (range_checks g = Ok () ∧ in_range g) ∨
  (∃ r c, r < 9 ∧ c < 9 ∧ ¬ (0 ≤ val g r c ≤ 9)%Z ∧
     (∀ r' c', r' < 9 → c' < 9 → r' < r ∨ (r' = r ∧ c' < c) →
        (0 ≤ val g r' c' ≤ 9)%Z) ∧
     range_checks g
       = Raise (ValueError (Invalid_value_at (val g r c) (r + 1) (c + 1)))).
Proof.
  unfold range_checks.
  match goal with |- context [for_each (check ?t ?e) all_cells] =>
    destruct (for_each_check t e all_cells)
      as [[-> Hrange]|(pre & [r c] & post & Hsplit & Hpre & Hbad & ->)] end.
  - left. split; [done|]. intros r c Hr Hc. specialize (Hrange (r, c)).
    rewrite bool_decide_eq_true in Hrange. by apply Hrange, elem_of_all_cells.
  - right. exists r, c.
    assert (r < 9 ∧ c < 9) as [Hr Hc].
    { apply elem_of_all_cells. rewrite Hsplit, elem_of_app. right. left. }
    apply bool_decide_eq_false in Hbad.
    split_and!; [done..| |done].
    intros r' c' Hr' Hc' Hlt.
    specialize (Hpre (r', c') (all_cells_before pre post r c r' c' Hsplit Hr' Hc' Hlt)).
    by apply bool_decide_eq_true in Hpre.
Qed.

Lemma row_checks_cases (g : Grid) :
  (row_checks g = Ok () ∧ ∀ r, r < 9 → ¬ group_conflict g (cells [r] (range 0 9))) ∨
  (∃ r, r < 9 ∧ group_conflict g (cells [r] (range 0 9)) ∧
     row_checks g = Raise (ValueError (Duplicate_in_row (r + 1)))).
Proof.
  assert (∀ r, NoDup (cells [r] (range 0 9))) as Hnd.
  { intros r. apply NoDup_cells; [apply NoDup_singleton|apply NoDup_range]. }
  unfold row_checks.
  match goal with |- context [for_each (check ?t ?e) ?xs] =>
    destruct (for_each_check t e xs)
      as [[-> Hall]|(pre & r & post & Hsplit & _ & Hbad & ->)] end.
  - left. split; [done|]. intros r Hr. apply is_valid_group_cells; [done|].
    apply Hall, elem_of_range. lia.
  - right. exists r.
    assert (r ∈ range 0 9) as Hr%elem_of_range.
    { rewrite Hsplit, elem_of_app. right. left. }
    split_and!; [lia| |done]. by apply is_valid_group_cells in Hbad.
Qed.

Lemma column_checks_cases (g : Grid) :
  (column_checks g = Ok () ∧
   ∀ c, c < 9 → ¬ group_conflict g (cells (range 0 9) [c])) ∨
  (∃ c, c < 9 ∧ group_conflict g (cells (range 0 9) [c]) ∧
     column_checks g = Raise (ValueError (Duplicate_in_column (c + 1)))).
Proof.
  assert (∀ c, NoDup (cells (range 0 9) [c])) as Hnd.
  { intros c. apply NoDup_cells; [apply NoDup_range|apply NoDup_singleton]. }
  unfold column_checks.
  match goal with |- context [for_each (check ?t ?e) ?xs] =>
    destruct (for_each_check t e xs)
      as [[-> Hall]|(pre & c & post & Hsplit & _ & Hbad & ->)] end.
  - left. split; [done|]. intros c Hc. apply is_valid_group_cells; [done|].
    apply Hall, elem_of_range. lia.
  - right. exists c.
    assert (c ∈ range 0 9) as Hc%elem_of_range.
    { rewrite Hsplit, elem_of_app. right. left. }
    split_and!; [lia| |done]. by apply is_valid_group_cells in Hbad.
Qed.

Lemma box_checks_cases (g : Grid) :
  (box_checks g = Ok () ∧
   ∀ br bc, (br, bc) ∈ cells [0; 3; 6] [0; 3; 6] →
     ¬ group_conflict g (cells (range br (br + 3)) (range bc (bc + 3)))) ∨
  (∃ br bc, (br, bc) ∈ cells [0; 3; 6] [0; 3; 6] ∧
     group_conflict g (cells (range br (br + 3)) (range bc (bc + 3))) ∧
     box_checks g = Raise (ValueError (Duplicate_in_box (br + 1) (bc + 1)))).
Proof.
  assert (∀ br bc, NoDup (cells (range br (br + 3)) (range bc (bc + 3)))) as Hnd.
  { intros br bc. apply NoDup_cells; apply NoDup_range. }
  unfold box_checks.
  match goal with |- context [for_each (check ?t ?e) ?xs] =>
    destruct (for_each_check t e xs)
      as [[-> Hall]|(pre & [br bc] & post & Hsplit & _ & Hbad & ->)] end.
  - left. split; [done|]. intros br bc Hb.
    apply (is_valid_group_cells g _ (Hnd br bc)). by apply (Hall (br, bc)).
  - right. exists br, bc. split_and!; [| |done].
    + rewrite Hsplit, elem_of_app. right. left.
    + by apply (is_valid_group_cells g _ (Hnd br bc)) in Hbad.
Qed.

(** The five ways a call of [validate_grid] can end. *)
Lemma validate_grid_cases (g : Grid) :
  wf g →
  (validate_grid g = Ok () ∧ in_range g ∧ ¬ conflict g) ∨
  (∃ r c, r < 9 ∧ c < 9 ∧ ¬ (0 ≤ val g r c ≤ 9)%Z ∧
     (∀ r' c', r' < 9 → c' < 9 → r' < r ∨ (r' = r ∧ c' < c) →
        (0 ≤ val g r' c' ≤ 9)%Z) ∧
     validate_grid g
       = Raise (ValueError (Invalid_value_at (val g r c) (r + 1) (c + 1)))) ∨
  (in_range g ∧
   ((∃ r, r < 9 ∧ group_conflict g (cells [r] (range 0 9)) ∧
      validate_grid g = Raise (ValueError (Duplicate_in_row (r + 1)))) ∨
    (∃ c, c < 9 ∧ group_conflict g (cells (range 0 9) [c]) ∧
      validate_grid g = Raise (ValueError (Duplicate_in_column (c + 1)))) ∨
    (∃ br bc, (br, bc) ∈ cells [0; 3; 6] [0; 3; 6] ∧
      group_conflict g (cells (range br (br + 3)) (range bc (bc + 3))) ∧
      validate_grid g = Raise (ValueError (Duplicate_in_box (br + 1) (bc + 1)))))).
Proof.
  intros Hwf. rewrite validate_grid_wf by done.
  destruct (range_checks_cases g) as [[-> Hin]|(r & c & Hr & Hc & Hbad & Hfirst & ->)];
    simpl_res.
  2:{ right. left. by exists r, c. }
  destruct (row_checks_cases g) as [[-> Hrows]|(r & Hr & Hbad & ->)]; simpl_res.
  2:{ right. right. split; [done|]. left. by exists r. }
  destruct (column_checks_cases g) as [[-> Hcols]|(c & Hc & Hbad & ->)]; simpl_res.
  2:{ right. right. split; [done|]. right. left. by exists c. }
  destruct (box_checks_cases g) as [[-> Hboxes]|(br & bc & Hb & Hbad & ->)].
  2:{ right. right. split; [done|]. right. right. by exists br, bc. }
  left. split_and!; [done..|]. rewrite conflict_groups.
  intros [(r & Hr & Hg) | [(c & Hc & Hg) | (br & bc & Hb & Hg)]].
  - by apply (Hrows r).
  - by apply (Hcols c).
  - by apply (Hboxes br bc).
Qed.

(** * Main theorems *)

(** C3: when [solve_sudoku] returns [False] the grid is cell for cell the
    grid it was given (and the grid has no completion); when it returns
    [True] the grid is complete, keeps every filled cell of the input, is a
    completion of the input, and is free of conflicts whenever the input
    was. *)
Theorem solve_sudoku_restores_or_completes (fuel : nat) (g : Grid) (attempts : Z) :
  wf g → zeros g < fuel →
  ∃ b g' attempts',
    solve_sudoku fuel g attempts = Ok (b, g', attempts') ∧
    (b = false → g' = g ∧ ∀ s, ¬ completion g s) ∧
    (b = true →
       wf g' ∧ complete g' ∧
       (∀ r c, r < 9 → c < 9 → val g r c ≠ 0%Z → val g' r c = val g r c) ∧
       completion g g' ∧ (conflict_free g → conflict_free g')).
Proof.
  intros Hwf Hfuel.
  destruct (solve_sudoku_spec fuel g attempts Hwf Hfuel)
    as (b & g' & a' & Hrun & _ & Hspec).
  exists b, g', a'. split; [done|]. destruct b; simpl in Hspec.
  - split; [done|]. intros _. split_and!.
    + by eapply completion_wf.
    + intros r c Hr Hc H0. by apply (completion_complete g g' r c).
    + intros r c Hr Hc H0. by apply completion_extends.
    + done.
    + intros Hcf. by apply (completion_conflict_free g).
  - split; [done|]. done.
Qed.

Lemma solve_sudoku_restores_or_completes_witness :
  ∃ b g' attempts',
    solve_sudoku 82 stuck_grid 0 = Ok (b, g', attempts') ∧
    (b = false → g' = stuck_grid ∧ ∀ s, ¬ completion stuck_grid s) ∧
    (b = true →
       wf g' ∧ complete g' ∧
       (∀ r c, r < 9 → c < 9 → val stuck_grid r c ≠ 0%Z →
          val g' r c = val stuck_grid r c) ∧
       completion stuck_grid g' ∧ (conflict_free stuck_grid → conflict_free g')).
Proof.
  apply (solve_sudoku_restores_or_completes 82 stuck_grid 0).
  - wf_compute.
  - vm_compute. lia.
Defined.

Example solve_sudoku_stuck :
  solve_sudoku 82 stuck_grid 0 = Ok (false, stuck_grid, 9%Z).
Proof. vm_compute. reflexivity. Qed.

Example solve_sudoku_solved :
  solve_sudoku 82 first_grid 0 = Ok (true, first_grid, 0%Z).
Proof. vm_compute. reflexivity. Qed.

Example solve_sudoku_order :
  solve_sudoku 82 order_grid 0 = Ok (true, order_solution, 25%Z).
Proof. vm_compute. reflexivity. Qed.

(** C10: [count_solutions] returns with the grid exactly as it received
    it, whatever the limit, early returns included. *)
Theorem count_solutions_restores (fuel : nat) (g : Grid) (limit : Z) :
  wf g → zeros g < fuel → ∃ n, count_solutions fuel g limit = Ok (n, g).
Proof.
  intros Hwf Hfuel.
  destruct (count_solutions_spec fuel g limit Hwf Hfuel) as (n & Hrun & _).
  by exists n.
Qed.

Lemma count_solutions_restores_witness :
  ∃ n, count_solutions 82 three_grid 2 = Ok (n, three_grid).
Proof.
  apply (count_solutions_restores 82 three_grid 2).
  - wf_compute.
  - vm_compute. lia.
Defined.

(** C4: on a nine by nine grid [validate_grid] returns normally exactly
    when every value is between 0 and 9 and no two peers hold the same
    non-zero value; it raises exactly when some value is out of range or
    two peers conflict; an out-of-range value is reported before any
    duplicate, with the value and the one-based position of the first such
    cell in row-major order; a duplicate is reported with the one-based
    row, column or box origin of a group that contains one. *)
Theorem validate_grid_spec (g : Grid) :
  wf g →
  (validate_grid g = Ok () ↔ in_range g ∧ conflict_free g) ∧
  ((∃ e, validate_grid g = Raise e) ↔
     (∃ r c, r < 9 ∧ c < 9 ∧ ¬ (0 ≤ val g r c ≤ 9)%Z) ∨ conflict g) ∧
  ((∃ r c, r < 9 ∧ c < 9 ∧ ¬ (0 ≤ val g r c ≤ 9)%Z) →
     ∃ r c, r < 9 ∧ c < 9 ∧ ¬ (0 ≤ val g r c ≤ 9)%Z ∧
       (∀ r' c', r' < 9 → c' < 9 → r' < r ∨ (r' = r ∧ c' < c) →
          (0 ≤ val g r' c' ≤ 9)%Z) ∧
       validate_grid g
         = Raise (ValueError (Invalid_value_at (val g r c) (r + 1) (c + 1)))) ∧
  (in_range g → conflict g →
     (∃ r, r < 9 ∧ group_conflict g (cells [r] (range 0 9)) ∧
        validate_grid g = Raise (ValueError (Duplicate_in_row (r + 1)))) ∨
     (∃ c, c < 9 ∧ group_conflict g (cells (range 0 9) [c]) ∧
        validate_grid g = Raise (ValueError (Duplicate_in_column (c + 1)))) ∨
     (∃ br bc, (br, bc) ∈ cells [0; 3; 6] [0; 3; 6] ∧
        group_conflict g (cells (range br (br + 3)) (range bc (bc + 3))) ∧
        validate_grid g
          = Raise (ValueError (Duplicate_in_box (br + 1) (bc + 1))))).
Proof.
  intros Hwf.
  destruct (validate_grid_cases g Hwf)
    as [(Hrun & Hin & Hnc) | [(r & c & Hr & Hc & Hbad & Hfirst & Hrun) | [Hin Hdup]]].
  - split_and!.
    + split; [intros _; split; [done|by apply conflict_free_iff]|done].
    + rewrite Hrun. split; [by intros [e ?]|].
      intros [(r & c & Hr & Hc & Hbad) | Hc]; [|done]. destruct Hbad. by apply Hin.
    + intros (r & c & Hr & Hc & Hbad). destruct Hbad. by apply Hin.
    + intros _ Hc. done.
  - split_and!.
    + rewrite Hrun. split; [done|]. intros [Hin _]. destruct Hbad. by apply Hin.
    + split; [|by eauto]. intros _. left. by exists r, c.
    + intros _. by exists r, c.
    + intros Hin. destruct Hbad. by apply Hin.
  - assert (conflict g ∧ ∃ e, validate_grid g = Raise e) as [Hc [e He]].
    { rewrite conflict_groups.
      destruct Hdup as [(r & Hr & Hg & Hrun) | [(c & Hc & Hg & Hrun)
                                               | (br & bc & Hb & Hg & Hrun)]];
        (split; [|by eauto]).
      - left. by exists r.
      - right. left. by exists c.
      - right. right. by exists br, bc. }
    split_and!.
    + rewrite He. split; [done|]. intros [_ Hcf]. by apply conflict_free_iff in Hcf.
    + split; [by right|by eauto].
    + intros (r & c & Hr & Hc' & Hbad). destruct Hbad. by apply Hin.
    + intros _ _. done.
Qed.

Lemma validate_grid_spec_witness :
  validate_grid first_grid = Ok () ↔ in_range first_grid ∧ conflict_free first_grid.
Proof.
  apply (validate_grid_spec first_grid). wf_compute.
Defined.

Example validate_grid_solved : validate_grid first_grid = Ok ().
Proof. vm_compute. reflexivity. Qed.

Example validate_grid_twin :
  validate_grid twin_grid = Raise (ValueError (Duplicate_in_row 1)).
Proof. vm_compute. reflexivity. Qed.

Example validate_grid_ten :
  validate_grid ten_grid = Raise (ValueError (Invalid_value_at 10 1 3)).
Proof. vm_compute. reflexivity. Qed.

Lemma toy_sample_perm (seed : nat) : (toy_sample seed).1 ≡ₚ rangeZ 1 10.
Proof. unfold toy_sample. simpl. destruct (Nat.even seed); [done|apply reverse_Permutation]. Qed.

Lemma toy_shuffle_perm (cs : list (nat * nat)) (seed : nat) :
  (toy_shuffle cs seed).1 ≡ₚ cs.
Proof. unfold toy_shuffle. simpl. destruct (Nat.even seed); [done|apply reverse_Permutation]. Qed.

(** C9: on a nine by nine grid each of the three searches returns as soon
    as the depth allowed exceeds the number of empty cells, which is at most
    81; a placement at an empty cell leaves one empty cell fewer. *)
Theorem searches_terminate {Rng : Type} (sample9 : Rng → list Z * Rng)
    (fuel : nat) (g : Grid) :
  (∀ rng, (sample9 rng).1 ≡ₚ rangeZ 1 10) → wf g → zeros g < fuel →
  zeros g ≤ 81 ∧
  (∀ r c d, r < 9 → c < 9 → val g r c = 0%Z → digit d →
     zeros (put g r c d) < zeros g) ∧
  (∀ attempts, ∃ out, solve_sudoku fuel g attempts = Ok out) ∧
  (∀ nodes rng, ∃ out, solve_sudoku_with_stats sample9 fuel g nodes rng = Ok out) ∧
  (∀ limit, ∃ out, count_solutions fuel g limit = Ok out).
Proof.
  intros Hperm Hwf Hfuel. split_and!.
  - apply zeros_le.
  - intros r c d Hr Hc H0 Hd. apply zeros_put; [done..|]. by apply digit_nonzero.
  - intros a. destruct (solve_sudoku_spec fuel g a Hwf Hfuel) as (b & g' & a' & -> & _).
    by eexists.
  - intros n rng.
    destruct (solve_sudoku_with_stats_spec sample9 Hperm fuel g n rng Hwf Hfuel)
      as (b & g' & n' & rng' & -> & _).
    by eexists.
  - intros limit.
    destruct (count_solutions_spec fuel g limit Hwf Hfuel) as (n & -> & _).
    by eexists.
Qed.

Lemma searches_terminate_witness :
  zeros three_grid ≤ 81 ∧
  (∀ r c d, r < 9 → c < 9 → val three_grid r c = 0%Z → digit d →
     zeros (put three_grid r c d) < zeros three_grid) ∧
  (∀ attempts, ∃ out, solve_sudoku 10 three_grid attempts = Ok out) ∧
  (∀ nodes rng, ∃ out,
     solve_sudoku_with_stats toy_sample 10 three_grid nodes rng = Ok out) ∧
  (∀ limit, ∃ out, count_solutions 10 three_grid limit = Ok out).
Proof.
  apply (searches_terminate toy_sample 10 three_grid).
  - exact toy_sample_perm.
  - wf_compute.
  - vm_compute. lia.
Defined.

Lemma count_loop_short_circuit (rec : Grid → res (Z * Grid)) (row col : nat)
    (pre post : list Z) (g : Grid) (limit acc n : Z) (g' : Grid) :
  (acc < limit)%Z →
  count_loop rec row col pre g limit acc = Ok (n, g') → (limit ≤ n)%Z →
  count_loop rec row col (pre ++ post) g limit acc = Ok (n, g').
Proof.
  revert g acc. induction pre as [|d pre IH]; intros g acc Hacc Hrun Hn.
  { injection Hrun as <- <-. lia. }
  rewrite <-app_comm_cons. cbn [count_loop] in Hrun |- *.
  destruct (is_valid_move g row col d) as [[|]| |]; simpl_res; simpl_res_in Hrun;
    [|by apply IH|done..].
  destruct (set_cell g row col d) as [g1| |]; simpl_res; simpl_res_in Hrun;
    [|done..].
  destruct (rec g1) as [[m g2]| |]; simpl_res; simpl_res_in Hrun; [|done..].
  destruct (set_cell g2 row col 0) as [g3| |]; simpl_res; simpl_res_in Hrun;
    [|done..].
  case_decide; [done|]. apply IH; [lia|done..].
Qed.

(** C2, as the code has it: for a limit of at least 1, [count_solutions]
    leaves the grid as it was and returns a number [n] of completions with
    [min n limit = min N limit], where [N] is the number of all completions
    of the grid; [n] never exceeds [N], is at most
    [1 + (limit - 1) * (number of empty cells)], and can be above the limit.
    Once the running count of a call has reached the limit no further digit
    is tried in that call: the digits that follow, and the recursive calls
    they would need, have no influence on the result. *)
Theorem count_solutions_up_to_limit (fuel : nat) (g : Grid) (limit : Z) :
  wf g → (1 ≤ limit)%Z → zeros g < fuel →
  ∃ n all,
    count_solutions fuel g limit = Ok (n, g) ∧
    NoDup all ∧ (∀ s, s ∈ all ↔ completion g s) ∧
    Z.min n limit = Z.min (Z.of_nat (length all)) limit ∧
    (0 ≤ n ≤ Z.of_nat (length all))%Z ∧
    (n ≤ 1 + (limit - 1) * Z.of_nat (zeros g))%Z ∧
    (∀ rec row col pre post g0 acc m g',
       (acc < limit)%Z →
       count_loop rec row col pre g0 limit acc = Ok (m, g') → (limit ≤ m)%Z →
       count_loop rec row col (pre ++ post) g0 limit acc = Ok (m, g')).
Proof.
  intros Hwf Hlimit Hfuel.
  destruct (count_solutions_spec fuel g limit Hwf Hfuel)
    as (n & Hrun & Hn & Hexact & Hbound).
  exists n, (completions fuel g). split_and!.
  - done.
  - by apply NoDup_completions.
  - intros s. by apply elem_of_completions.
  - lia.
  - lia.
  - lia.
  - by auto.
  - intros rec row col pre post g0 acc m g'. apply count_loop_short_circuit.
Qed.

Lemma count_solutions_up_to_limit_witness :
  ∃ n all,
    count_solutions 82 three_grid 2 = Ok (n, three_grid) ∧
    NoDup all ∧ (∀ s, s ∈ all ↔ completion three_grid s) ∧
    Z.min n 2 = Z.min (Z.of_nat (length all)) 2 ∧
    (0 ≤ n ≤ Z.of_nat (length all))%Z ∧
    (n ≤ 1 + (2 - 1) * Z.of_nat (zeros three_grid))%Z ∧
    (∀ rec row col pre post g0 acc m g',
       (acc < 2)%Z →
       count_loop rec row col pre g0 2 acc = Ok (m, g') → (2 ≤ m)%Z →
       count_loop rec row col (pre ++ post) g0 2 acc = Ok (m, g')).
Proof.
  apply (count_solutions_up_to_limit 82 three_grid 2).
  - wf_compute.
  - lia.
  - vm_compute. lia.
Defined.

(** C2, as stated, fails: with limit 2 the call on [three_grid] returns 3.
    Digit 6 at cell (0,3) leads to one completion, then digit 7 leads to
    two, and the running count 1 + 2 is returned as it is. *)
Lemma count_solutions_exceeds_limit :
  count_solutions 82 three_grid 2 = Ok (3%Z, three_grid) ∧
  ¬ (∀ fuel g limit n g',
       wf g → (1 ≤ limit)%Z → count_solutions fuel g limit = Ok (n, g') →
       (n ≤ limit)%Z).
Proof.
  assert (count_solutions 82 three_grid 2 = Ok (3%Z, three_grid)) as Hrun.
  { vm_compute. reflexivity. }
  split; [done|]. intros Hcap.
  assert (wf three_grid) as Hwf by wf_compute.
  specialize (Hcap 82 three_grid 2%Z 3%Z three_grid Hwf ltac:(lia) Hrun). lia.
Qed.

Lemma validate_grid_solved_grid (g : Grid) : solved g → validate_grid g = Ok ().
Proof.
  intros (Hwf & Hd & Hcf).
  destruct (validate_grid_cases g Hwf)
    as [(Hrun & _) | [(r & c & Hr & Hc & Hbad & _) | [_ Hdup]]]; [done| |].
  - destruct Hbad. specialize (Hd r c Hr Hc). unfold digit in Hd. lia.
  - exfalso. apply conflict_free_iff in Hcf. apply Hcf, conflict_groups.
    destruct Hdup as [(r & Hr & Hg & _) | [(c & Hc & Hg & _)
                                          | (br & bc & Hb & Hg & _)]].
    + left. by exists r.
    + right. left. by exists c.
    + right. right. by exists br, bc.
Qed.

(** C7: whatever the random source draws, [generate_full_grid] returns a
    nine by nine grid in which every cell holds a digit between 1 and 9
    (so no cell is 0) and no digit occurs twice in a row, a column or a
    box; [validate_grid] accepts it. *)
Theorem generate_full_grid_solved {Rng : Type} (sample9 : Rng → list Z * Rng)
    (fuel : nat) (rng : Rng) :
  (∀ rng, (sample9 rng).1 ≡ₚ rangeZ 1 10) → 81 < fuel →
  ∃ g rng',
    generate_full_grid sample9 fuel rng = Ok (g, rng') ∧
    wf g ∧ complete g ∧ (∀ r c, r < 9 → c < 9 → digit (val g r c)) ∧
    conflict_free g ∧ validate_grid g = Ok ().
Proof.
  intros Hperm Hfuel.
  destruct (generate_full_grid_spec sample9 Hperm fuel rng Hfuel)
    as (g & rng' & Hrun & Hsolved).
  exists g, rng'. pose proof Hsolved as (Hwf & Hd & Hcf).
  split_and!; [done|done|by apply solved_complete|done|done|].
  by apply validate_grid_solved_grid.
Qed.

Lemma generate_full_grid_solved_witness :
  ∃ g rng',
    generate_full_grid toy_sample 82 1 = Ok (g, rng') ∧
    wf g ∧ complete g ∧ (∀ r c, r < 9 → c < 9 → digit (val g r c)) ∧
    conflict_free g ∧ validate_grid g = Ok ().
Proof.
  apply (generate_full_grid_solved toy_sample 82 1).
  - exact toy_sample_perm.
  - lia.
Defined.

(** C1: the reducing loop, started on any complete nine by nine grid with
    any clue target and any visiting order, and [generate_puzzle_base], for
    every difficulty of the table and whatever the random source draws,
    return a puzzle on which [count_solutions] with limit 2 returns exactly
    1, and that has exactly one completion. *)
Theorem reduced_puzzle_counts_one {Rng : Type} (sample9 : Rng → list Z * Rng)
    (shuffle : list (nat * nat) → Rng → list (nat * nat) * Rng) (fuel : nat) :
  (∀ rng, (sample9 rng).1 ≡ₚ rangeZ 1 10) →
  (∀ cs rng, (shuffle cs rng).1 ≡ₚ cs) → 81 < fuel →
  (∀ full clues cs,
     wf full → complete full → (∀ r c, (r, c) ∈ cs → r < 9 ∧ c < 9) →
     ∃ puzzle, reduce_loop fuel clues cs full 0 = Ok puzzle ∧
               count_solutions fuel puzzle 2 = Ok (1%Z, puzzle) ∧
               ∃ s, ∀ s', completion puzzle s' ↔ s' = s) ∧
  (∀ difficulty rng,
     is_Some (DIFFICULTY_CLUES !! difficulty) →
     ∃ puzzle rng',
       generate_puzzle_base sample9 shuffle fuel difficulty rng
         = Ok (puzzle, rng') ∧
       count_solutions fuel puzzle 2 = Ok (1%Z, puzzle) ∧
       ∃ s, ∀ s', completion puzzle s' ↔ s' = s).
Proof.
  intros Hsample Hshuffle Hfuel. split.
  - intros full clues cs Hwf Hfull Hcs.
    destruct (reduce_loop_unique fuel clues cs full Hfuel Hwf Hfull Hcs)
      as (puzzle & Hrun & Hwf' & _ & Hcount).
    exists puzzle. split_and!; [done..|].
    apply (count_solutions_one_unique fuel puzzle); [done| |done].
    pose proof (zeros_le puzzle). lia.
  - intros difficulty rng [clues Hclues].
    destruct (generate_puzzle_base_spec sample9 shuffle Hsample Hshuffle fuel
                difficulty clues rng Hfuel Hclues)
      as (full & rng1 & puzzle & _ & _ & _ & Hrun & Hwf' & _ & Hcount).
    exists puzzle, (shuffle all_cells rng1).2. split_and!; [done..|].
    apply (count_solutions_one_unique fuel puzzle); [done| |done].
    pose proof (zeros_le puzzle). lia.
Qed.

Lemma reduced_puzzle_counts_one_witness :
  (∀ full clues cs,
     wf full → complete full → (∀ r c, (r, c) ∈ cs → r < 9 ∧ c < 9) →
     ∃ puzzle, reduce_loop 82 clues cs full 0 = Ok puzzle ∧
               count_solutions 82 puzzle 2 = Ok (1%Z, puzzle) ∧
               ∃ s, ∀ s', completion puzzle s' ↔ s' = s) ∧
  (∀ difficulty rng,
     is_Some (DIFFICULTY_CLUES !! difficulty) →
     ∃ puzzle rng',
       generate_puzzle_base toy_sample toy_shuffle 82 difficulty rng
         = Ok (puzzle, rng') ∧
       count_solutions 82 puzzle 2 = Ok (1%Z, puzzle) ∧
       ∃ s, ∀ s', completion puzzle s' ↔ s' = s).
Proof.
  apply (reduced_puzzle_counts_one toy_sample toy_shuffle 82).
  - exact toy_sample_perm.
  - exact toy_shuffle_perm.
  - lia.
Defined.

(** The puzzle the reducing loop returns from a solved grid has that grid
    as its unique solution. *)
Lemma reduce_unique_solution (fuel : nat) (clues : Z) (cs : list (nat * nat))
    (full puzzle : Grid) :
  81 < fuel → solved full → (∀ r c, (r, c) ∈ cs → r < 9 ∧ c < 9) →
  reduce_loop fuel clues cs full 0 = Ok puzzle → unique_solution puzzle full.
Proof.
  intros Hfuel Hfull Hcs Hrun. pose proof Hfull as (Hwf & _).
  destruct (reduce_loop_unique fuel clues cs full Hfuel Hwf
              (solved_complete full Hfull) Hcs)
    as (puzzle' & Hrun' & Hwf' & Hcl & Hcount).
  rewrite Hrun in Hrun'. injection Hrun' as <-.
  pose proof (cleared_solution full puzzle Hfull Hcl) as Hsol.
  split; [done|]. intros s' Hs'.
  apply (count_solutions_one_unique fuel puzzle) in Hcount as [s Hs]; [|done|].
  2:{ pose proof (zeros_le puzzle). lia. }
  apply solution_completion in Hs', Hsol. apply Hs in Hs', Hsol. congruence.
Qed.

Lemma solve_sudoku_unique (fuel : nat) (p full : Grid) (attempts : Z) :
  wf p → zeros p < fuel → unique_solution p full →
  ∃ attempts', solve_sudoku fuel p attempts = Ok (true, full, attempts').
Proof.
  intros Hwf Hfuel [Hsol Huniq].
  destruct (solve_sudoku_spec fuel p attempts Hwf Hfuel)
    as (b & g' & a' & Hrun & _ & Hspec).
  destruct b; simpl in Hspec.
  - exists a'. rewrite Hrun. do 3 f_equal.
    apply Huniq. by apply (completion_solution p full).
  - destruct Hspec as [_ Hnone]. destruct (Hnone full).
    by apply solution_completion.
Qed.

Lemma set_cell_Ok (g g' : Grid) (r c : nat) (v : Z) :
  set_cell g r c v = Ok g' → g' = put g r c v.
Proof.
  unfold set_cell, get_row, put. destruct (g !! r) as [row|]; simpl_res; [|done].
  case_decide; [|done]. by intros [= <-].
Qed.

(** The reducing loop returns a nine by nine grid whenever it returns. *)
Lemma reduce_loop_wf (fuel : nat) (clues : Z) (cs : list (nat * nat))
    (p p' : Grid) (removed : Z) :
  wf p → reduce_loop fuel clues cs p removed = Ok p' → wf p'.
Proof.
  revert p removed. induction cs as [|[r c] cs IH]; intros p removed Hwf;
    cbn [reduce_loop].
  { by intros [= <-]. }
  case_decide; [by intros [= <-]|].
  destruct (get_cell p r c) as [backup| |]; simpl_res; [|done..].
  destruct (set_cell p r c 0) as [p1| |] eqn:Hset; simpl_res; [|done..].
  apply set_cell_Ok in Hset as ->.
  destruct (count_solutions fuel (put p r c 0) 2) as [[n t]| |]; simpl_res;
    [|done..].
  case_decide.
  - destruct (set_cell (put p r c 0) r c backup) as [p2| |] eqn:Hset; simpl_res;
      [|done..].
    apply set_cell_Ok in Hset as ->. apply IH. by do 2 apply wf_put.
  - apply IH. by apply wf_put.
Qed.

(** C8: when the puzzle that the reducing loop returns from [full] has
    [full] as its unique solution, [solve_sudoku] on the puzzle returns
    [True] and leaves exactly [full] in the grid. *)
Theorem solve_recovers_full (fuel : nat) (full : Grid) (clues : Z)
    (cs : list (nat * nat)) (puzzle : Grid) (attempts : Z) :
  81 < fuel →
  reduce_loop fuel clues cs full 0 = Ok puzzle →
  unique_solution puzzle full →
  ∃ attempts', solve_sudoku fuel puzzle attempts = Ok (true, full, attempts').
Proof.
  intros Hfuel Hrun Huniq.
  assert (wf full) as Hwf by (by destruct Huniq as [[[? _] _] _]).
  pose proof (reduce_loop_wf fuel clues cs full puzzle 0 Hwf Hrun) as Hwf'.
  apply solve_sudoku_unique; [done| |done].
  pose proof (zeros_le puzzle). lia.
Qed.

Lemma solved_first_grid : solved first_grid.
Proof. apply completion_empty_solved, completion_empty_grid. Qed.

Lemma solve_recovers_full_witness :
  ∃ attempts',
    solve_sudoku 82 (put (put first_grid 0 0 0) 4 4 0) 0
      = Ok (true, first_grid, attempts').
Proof.
  apply (solve_recovers_full 82 first_grid 79 [(0, 0); (4, 4); (8, 8)]).
  - lia.
  - vm_compute. reflexivity.
  - apply (reduce_unique_solution 82 79 [(0, 0); (4, 4); (8, 8)]).
    + lia.
    + exact solved_first_grid.
    + intros r c Hin. rewrite !elem_of_cons, elem_of_nil in Hin.
      destruct Hin as [[= -> ->] | [[= -> ->] | [[= -> ->] | []]]]; lia.
    + vm_compute. reflexivity.
Defined.

(** ** The extreme tier *)

Lemma lookup_extreme : DIFFICULTY_CLUES !! "extreme" = Some 21%Z.
Proof. vm_compute. reflexivity. Qed.

(** The first cell visited by the reducing loop on a solved grid is
    cleared, and stays cleared. *)
Lemma reduce_loop_first_cleared (fuel : nat) (clues : Z) (r c : nat)
    (cs : list (nat * nat)) (full puzzle : Grid) :
  81 < fuel → solved full → (clues < 81)%Z →
  (∀ r' c', (r', c') ∈ (r, c) :: cs → r' < 9 ∧ c' < 9) →
  reduce_loop fuel clues ((r, c) :: cs) full 0 = Ok puzzle →
  val puzzle r c = 0%Z.
Proof.
  intros Hfuel Hfull Hclues Hcs. pose proof Hfull as (Hwf & _).
  destruct (Hcs r c) as [Hr Hc]; [left|].
  cbn [reduce_loop]. rewrite decide_False by lia.
  rewrite get_cell_wf, set_cell_wf by done. simpl_res.
  pose proof (wf_put full r c 0 Hwf) as Hwf1.
  assert (count_solutions fuel (put full r c 0) 2 = Ok (1%Z, put full r c 0)) as ->.
  { apply count_solutions_one_unique; [done| |].
    - pose proof (zeros_le (put full r c 0)). lia.
    - exists full. intros s'. by apply completion_one_cleared. }
  simpl_res. rewrite decide_False by (intros Hne; by apply Hne).
  intros Hrun.
  destruct (reduce_loop_spec fuel clues cs (put full r c 0) (0 + 1) Hfuel Hwf1)
    as (p' & Hrun' & _ & Hcl & _).
  { intros r' c' Hin. apply Hcs. by right. }
  rewrite Hrun in Hrun'. injection Hrun' as <-.
  apply (cleared_zero (put full r c 0)); [done..|]. by apply val_put_eq.
Qed.

Section extreme.
Context {Rng : Type}.
Variable sample9 : Rng → list Z * Rng.
Variable shuffle : list (nat * nat) → Rng → list (nat * nat) * Rng.
Hypothesis sample9_perm : ∀ rng, (sample9 rng).1 ≡ₚ rangeZ 1 10.
Hypothesis shuffle_perm : ∀ cs rng, (shuffle cs rng).1 ≡ₚ cs.

(** Every attempt returns a puzzle with one completion and measures at
    least one node on it. *)
Lemma extreme_attempt_spec (fuel : nat) (rng : Rng) :
  81 < fuel →
  ∃ puzzle nodes rng',
    extreme_attempt sample9 shuffle fuel rng = Ok (puzzle, nodes, rng') ∧
    wf puzzle ∧ count_solutions fuel puzzle 2 = Ok (1%Z, puzzle) ∧
    (1 ≤ nodes)%Z.
Proof.
  intros Hfuel. unfold extreme_attempt.
  destruct (generate_puzzle_base_spec sample9 shuffle sample9_perm shuffle_perm
              fuel "extreme" 21 rng Hfuel lookup_extreme)
    as (full & rng1 & puzzle & _ & Hfull & Hreduce & -> & Hwf & Hcl & Hcount).
  simpl_res.
  assert (zeros puzzle < fuel) as Hz by (pose proof (zeros_le puzzle); lia).
  destruct (solve_sudoku_with_stats_spec sample9 sample9_perm fuel puzzle 0
              (shuffle all_cells rng1).2 Hwf Hz)
    as (b & g' & n' & rng' & -> & _ & Hnodes & Hspec).
  simpl_res. exists puzzle, n', rng'. split_and!; [done..|].
  destruct b.
  2:{ destruct Hspec as [_ Hnone]. destruct (Hnone full).
      by apply solution_completion, cleared_solution. }
  assert (¬ complete puzzle) as Hempty; [|specialize (Hnodes eq_refl Hempty); lia].
  pose proof (shuffle_perm all_cells rng1) as Hperm.
  destruct (shuffle all_cells rng1).1 as [|[r c] cs] eqn:Hcs.
  { apply Permutation_length in Hperm. done. }
  assert (∀ r' c', (r', c') ∈ (r, c) :: cs → r' < 9 ∧ c' < 9) as Hin.
  { intros r' c'. rewrite Hperm. apply elem_of_all_cells. }
  destruct (Hin r c) as [Hr Hc]; [left|].
  intros Hfullp. apply (Hfullp r c Hr Hc).
  by apply (reduce_loop_first_cleared fuel 21 r c cs full).
Qed.

Lemma attempt_at_succ (fuel k : nat) (rng rng1 : Rng) (puzzle : Grid) (nodes : Z) :
  extreme_attempt sample9 shuffle fuel rng = Ok (puzzle, nodes, rng1) →
  attempt_at sample9 shuffle fuel (S k) rng = attempt_at sample9 shuffle fuel k rng1.
Proof. intros Hrun. cbn [attempt_at]. by rewrite Hrun. Qed.

End extreme.

Lemma length_rangeZ (a b : Z) : length (rangeZ a b) = Z.to_nat (b - a).
Proof. unfold rangeZ. by rewrite length_fmap, length_seq. Qed.




(** ** The hardness measurement and the random source *)

Lemma stats_loop_agree {R1 R2 : Type} (same : R1 → R2 → Prop)
    (rec1 : Grid → Z → R1 → res (bool * Grid * Z * R1))
    (rec2 : Grid → Z → R2 → res (bool * Grid * Z * R2))
    (row col : nat) (nums : list Z) :
  (∀ g n s1 s2, same s1 s2 → agree same (rec1 g n s1) (rec2 g n s2)) →
  ∀ g n s1 s2, same s1 s2 →
    agree same (stats_loop rec1 row col nums g n s1)
               (stats_loop rec2 row col nums g n s2).
Proof.
  intros Hrec. induction nums as [|d nums IH]; intros g n s1 s2 Hsame;
    cbn [stats_loop].
  { done. }
  destruct (is_valid_move g row col d) as [[|]| |]; simpl_res; [|by apply IH|done..].
  destruct (set_cell g row col d) as [g1| |]; simpl_res; [|done..].
  specialize (Hrec g1 (n + 1)%Z s1 s2 Hsame). unfold agree in Hrec.
  destruct (rec1 g1 (n + 1)%Z s1) as [[[[b1 g2] n2] r1]| |],
           (rec2 g1 (n + 1)%Z s2) as [[[[b1' g2'] n2'] r1']| |];
    try done; simpl_res.
  destruct Hrec as (<- & <- & <- & Hsame'). destruct b1; [done|].
  destruct (set_cell g2 row col 0) as [g3| |]; simpl_res; [|done..].
  by apply IH.
Qed.

Lemma solve_sudoku_with_stats_agree {R1 R2 : Type} (same : R1 → R2 → Prop)
    (sample1 : R1 → list Z * R1) (sample2 : R2 → list Z * R2) (fuel : nat) :
  (∀ s1 s2, same s1 s2 →
     (sample1 s1).1 = (sample2 s2).1 ∧ same (sample1 s1).2 (sample2 s2).2) →
  ∀ g n s1 s2, same s1 s2 →
    agree same (solve_sudoku_with_stats sample1 fuel g n s1)
               (solve_sudoku_with_stats sample2 fuel g n s2).
Proof.
  intros Hdraw. induction fuel as [|fuel IH]; intros g n s1 s2 Hsame;
    cbn [solve_sudoku_with_stats]; [done|].
  destruct (find_empty g) as [[[row col]|]| |]; simpl_res; [|done..].
  destruct (Hdraw s1 s2 Hsame) as [Hnums Hsame'].
  destruct (sample1 s1) as [nums1 s1'], (sample2 s2) as [nums2 s2'].
  simpl in Hnums, Hsame'. subst nums2.
  by apply stats_loop_agree.
Qed.

Section drawn_order.
Context {Rng : Type} (sample9 : Rng → list Z * Rng).
Hypothesis sample9_perm : ∀ rng, (sample9 rng).1 ≡ₚ rangeZ 1 10.

(** The loop over the drawn digits passes the digits that cannot be placed
    or lead nowhere, and settles on the first one that can be completed. *)
Lemma stats_loop_first (fuel : nat) (g : Grid) (r c : nat) (d : Z)
    (after : list Z) :
  wf g → r < 9 → c < 9 → val g r c = 0%Z → zeros g ≤ fuel →
  digit d → free g r c d → (∃ s, completion (put g r c d) s) →
  ∀ before n rng,
    (∀ d', d' ∈ before →
       digit d' ∧ (¬ free g r c d' ∨ ∀ s, ¬ completion (put g r c d') s)) →
    ∃ s n' rng',
      stats_loop (solve_sudoku_with_stats sample9 fuel) r c
        (before ++ d :: after) g n rng = Ok (true, s, n', rng') ∧
      completion (put g r c d) s ∧ (n + 1 ≤ n')%Z.
Proof.
  intros Hwf Hr Hc H0 Hfuel Hd Hfree [s0 Hs0].
  assert (∀ d' n rng, digit d' →
    ∃ b g' n' rng',
      solve_sudoku_with_stats sample9 fuel (put g r c d') n rng
        = Ok (b, g', n', rng') ∧
      (n ≤ n')%Z ∧ first_solution (put g r c d') b g') as Hrec.
  { intros d' n rng Hd'.
    destruct (solve_sudoku_with_stats_spec sample9 sample9_perm fuel
                (put g r c d') n rng) as (b & g' & n' & rng' & Hrun & Hn & _ & Hb).
    - by apply wf_put.
    - pose proof (zeros_put g r c d' Hwf Hr Hc H0 (digit_nonzero d' Hd')). lia.
    - by exists b, g', n', rng'. }
  induction before as [|d' before IH]; intros n rng Hbefore;
    cbn [app stats_loop].
  - destruct (is_valid_move_wf g r c d Hwf Hr Hc) as (ok & -> & Hok).
    simpl_res. destruct ok; [|by destruct Hok as [_ Hok]; specialize (Hok Hfree)].
    rewrite set_cell_wf by done. simpl_res.
    destruct (Hrec d (n + 1)%Z rng Hd) as (b & g' & n' & rng' & -> & Hn & Hb).
    simpl_res. destruct b; simpl in Hb.
    + by exists g', n', rng'.
    + destruct Hb as [_ Hnone]. by destruct (Hnone s0).
  - destruct (Hbefore d') as [Hd' Hdead]; [left|].
    assert (∀ d'', d'' ∈ before →
              digit d'' ∧ (¬ free g r c d'' ∨
                           ∀ s, ¬ completion (put g r c d'') s)) as Hbefore'.
    { intros d'' Hin. apply Hbefore. by right. }
    destruct (is_valid_move_wf g r c d' Hwf Hr Hc) as (ok & -> & Hok).
    simpl_res. destruct ok; [|by apply IH].
    assert (∀ s, ¬ completion (put g r c d') s) as Hnone.
    { destruct Hdead as [Hnot|Hnone]; [|done]. destruct Hnot. by apply Hok. }
    rewrite set_cell_wf by done. simpl_res.
    destruct (Hrec d' (n + 1)%Z rng Hd') as (b & g' & n' & rng' & -> & Hn & Hb).
    simpl_res. destruct b; simpl in Hb; [by destruct (Hnone g')|].
    destruct Hb as [-> _].
    rewrite set_cell_wf by (done || by apply wf_put). simpl_res.
    rewrite put_put_zero by done.
    destruct (IH n' rng' Hbefore') as (s & n'' & rng'' & -> & Hs & Hn'').
    exists s, n'', rng''. split_and!; [done..|lia].
Qed.

(** A call of the search settles, for its first empty cell, on the first
    digit of its draw that admits a completion. *)
Lemma solve_sudoku_with_stats_first (fuel : nat) (g : Grid) (n : Z) (rng : Rng)
    (r c : nat) (before : list Z) (d : Z) (after : list Z) :
  wf g → zeros g < fuel → find_empty g = Ok (Some (r, c)) →
  (sample9 rng).1 = before ++ d :: after →
  (∀ d', d' ∈ before →
     ¬ free g r c d' ∨ ∀ s, ¬ completion (put g r c d') s) →
  free g r c d → (∃ s, completion (put g r c d) s) →
  ∃ s n' rng',
    solve_sudoku_with_stats sample9 fuel g n rng = Ok (true, s, n', rng') ∧
    completion g s ∧ val s r c = d ∧ (n + 1 ≤ n')%Z.
Proof.
  intros Hwf Hfuel Hfind Hdraw Hbefore Hfree Hs.
  destruct fuel as [|fuel]; [lia|]. cbn [solve_sudoku_with_stats].
  destruct (find_empty_wf g Hwf) as [[Hnone _]|(r0 & c0 & Hsome & Hr & Hc & H0)];
    [congruence|].
  rewrite Hfind in Hsome. injection Hsome as <- <-. rewrite Hfind. simpl_res.
  pose proof (sample9_perm rng) as Hperm. rewrite Hdraw in Hperm.
  destruct (sample9 rng) as [nums rng1]. simpl in Hdraw. subst nums.
  assert (∀ d', d' ∈ before ++ d :: after → digit d') as Hdigits.
  { intros d'. rewrite Hperm. apply digit_rangeZ. }
  assert (digit d) as Hd.
  { apply Hdigits. rewrite elem_of_app. right. left. }
  destruct (stats_loop_first fuel g r c d after Hwf Hr Hc H0 ltac:(lia) Hd Hfree
              Hs before n rng1)
    as (s & n' & rng' & -> & Hcomp & Hn).
  { intros d' Hin. split; [|by apply Hbefore].
    apply Hdigits. rewrite elem_of_app. by left. }
  destruct (completion_unplace g s r c d Hwf Hr Hc H0 Hd Hfree Hcomp).
  by exists s, n', rng'.
Qed.
End drawn_order.

(** C6, as the code has it: the node count of an extreme attempt is the
    count of [solve_sudoku_with_stats] on the puzzle, run from the state the
    random source is in after the puzzle was generated.  That search tries
    the candidates of a cell in the order it draws from the random source:
    every call settles, for its first empty cell, on the first digit of its
    draw that admits a completion, whatever the digits are in ascending
    order.  For a fixed puzzle the result, the final grid and the node
    count are the same in two runs whose draws are the same. *)
Theorem measurement_follows_draws {R1 R2 : Type} (same : R1 → R2 → Prop)
    (sample1 : R1 → list Z * R1) (sample2 : R2 → list Z * R2)
    (shuffle1 : list (nat * nat) → R1 → list (nat * nat) * R1)
    (fuel : nat) (puzzle : Grid) (s1 : R1) (s2 : R2) :
  (∀ s1 s2, same s1 s2 →
     (sample1 s1).1 = (sample2 s2).1 ∧ same (sample1 s1).2 (sample2 s2).2) →
  (∀ rng, (sample1 rng).1 ≡ₚ rangeZ 1 10) →
  same s1 s2 →
  agree same (solve_sudoku_with_stats sample1 fuel puzzle 0 s1)
             (solve_sudoku_with_stats sample2 fuel puzzle 0 s2) ∧
  (∀ rng p nodes rng',
     extreme_attempt sample1 shuffle1 fuel rng = Ok (p, nodes, rng') →
     ∃ rng1 b g',
       generate_puzzle_base sample1 shuffle1 fuel "extreme" rng = Ok (p, rng1) ∧
       solve_sudoku_with_stats sample1 fuel p 0 rng1 = Ok (b, g', nodes, rng')) ∧
  (∀ g n rng r c before d after,
     wf g → zeros g < fuel → find_empty g = Ok (Some (r, c)) →
     (sample1 rng).1 = before ++ d :: after →
     (∀ d', d' ∈ before →
        ¬ free g r c d' ∨ ∀ s, ¬ completion (put g r c d') s) →
     free g r c d → (∃ s, completion (put g r c d) s) →
     ∃ s n' rng',
       solve_sudoku_with_stats sample1 fuel g n rng = Ok (true, s, n', rng') ∧
       completion g s ∧ val s r c = d ∧ (n + 1 ≤ n')%Z).
Proof.
  intros Hdraw Hperm Hsame. split_and!.
  - by apply solve_sudoku_with_stats_agree.
  - intros rng p nodes rng'. unfold extreme_attempt.
    destruct (generate_puzzle_base sample1 shuffle1 fuel "extreme" rng)
      as [[p1 rng1]| |]; simpl_res; [|done..].
    destruct (solve_sudoku_with_stats sample1 fuel p1 0 rng1)
      as [[[[b g'] n'] r']| |] eqn:Hrun; simpl_res; [|done..].
    intros [= <- <- <-]. by exists rng1, b, g'.
  - intros g n rng r c before d after.
    by apply solve_sudoku_with_stats_first.
Qed.

(** Two states of the toy source that differ and draw alike; on
    [order_grid] with descending draws the digits 9 to 5 stand in the row
    of the first empty cell and 4 is settled on. *)
Lemma measurement_follows_draws_witness :
  agree (λ a b, Nat.even a = Nat.even b)
        (solve_sudoku_with_stats toy_sample 82 order_grid 0 1)
        (solve_sudoku_with_stats toy_sample 82 order_grid 0 3) ∧
  (∀ rng p nodes rng',
     extreme_attempt toy_sample toy_shuffle 82 rng = Ok (p, nodes, rng') →
     ∃ rng1 b g',
       generate_puzzle_base toy_sample toy_shuffle 82 "extreme" rng
         = Ok (p, rng1) ∧
       solve_sudoku_with_stats toy_sample 82 p 0 rng1 = Ok (b, g', nodes, rng')) ∧
  ∃ s n' rng',
    solve_sudoku_with_stats toy_sample 82 order_grid 0 1 = Ok (true, s, n', rng') ∧
    completion order_grid s ∧ val s 0 2 = 4%Z ∧ (0 + 1 ≤ n')%Z.
Proof.
  destruct (measurement_follows_draws (λ a b, Nat.even a = Nat.even b)
              toy_sample toy_sample toy_shuffle 82 order_grid 1 3)
    as (Hagree & Hattempt & Hfirst).
  - intros a b Hab. unfold toy_sample. simpl. split; [by rewrite Hab|exact Hab].
  - exact toy_sample_perm.
  - reflexivity.
  - split; [exact Hagree|]. split; [exact Hattempt|].
    assert (wf order_grid) as Hwf by wf_compute.
    apply (Hfirst order_grid 0%Z 1 0 2 [9; 8; 7; 6; 5]%Z 4%Z [3; 2; 1]%Z).
    + exact Hwf.
    + vm_compute. lia.
    + vm_compute. reflexivity.
    + reflexivity.
    + intros d' Hin. left. intros Hfree.
      rewrite !elem_of_cons, elem_of_nil in Hin.
      destruct Hin as [-> | [-> | [-> | [-> | [-> | []]]]]].
      * apply (Hfree 0 6); [unfold unit_of; lia|reflexivity].
      * apply (Hfree 0 5); [unfold unit_of; lia|reflexivity].
      * apply (Hfree 0 4); [unfold unit_of; lia|reflexivity].
      * apply (Hfree 0 3); [unfold unit_of; lia|reflexivity].
      * apply (Hfree 0 0); [unfold unit_of; lia|reflexivity].
    + destruct (is_valid_move_wf order_grid 0 2 4 Hwf) as (ok & Hrun & Hok);
        [lia..|].
      apply Hok. vm_compute in Hrun. congruence.
    + destruct (solve_sudoku_spec 82 (put order_grid 0 2 4) 0)
        as (b & g' & a' & Hrun & _ & Hb).
      * by apply wf_put.
      * vm_compute. lia.
      * vm_compute in Hrun. injection Hrun as <- <- <-. by exists order_solution.
Defined.

(** The order of the draws decides which solution is found when there are
    several: on [three_grid] ascending draws settle on 6 at the first empty
    cell and descending draws on 7. *)
Example measurement_three_grid :
  (∃ s n rng, solve_sudoku_with_stats toy_sample 82 three_grid 0 0
                = Ok (true, s, n, rng) ∧ val s 0 3 = 6%Z) ∧
  (∃ s n rng, solve_sudoku_with_stats toy_sample 82 three_grid 0 1
                = Ok (true, s, n, rng) ∧ val s 0 3 = 7%Z).
Proof. split; vm_compute; by eexists _, _, _. Qed.

(** The count on a small grid, to follow by hand: on [order_grid] the
    measuring search counts 5 nodes when the draws are ascending (digit 2
    is placed at (0,2), fails at (0,8), and is undone before 4 is placed)
    and 4 nodes when they are descending. *)
Example measurement_order_grid :
  solve_sudoku_with_stats toy_sample 82 order_grid 0 0
    = Ok (true, order_solution, 5%Z, 0) ∧
  solve_sudoku_with_stats toy_sample 82 order_grid 0 1
    = Ok (true, order_solution, 4%Z, 1).
Proof. split; vm_compute; reflexivity. Qed.

(** With one attempt allowed, [generate_extreme_puzzle] returns the puzzle
    of that attempt when its count reaches the threshold. *)
Lemma generate_extreme_puzzle_first {Rng : Type} (sample9 : Rng → list Z * Rng)
    (shuffle : list (nat * nat) → Rng → list (nat * nat) * Rng)
    (fuel : nat) (min_nodes : Z) (puzzle : Grid) (nodes : Z)
    (rng rng1 rng' : Rng) (b : bool) (g' : Grid) :
  generate_puzzle_base sample9 shuffle fuel "extreme" rng = Ok (puzzle, rng1) →
  solve_sudoku_with_stats sample9 fuel puzzle 0 rng1 = Ok (b, g', nodes, rng') →
  (min_nodes ≤ nodes)%Z →
  generate_extreme_puzzle sample9 shuffle fuel min_nodes 1 rng
    = Ok (puzzle, rng').
Proof.
  intros Hgen Hrun Hmin. unfold generate_extreme_puzzle.
  change (rangeZ 1 (1 + 1)) with [1%Z]. cbn [extreme_loop].
  unfold extreme_attempt. rewrite Hgen. simpl_res. rewrite Hrun. simpl_res.
  by rewrite decide_True by done.
Qed.

(** C6, as stated, fails on a puzzle of the extreme tier.  With the toy
    source in state 1 (descending draws, cells visited from the last to the
    first) [generate_puzzle_base] returns [extreme_grid] for the difficulty
    "extreme"; the measuring search counts 85 nodes on it, and
    [generate_extreme_puzzle] returns it for a threshold of 85.  On the same
    puzzle the measuring search counts 544 nodes when the draws are
    ascending: the count is not a function of the puzzle alone. *)
Lemma measurement_depends_on_draws :
  generate_puzzle_base toy_sample toy_shuffle 82 "extreme" 1
    = Ok (extreme_grid, 1) ∧
  generate_extreme_puzzle toy_sample toy_shuffle 82 85 1 1
    = Ok (extreme_grid, 1) ∧
  solve_sudoku_with_stats toy_sample 82 extreme_grid 0 1
    = Ok (true, descending_grid, 85%Z, 1) ∧
  solve_sudoku_with_stats toy_sample 82 extreme_grid 0 0
    = Ok (true, descending_grid, 544%Z, 0) ∧
  ¬ (∀ (puzzle : Grid) (rng rng' s1 s2 : nat) b1 g1 n1 r1 b2 g2 n2 r2,
       generate_extreme_puzzle toy_sample toy_shuffle 82 85 1 rng
         = Ok (puzzle, rng') →
       solve_sudoku_with_stats toy_sample 82 puzzle 0 s1 = Ok (b1, g1, n1, r1) →
       solve_sudoku_with_stats toy_sample 82 puzzle 0 s2 = Ok (b2, g2, n2, r2) →
       n1 = n2).
Proof.
  assert (generate_puzzle_base toy_sample toy_shuffle 82 "extreme" 1
            = Ok (extreme_grid, 1)) as Hgen.
  { vm_compute. reflexivity. }
  assert (solve_sudoku_with_stats toy_sample 82 extreme_grid 0 1
            = Ok (true, descending_grid, 85%Z, 1)) as Hdesc.
  { vm_compute. reflexivity. }
  assert (solve_sudoku_with_stats toy_sample 82 extreme_grid 0 0
            = Ok (true, descending_grid, 544%Z, 0)) as Hasc.
  { vm_compute. reflexivity. }
  pose proof (generate_extreme_puzzle_first toy_sample toy_shuffle 82 85
                extreme_grid 85 1 1 1 true descending_grid Hgen Hdesc
                (Z.le_refl 85))
    as Hextreme.
  split; [exact Hgen|]. split; [exact Hextreme|]. split; [exact Hdesc|].
  split; [exact Hasc|]. intros Hsame.
  specialize (Hsame extreme_grid 1 1 1 0 _ _ _ _ _ _ _ _ Hextreme Hdesc Hasc).
  clear -Hsame. discriminate Hsame.
Qed.

(** * Further properties *)

(** ** The solver primitives *)

Lemma scan_first (p : Z → bool) (g : Grid) (cs : list (nat * nat)) (r c : nat) :
  wf g → (∀ r c, (r, c) ∈ cs → r < 9 ∧ c < 9) →
  scan p g cs = Ok (Some (r, c)) →
  ∃ pre post, cs = pre ++ (r, c) :: post ∧ p (val g r c) = true ∧
              ∀ r' c', (r', c') ∈ pre → p (val g r' c') = false.
Proof.
  intros Hwf. induction cs as [|[r0 c0] cs IH]; intros Hin; cbn [scan]; [done|].
  destruct (Hin r0 c0) as [Hr0 Hc0]; [left|].
  rewrite get_cell_wf by done. simpl_res.
  destruct (p (val g r0 c0)) eqn:Hp.
  - intros [= <- <-]. exists [], cs. split_and!; [done..|].
    intros r' c' Hin'. by apply elem_of_nil in Hin'.
  - intros Hscan. destruct IH as (pre & post & -> & Hhit & Hpre); [|done|].
    { intros r' c' Hin'. apply Hin. by right. }
    exists ((r0, c0) :: pre), post. split_and!; [done..|].
    intros r' c' [[= -> ->]|Hin']%elem_of_cons; auto.
Qed.

(** X1: on a nine by nine grid [find_empty] returns [None] exactly when no
    cell is 0, and otherwise the first cell that holds 0 in row-major
    order. *)
Theorem find_empty_first (g : Grid) :
  wf g →
  (find_empty g = Ok None ↔ complete g) ∧
  (∀ r c, find_empty g = Ok (Some (r, c)) ↔
     r < 9 ∧ c < 9 ∧ val g r c = 0%Z ∧
     ∀ r' c', r' < 9 → c' < 9 → r' < r ∨ (r' = r ∧ c' < c) → val g r' c' ≠ 0%Z).
Proof.
  intros Hwf.
  assert (∀ r c, find_empty g = Ok (Some (r, c)) →
            r < 9 ∧ c < 9 ∧ val g r c = 0%Z ∧
            ∀ r' c', r' < 9 → c' < 9 → r' < r ∨ (r' = r ∧ c' < c) →
                     val g r' c' ≠ 0%Z) as Hfirst.
  { intros r c Hfind. unfold find_empty in Hfind. fold all_cells in Hfind.
    destruct (scan_first (λ v, v =? 0)%Z g all_cells r c Hwf)
      as (pre & post & Hsplit & H0 & Hpre);
      [intros r' c'; apply elem_of_all_cells|done|].
    assert (r < 9 ∧ c < 9) as [Hr Hc].
    { apply elem_of_all_cells. rewrite Hsplit, elem_of_app. right. left. }
    apply Z.eqb_eq in H0. split_and!; [done..|].
    intros r' c' Hr' Hc' Hlt. apply Z.eqb_neq, Hpre.
    by apply (all_cells_before pre post r c). }
  split.
  - destruct (find_empty_wf g Hwf) as [[Hnone Hfull]|(r & c & Hsome & Hr & Hc & H0)].
    + by rewrite Hnone.
    + rewrite Hsome. split; [done|]. intros Hfull. by destruct (Hfull r c).
  - intros r c. split; [apply Hfirst|]. intros (Hr & Hc & H0 & Hbefore).
    destruct (find_empty_wf g Hwf) as [[_ Hfull]|(r0 & c0 & Hsome & Hr0 & Hc0 & H00)].
    { by destruct (Hfull r c). }
    destruct (Hfirst r0 c0 Hsome) as (_ & _ & _ & Hbefore0).
    rewrite Hsome. do 3 f_equal.
    + destruct (decide (r0 < r)); [by destruct (Hbefore r0 c0); auto|].
      destruct (decide (r < r0)); [by destruct (Hbefore0 r c); auto|]. lia.
    + destruct (decide (r0 = r)) as [->|Hne].
      * destruct (decide (c0 < c)); [by destruct (Hbefore r c0); auto|].
        destruct (decide (c < c0)); [by destruct (Hbefore0 r c); auto|]. lia.
      * destruct (decide (r0 < r)); [by destruct (Hbefore r0 c0); auto|].
        destruct (Hbefore0 r c); auto. left. lia.
Qed.

Lemma find_empty_first_witness :
  find_empty order_grid = Ok None ↔ complete order_grid.
Proof. apply (find_empty_first order_grid). wf_compute. Defined.

(** X2: on a nine by nine grid, for a cell of the board, [is_valid_move]
    returns [True] exactly when the number occurs nowhere in the row, the
    column and the 3x3 box of the cell, and [False] otherwise; the cell
    itself is among the cells compared, so the value a cell already holds
    is never a valid move there. *)
Theorem is_valid_move_spec (g : Grid) (r c : nat) (d : Z) :
  wf g → r < 9 → c < 9 →
  (is_valid_move g r c d = Ok true ↔ free g r c d) ∧
  (is_valid_move g r c d = Ok false ↔ ¬ free g r c d) ∧
  is_valid_move g r c (val g r c) = Ok false.
Proof.
  intros Hwf Hr Hc.
  assert (∀ d', (is_valid_move g r c d' = Ok true ↔ free g r c d') ∧
                (is_valid_move g r c d' = Ok false ↔ ¬ free g r c d')) as Hspec.
  { intros d'. destruct (is_valid_move_wf g r c d' Hwf Hr Hc) as (b & -> & Hb).
    destruct b; split; split; try done.
    - intros _. by apply Hb.
    - intros Hnf. destruct Hnf. by apply Hb.
    - intros Hf. by apply Hb in Hf.
    - intros _ Hf. by apply Hb in Hf. }
  split_and!; [apply Hspec..|]. apply Hspec. intros Hfree.
  apply (Hfree r c); [|done]. unfold unit_of. auto.
Qed.

Lemma is_valid_move_spec_witness :
  is_valid_move order_grid 0 2 (val order_grid 0 2) = Ok false.
Proof.
  apply (is_valid_move_spec order_grid 0 2 0).
  - wf_compute.
  - lia.
  - lia.
Defined.

(** X3: on a nine by nine grid [is_valid_move] raises [IndexError] for a
    row index of 9 or more; for a column index of 9 or more it returns
    [False] when the number occurs in the row and raises [IndexError]
    otherwise. *)
Theorem is_valid_move_out_of_range (g : Grid) (r c : nat) (d : Z) :
  wf g →
  (9 ≤ r → is_valid_move g r c d = Raise IndexError) ∧
  (r < 9 → 9 ≤ c →
   ∃ row, g !! r = Some row ∧
          is_valid_move g r c d
            = if bool_decide (d ∈ row) then Ok false else Raise IndexError).
Proof.
  intros Hwf. split.
  - intros Hr. unfold is_valid_move, get_row.
    destruct Hwf as [Hlen _]. by rewrite lookup_ge_None_2 by lia.
  - intros Hr Hc. destruct (get_row_wf g r Hwf Hr) as (row & Hget & Hrow & Hlen).
    exists row. split; [done|]. unfold is_valid_move. rewrite Hget. simpl_res.
    case_bool_decide; [done|].
    destruct (wf_row g 0 Hwf) as (row0 & Hrow0 & Hlen0); [lia|].
    assert (get_cell g 0 c = Raise IndexError) as Hcell.
    { unfold get_cell, get_row. rewrite Hrow0. simpl_res.
      by rewrite (lookup_ge_None_2 row0 c) by lia. }
    change (cells (range 0 9) [c]) with ((0, c) :: cells (range 1 9) [c]).
    cbn [scan]. by rewrite Hcell.
Qed.

Lemma is_valid_move_out_of_range_witness :
  (9 ≤ 9 → is_valid_move order_grid 9 0 1 = Raise IndexError) ∧
  (0 < 9 → 9 ≤ 9 →
   ∃ row, order_grid !! 0 = Some row ∧
          is_valid_move order_grid 0 9 1
            = if bool_decide (1%Z ∈ row) then Ok false else Raise IndexError).
Proof.
  split.
  - apply (is_valid_move_out_of_range order_grid 9 0 1). wf_compute.
  - apply (is_valid_move_out_of_range order_grid 0 9 1). wf_compute.
Defined.

(** ** Groups and the shape of a validated grid *)

(** X4: [is_valid_group] returns [True] exactly when the values other than
    0 are pairwise different, whatever integers they are; the order of the
    values does not matter. *)
Theorem is_valid_group_NoDup (values : list Z) :
  (is_valid_group values = true ↔ NoDup (filter (λ v, v ≠ 0%Z) values)) ∧
  (∀ values', values ≡ₚ values' →
     is_valid_group values' = is_valid_group values).
Proof.
  assert (∀ l, is_valid_group l = true ↔ NoDup (filter (λ v, v ≠ 0%Z) l)) as Hnd.
  { intros l. by rewrite is_valid_group_true, NoDup_filter_nonzero. }
  split; [apply Hnd|]. intros values' Hperm.
  apply Bool.eq_true_iff_eq. rewrite !Hnd. by rewrite Hperm.
Qed.

Lemma for_each_Ok {A} (body : A → res ()) (xs : list A) (x : A) :
  for_each body xs = Ok () → x ∈ xs → body x = Ok ().
Proof.
  induction xs as [|y xs IH]; intros Hrun Hin; [by apply elem_of_nil in Hin|].
  cbn [for_each] in Hrun. apply bind_Ok in Hrun as ([] & Hy & Hrest).
  apply elem_of_cons in Hin as [->|Hin]; auto.
Qed.

(** X5: whatever the shape of the list of lists it is given,
    [validate_grid] returns normally only if every cell of the nine by nine
    board exists and holds a value between 0 and 9. *)
Theorem validate_grid_covers_board (g : Grid) (r c : nat) :
  validate_grid g = Ok () → r < 9 → c < 9 →
  ∃ v, g !! r ≫= (.!! c) = Some v ∧ (0 ≤ v ≤ 9)%Z.
Proof.
  intros Hrun Hr Hc. unfold validate_grid in Hrun.
  apply bind_Ok in Hrun as ([] & Hrange & _).
  apply (for_each_Ok _ _ (r, c)) in Hrange; [|by apply elem_of_all_cells].
  simpl in Hrange. apply bind_Ok in Hrange as (v & Hcell & Hv).
  exists v. split.
  - unfold get_cell, get_row in Hcell. destruct (g !! r) as [row|]; [|done].
    simpl. simpl_res_in Hcell. by destruct (row !! c) as [w|]; [injection Hcell as ->|].
  - by case_bool_decide.
Qed.

Lemma validate_grid_covers_board_witness :
  ∃ v, first_grid !! 4 ≫= (.!! 7) = Some v ∧ (0 ≤ v ≤ 9)%Z.
Proof.
  apply (validate_grid_covers_board first_grid 4 7).
  - vm_compute. reflexivity.
  - lia.
  - lia.
Defined.

(** ** The searches on complete and on solvable grids *)

Lemma solve_sudoku_complete (fuel : nat) (g : Grid) (attempts : Z) :
  wf g → complete g → 0 < fuel → solve_sudoku fuel g attempts = Ok (true, g, attempts).
Proof.
  intros Hwf Hfull Hfuel. destruct fuel as [|fuel]; [lia|]. cbn [solve_sudoku].
  destruct (find_empty_wf g Hwf) as [[-> _]|(r & c & _ & Hr & Hc & H0)]; [done|].
  by destruct (Hfull r c Hr Hc).
Qed.

(** X6: a nine by nine grid without empty cell is reported as solved by
    all three searches at once, conflicts or not: [solve_sudoku] returns
    [True] without a single attempt, [solve_sudoku_with_stats] returns
    [True] without a node and without drawing from the random source, and
    [count_solutions] returns 1; the grid is left as it is. *)
Theorem searches_accept_complete {Rng : Type} (sample9 : Rng → list Z * Rng)
    (fuel : nat) (g : Grid) (attempts nodes limit : Z) (rng : Rng) :
  wf g → complete g → 0 < fuel →
  solve_sudoku fuel g attempts = Ok (true, g, attempts) ∧
  solve_sudoku_with_stats sample9 fuel g nodes rng = Ok (true, g, nodes, rng) ∧
  count_solutions fuel g limit = Ok (1%Z, g).
Proof.
  intros Hwf Hfull Hfuel. split_and!.
  - by apply solve_sudoku_complete.
  - destruct fuel as [|fuel]; [lia|]. cbn [solve_sudoku_with_stats].
    destruct (find_empty_wf g Hwf) as [[-> _]|(r & c & _ & Hr & Hc & H0)]; [done|].
    by destruct (Hfull r c Hr Hc).
  - by apply count_solutions_complete.
Qed.

Lemma complete_ones_grid : complete ones_grid.
Proof.
  intros r c Hr Hc. unfold val, ones_grid.
  rewrite (lookup_replicate_2 9 (replicate 9 1%Z) r Hr).
  change (Some (replicate 9 1%Z) ≫= (.!! c)) with (replicate 9 1%Z !! c).
  by rewrite (lookup_replicate_2 9 1%Z c Hc).
Qed.

Lemma searches_accept_complete_witness :
  solve_sudoku 1 ones_grid 0 = Ok (true, ones_grid, 0%Z) ∧
  solve_sudoku_with_stats toy_sample 1 ones_grid 0 1 = Ok (true, ones_grid, 0%Z, 1) ∧
  count_solutions 1 ones_grid 2 = Ok (1%Z, ones_grid).
Proof.
  apply (searches_accept_complete toy_sample 1 ones_grid 0 0 2 1).
  - wf_compute.
  - exact complete_ones_grid.
  - lia.
Defined.

Example validate_grid_ones :
  validate_grid ones_grid = Raise (ValueError (Duplicate_in_row 1)).
Proof. vm_compute. reflexivity. Qed.

Lemma filter_length_same {A} (P Q : A → Prop) `{!∀ x, Decision (P x)}
    `{!∀ x, Decision (Q x)} (l : list A) :
  (∀ x, x ∈ l → (P x ↔ Q x)) → length (filter Q l) = length (filter P l).
Proof.
  induction l as [|x l IH]; intros Hsame; [done|]. rewrite !filter_cons.
  assert (length (filter Q l) = length (filter P l)) as Hl.
  { apply IH. intros y Hy. apply Hsame. by right. }
  destruct (decide (P x)) as [HP|HP].
  - rewrite (decide_True (P:=Q x)) by (apply Hsame; [left|done]). simpl. lia.
  - rewrite (decide_False (P:=Q x)); [done|].
    intros HQ. apply HP, Hsame; [left|done].
Qed.

Lemma filter_length_one {A} (P Q : A → Prop) `{!∀ x, Decision (P x)}
    `{!∀ x, Decision (Q x)} (l : list A) (a : A) :
  NoDup l → a ∈ l → P a → ¬ Q a → (∀ x, x ∈ l → x ≠ a → (P x ↔ Q x)) →
  length (filter Q l) + 1 = length (filter P l).
Proof.
  intros Hnd Hin HP HQ Hsame. induction Hnd as [|x l Hx Hnd IH].
  { by apply elem_of_nil in Hin. }
  rewrite !filter_cons. apply elem_of_cons in Hin as [<-|Hin].
  - rewrite (decide_True (P:=P a)) by done.
    rewrite (decide_False (P:=Q a)) by done. simpl.
    rewrite (filter_length_same P Q l); [lia|].
    intros y Hy. apply Hsame; [by right|]. intros ->. done.
  - assert (x ≠ a) as Hne by (intros ->; done).
    assert (length (filter Q l) + 1 = length (filter P l)) as Hl.
    { apply IH; [done|]. intros y Hy. apply Hsame. by right. }
    destruct (decide (P x)) as [HPx|HPx].
    + rewrite (decide_True (P:=Q x)) by (apply Hsame; [left|done|done]).
      simpl. lia.
    + rewrite (decide_False (P:=Q x)); [done|].
      intros HQx. apply HPx, Hsame; [left|done|done].
Qed.

Lemma filter_length_le_one {A} `{!EqDecision A} (P Q : A → Prop)
    `{!∀ x, Decision (P x)} `{!∀ x, Decision (Q x)} (l : list A) (a : A) :
  NoDup l → (∀ x, x ∈ l → x ≠ a → (Q x → P x)) →
  length (filter Q l) ≤ length (filter P l) + 1.
Proof.
  intros Hnd Himp. induction Hnd as [|x l Hx Hnd IH]; [simpl; lia|].
  rewrite !filter_cons. destruct (decide (x = a)) as [->|Hne].
  - assert (length (filter Q l) ≤ length (filter P l)).
    { clear IH. induction l as [|y l IH]; [done|]. rewrite !filter_cons.
      apply not_elem_of_cons in Hx as [Hya Hx]. apply NoDup_cons in Hnd as [_ Hnd].
      assert (length (filter Q l) ≤ length (filter P l)).
      { apply IH; [done|done|]. intros z Hz. apply Himp.
        apply elem_of_cons in Hz as [->|Hz]; [left|right; by right]. }
      destruct (decide (Q y)) as [HQ|HQ].
      - rewrite (decide_True (P:=P y)); [simpl; lia|].
        apply Himp; [right; left|congruence|done].
      - destruct (decide (P y)); simpl; lia. }
    destruct (decide (Q a)), (decide (P a)); simpl; lia.
  - assert (length (filter Q l) ≤ length (filter P l) + 1).
    { apply IH. intros y Hy. apply Himp. by right. }
    destruct (decide (Q x)) as [HQ|HQ].
    + rewrite (decide_True (P:=P x)) by (apply Himp; [left|done|done]).
      simpl. lia.
    + destruct (decide (P x)); simpl; lia.
Qed.

Lemma zeros_put_digit (g : Grid) (r c : nat) (v : Z) :
  wf g → r < 9 → c < 9 → val g r c = 0%Z → v ≠ 0%Z →
  zeros (put g r c v) + 1 = zeros g.
Proof.
  intros Hwf Hr Hc H0 Hv. unfold zeros.
  apply (filter_length_one _ _ _ (r, c)).
  - apply NoDup_all_cells.
  - by apply elem_of_all_cells.
  - done.
  - simpl. by rewrite val_put_eq.
  - intros [r' c'] _ Hne. simpl. by rewrite val_put_ne.
Qed.

Lemma zeros_put_zero (g : Grid) (r c : nat) :
  zeros (put g r c 0) ≤ zeros g + 1.
Proof.
  unfold zeros. apply (filter_length_le_one _ _ _ (r, c)).
  - apply NoDup_all_cells.
  - intros [r' c'] _ Hne. simpl. by rewrite val_put_ne.
Qed.

Lemma zeros_complete (g : Grid) : complete g → zeros g = 0.
Proof.
  intros Hfull. unfold zeros.
  rewrite (filter_length_same (λ _, False) _ all_cells).
  - by induction all_cells.
  - intros [r c] [Hr Hc]%elem_of_all_cells. simpl. split; [done|].
    by apply Hfull.
Qed.

(** ** How much the counters grow *)

Lemma solve_loop_attempts (rec : Grid → Z → res (bool * Grid * Z)) (g : Grid)
    (r c : nat) (k : Z) :
  wf g → r < 9 → c < 9 → val g r c = 0%Z →
  (∀ d a, digit d → free g r c d →
     ∃ b g' a', rec (put g r c d) a = Ok (b, g', a') ∧ (a ≤ a')%Z ∧
                (b = false → g' = put g r c d) ∧ (b = true → a + k ≤ a')%Z) →
  ∀ nums a, (∀ d, d ∈ nums → digit d) →
  ∃ b g' a', solve_loop rec r c nums g a = Ok (b, g', a') ∧
    (b = false → g' = g ∧ a + Z.of_nat (length nums) ≤ a')%Z ∧
    (b = true → a + 1 + k ≤ a')%Z.
Proof.
  intros Hwf Hr Hc H0 Hrec nums.
  induction nums as [|d nums IH]; intros a Hnums; cbn [solve_loop].
  { exists false, g, a. split_and!; [done| |done]. intros _. simpl. split; [done|lia]. }
  assert (digit d) as Hd by (apply Hnums; left).
  assert (∀ d', d' ∈ nums → digit d') as Hnums'.
  { intros d' Hd'. apply Hnums. by right. }
  destruct (is_valid_move_wf g r c d Hwf Hr Hc) as (ok & -> & Hok). simpl_res.
  destruct ok.
  - assert (free g r c d) as Hfree by (by apply Hok).
    rewrite set_cell_wf by done. simpl_res.
    destruct (Hrec d (a + 1)%Z Hd Hfree) as (b & g' & a' & -> & Ha' & Hfalse & Htrue).
    simpl_res. destruct b.
    + exists true, g', a'. split_and!; [done|done|]. intros _.
      specialize (Htrue eq_refl). lia.
    + rewrite (Hfalse eq_refl).
      rewrite set_cell_wf by (done || by apply wf_put). simpl_res.
      rewrite put_put_zero by done.
      destruct (IH a' Hnums') as (b2 & g2 & a2 & -> & Hf2 & Ht2).
      exists b2, g2, a2. split_and!; [done| |].
      * intros Hb. destruct (Hf2 Hb) as [-> Ha2]. split; [done|].
        rewrite length_cons. lia.
      * intros Hb. specialize (Ht2 Hb). lia.
  - destruct (IH (a + 1)%Z Hnums') as (b2 & g2 & a2 & -> & Hf2 & Ht2).
    exists b2, g2, a2. split_and!; [done| |].
    + intros Hb. destruct (Hf2 Hb) as [-> Ha2]. split; [done|].
      rewrite length_cons. lia.
    + intros Hb. specialize (Ht2 Hb). lia.
Qed.

Lemma solve_sudoku_attempts (fuel : nat) (g : Grid) (a : Z) :
  wf g → zeros g < fuel →
  ∃ b g' a', solve_sudoku fuel g a = Ok (b, g', a') ∧ (a ≤ a')%Z ∧
    (b = false → g' = g ∧ a + 9 ≤ a')%Z ∧
    (b = true → a + Z.of_nat (zeros g) ≤ a')%Z.
Proof.
  revert g a. induction fuel as [|fuel IH]; intros g a Hwf Hfuel; [lia|].
  cbn [solve_sudoku].
  destruct (find_empty_wf g Hwf) as [[-> Hfull]|(r & c & -> & Hr & Hc & H0)];
    simpl_res.
  { exists true, g, a. rewrite (zeros_complete g) by done.
    split_and!; [done|lia|done|]. intros _. simpl. lia. }
  destruct (solve_loop_attempts (solve_sudoku fuel) g r c
              (Z.of_nat (zeros g) - 1) Hwf Hr Hc H0)
    with (nums := rangeZ 1 10) (a := a) as (b & g' & a' & -> & Hfalse & Htrue).
  { intros d a0 Hd Hfree.
    pose proof (zeros_put_digit g r c d Hwf Hr Hc H0 (digit_nonzero d Hd)) as Hz.
    destruct (IH (put g r c d) a0) as (b & g' & a' & -> & Ha' & Hf & Ht);
      [by apply wf_put|lia|].
    exists b, g', a'. split_and!; [done|done| |].
    - intros Hb. by destruct (Hf Hb).
    - intros Hb. specialize (Ht Hb). lia. }
  { intros d. by rewrite digit_rangeZ. }
  exists b, g', a'. rewrite length_rangeZ in Hfalse.
  destruct b.
  - specialize (Htrue eq_refl). split_and!; [done|lia|done|]. intros _. lia.
  - destruct (Hfalse eq_refl) as [-> Ha']. split_and!; [done|lia| |done].
    intros _. split; [done|lia].
Qed.

(** X7: the number of attempts [solve_sudoku] adds to [stats["attempts"]]
    is at least the number of empty cells when it returns [True], and at
    least 9 when it returns [False]. *)
Theorem solve_sudoku_attempts_bound (fuel : nat) (g : Grid) (attempts : Z) :
  wf g → zeros g < fuel →
  ∃ b g' attempts',
    solve_sudoku fuel g attempts = Ok (b, g', attempts') ∧
    (b = true → attempts + Z.of_nat (zeros g) ≤ attempts')%Z ∧
    (b = false → attempts + 9 ≤ attempts')%Z.
Proof.
  intros Hwf Hfuel.
  destruct (solve_sudoku_attempts fuel g attempts Hwf Hfuel)
    as (b & g' & a' & Hrun & _ & Hfalse & Htrue).
  exists b, g', a'. split_and!; [done|done|]. intros Hb. by destruct (Hfalse Hb).
Qed.

Lemma solve_sudoku_attempts_bound_witness :
  ∃ b g' attempts',
    solve_sudoku 82 order_grid 0 = Ok (b, g', attempts') ∧
    (b = true → 0 + Z.of_nat (zeros order_grid) ≤ attempts')%Z ∧
    (b = false → 0 + 9 ≤ attempts')%Z.
Proof.
  apply (solve_sudoku_attempts_bound 82 order_grid 0).
  - wf_compute.
  - vm_compute. lia.
Defined.

Section node_count.
Context {Rng : Type} (sample9 : Rng → list Z * Rng).
Hypothesis sample9_perm : ∀ rng, (sample9 rng).1 ≡ₚ rangeZ 1 10.

Lemma stats_loop_nodes (rec : Grid → Z → Rng → res (bool * Grid * Z * Rng))
    (g : Grid) (r c : nat) (k : Z) :
  wf g → r < 9 → c < 9 → val g r c = 0%Z →
  (∀ d n rng, digit d → free g r c d →
     ∃ b g' n' rng', rec (put g r c d) n rng = Ok (b, g', n', rng') ∧
       (n ≤ n')%Z ∧ (b = false → g' = put g r c d) ∧
       (b = true → n + k ≤ n')%Z) →
  ∀ nums n rng, (∀ d, d ∈ nums → digit d) →
  ∃ b g' n' rng', stats_loop rec r c nums g n rng = Ok (b, g', n', rng') ∧
    (n ≤ n')%Z ∧ (b = false → g' = g) ∧ (b = true → n + 1 + k ≤ n')%Z.
Proof.
  intros Hwf Hr Hc H0 Hrec nums.
  induction nums as [|d nums IH]; intros n rng Hnums; cbn [stats_loop].
  { exists false, g, n, rng. split_and!; [done|lia|done|done]. }
  assert (digit d) as Hd by (apply Hnums; left).
  assert (∀ d', d' ∈ nums → digit d') as Hnums'.
  { intros d' Hd'. apply Hnums. by right. }
  destruct (is_valid_move_wf g r c d Hwf Hr Hc) as (ok & -> & Hok). simpl_res.
  destruct ok.
  - assert (free g r c d) as Hfree by (by apply Hok).
    rewrite set_cell_wf by done. simpl_res.
    destruct (Hrec d (n + 1)%Z rng Hd Hfree)
      as (b & g' & n' & rng' & -> & Hn' & Hfalse & Htrue).
    simpl_res. destruct b.
    + exists true, g', n', rng'. split_and!; [done|lia|done|]. intros _.
      specialize (Htrue eq_refl). lia.
    + rewrite (Hfalse eq_refl).
      rewrite set_cell_wf by (done || by apply wf_put). simpl_res.
      rewrite put_put_zero by done.
      destruct (IH n' rng' Hnums') as (b2 & g2 & n2 & rng2 & -> & Hn2 & Hf2 & Ht2).
      exists b2, g2, n2, rng2. split_and!; [done|lia|done|].
      intros Hb. specialize (Ht2 Hb). lia.
  - destruct (IH n rng Hnums') as (b2 & g2 & n2 & rng2 & -> & Hn2 & Hf2 & Ht2).
    by exists b2, g2, n2, rng2.
Qed.

Lemma solve_sudoku_with_stats_nodes (fuel : nat) (g : Grid) (n : Z) (rng : Rng) :
  wf g → zeros g < fuel →
  ∃ b g' n' rng',
    solve_sudoku_with_stats sample9 fuel g n rng = Ok (b, g', n', rng') ∧
    (n ≤ n')%Z ∧ (b = false → g' = g) ∧
    (b = true → n + Z.of_nat (zeros g) ≤ n')%Z.
Proof.
  revert g n rng. induction fuel as [|fuel IH]; intros g n rng Hwf Hfuel; [lia|].
  cbn [solve_sudoku_with_stats].
  destruct (find_empty_wf g Hwf) as [[-> Hfull]|(r & c & -> & Hr & Hc & H0)];
    simpl_res.
  { exists true, g, n, rng. rewrite (zeros_complete g) by done.
    split_and!; [done|lia|done|]. intros _. simpl. lia. }
  pose proof (sample9_perm rng) as Hperm.
  destruct (sample9 rng) as [nums rng1]. simpl in Hperm.
  destruct (stats_loop_nodes (solve_sudoku_with_stats sample9 fuel) g r c
              (Z.of_nat (zeros g) - 1) Hwf Hr Hc H0)
    with (nums := nums) (n := n) (rng := rng1)
    as (b & g' & n' & rng' & -> & Hn & Hfalse & Htrue).
  { intros d n0 rng0 Hd Hfree.
    pose proof (zeros_put_digit g r c d Hwf Hr Hc H0 (digit_nonzero d Hd)) as Hz.
    destruct (IH (put g r c d) n0 rng0) as (b & g' & n' & rng' & -> & Hn' & Hf & Ht);
      [by apply wf_put|lia|].
    exists b, g', n', rng'. split_and!; [done..|].
    intros Hb. specialize (Ht Hb). lia. }
  { intros d. rewrite Hperm. by rewrite digit_rangeZ. }
  exists b, g', n', rng'. split_and!; [done..|].
  intros Hb. specialize (Htrue Hb). lia.
Qed.
End node_count.

(** X8: when [solve_sudoku_with_stats] returns [True], the nodes it added
    to [stats["nodes"]] are at least as many as the empty cells of the grid
    it was given: the hardness measured on a puzzle is never below its
    number of blanks. *)
Theorem solve_sudoku_with_stats_nodes_bound {Rng : Type}
    (sample9 : Rng → list Z * Rng) (fuel : nat) (g : Grid) (nodes : Z)
    (rng : Rng) :
  (∀ rng, (sample9 rng).1 ≡ₚ rangeZ 1 10) → wf g → zeros g < fuel →
  ∃ b g' nodes' rng',
    solve_sudoku_with_stats sample9 fuel g nodes rng = Ok (b, g', nodes', rng') ∧
    (nodes ≤ nodes')%Z ∧
    (b = true → nodes + Z.of_nat (zeros g) ≤ nodes')%Z.
Proof.
  intros Hperm Hwf Hfuel.
  destruct (solve_sudoku_with_stats_nodes sample9 Hperm fuel g nodes rng Hwf Hfuel)
    as (b & g' & n' & rng' & Hrun & Hn & _ & Htrue).
  by exists b, g', n', rng'.
Qed.

Lemma solve_sudoku_with_stats_nodes_bound_witness :
  ∃ b g' nodes' rng',
    solve_sudoku_with_stats toy_sample 82 order_grid 0 1
      = Ok (b, g', nodes', rng') ∧
    (0 ≤ nodes')%Z ∧
    (b = true → 0 + Z.of_nat (zeros order_grid) ≤ nodes')%Z.
Proof.
  apply (solve_sudoku_with_stats_nodes_bound toy_sample 82 order_grid 0 1).
  - exact toy_sample_perm.
  - wf_compute.
  - vm_compute. lia.
Defined.

(** ** The three searches agree *)

Lemma count_solutions_positive (fuel : nat) (g : Grid) (limit : Z) :
  wf g → zeros g < fuel → (1 ≤ limit)%Z →
  ∃ n, count_solutions fuel g limit = Ok (n, g) ∧ (0 ≤ n)%Z ∧
       ((1 ≤ n)%Z ↔ ∃ s, completion g s) ∧ (limit = 1%Z → n ≤ 1)%Z.
Proof.
  intros Hwf Hfuel Hlimit.
  destruct (count_solutions_spec fuel g limit Hwf Hfuel)
    as (n & Hrun & Hn & Hexact & Hbound).
  pose proof (λ s, elem_of_completions fuel g s Hwf Hfuel) as Hin.
  exists n. split_and!; [done|lia| |].
  - split.
    + intros Hpos. destruct (completions fuel g) as [|s l] eqn:Hl; [simpl in Hn; lia|].
      exists s. apply Hin. left.
    + intros [s Hs%Hin].
      destruct (completions fuel g) as [|s0 l]; [by apply elem_of_nil in Hs|].
      simpl in Hexact. destruct (decide (n < limit)%Z) as [Hlt|]; [|lia].
      specialize (Hexact Hlt). lia.
  - intros ->. specialize (Hbound Hlimit). lia.
Qed.

(** X9: on a nine by nine grid the three searches agree on whether the
    grid can be completed: [solve_sudoku] and [solve_sudoku_with_stats]
    (whatever the random source draws) return the same boolean, which is
    [True] exactly when a completion exists, and [count_solutions] with a
    limit of at least 1 returns a positive count in exactly that case; with
    limit 1 the count is 0 or 1. *)
Theorem searches_agree {Rng : Type} (sample9 : Rng → list Z * Rng)
    (fuel : nat) (g : Grid) (attempts nodes limit : Z) (rng : Rng) :
  (∀ rng, (sample9 rng).1 ≡ₚ rangeZ 1 10) → wf g → zeros g < fuel →
  (1 ≤ limit)%Z →
  ∃ b g1 attempts' g2 nodes' rng' n,
    solve_sudoku fuel g attempts = Ok (b, g1, attempts') ∧
    solve_sudoku_with_stats sample9 fuel g nodes rng = Ok (b, g2, nodes', rng') ∧
    count_solutions fuel g limit = Ok (n, g) ∧
    (b = true ↔ ∃ s, completion g s) ∧
    (b = true ↔ (1 ≤ n)%Z) ∧ (0 ≤ n)%Z ∧ (limit = 1%Z → n ≤ 1)%Z.
Proof.
  intros Hperm Hwf Hfuel Hlimit.
  destruct (solve_sudoku_spec fuel g attempts Hwf Hfuel)
    as (b & g1 & a' & Hrun1 & _ & Hspec1).
  destruct (solve_sudoku_with_stats_spec sample9 Hperm fuel g nodes rng Hwf Hfuel)
    as (b2 & g2 & n' & rng' & Hrun2 & _ & _ & Hspec2).
  destruct (count_solutions_positive fuel g limit Hwf Hfuel Hlimit)
    as (n & Hrun3 & Hn & Hpos & Hone).
  assert (b = true ↔ ∃ s, completion g s) as Hb.
  { destruct b; simpl in Hspec1.
    - split; [intros _; by exists g1|done].
    - destruct Hspec1 as [_ Hnone]. split; [done|]. intros [s Hs]. by destruct (Hnone s). }
  assert (b2 = true ↔ ∃ s, completion g s) as Hb2.
  { destruct b2; simpl in Hspec2.
    - split; [intros _; by exists g2|done].
    - destruct Hspec2 as [_ Hnone]. split; [done|]. intros [s Hs]. by destruct (Hnone s). }
  assert (b2 = b) as ->.
  { apply Bool.eq_true_iff_eq. by rewrite Hb, Hb2. }
  exists b, g1, a', g2, n', rng', n. split_and!; [done..| |done|done].
  by rewrite Hb, Hpos.
Qed.

Lemma searches_agree_witness :
  ∃ b g1 attempts' g2 nodes' rng' n,
    solve_sudoku 82 stuck_grid 0 = Ok (b, g1, attempts') ∧
    solve_sudoku_with_stats toy_sample 82 stuck_grid 0 1
      = Ok (b, g2, nodes', rng') ∧
    count_solutions 82 stuck_grid 1 = Ok (n, stuck_grid) ∧
    (b = true ↔ ∃ s, completion stuck_grid s) ∧
    (b = true ↔ (1 ≤ n)%Z) ∧ (0 ≤ n)%Z ∧ (1%Z = 1%Z → n ≤ 1)%Z.
Proof.
  apply (searches_agree toy_sample 82 stuck_grid 0 0 1 1).
  - exact toy_sample_perm.
  - wf_compute.
  - vm_compute. lia.
  - lia.
Defined.

(** X10: on a nine by nine grid with exactly one completion, both
    first-solution searches return [True] and leave that completion in the
    grid, whatever the random source draws, and [count_solutions] with
    limit 2 returns 1. *)
Theorem searches_find_unique_completion {Rng : Type}
    (sample9 : Rng → list Z * Rng) (fuel : nat) (g s : Grid)
    (attempts nodes : Z) (rng : Rng) :
  (∀ rng, (sample9 rng).1 ≡ₚ rangeZ 1 10) → wf g → zeros g < fuel →
  (∀ s', completion g s' ↔ s' = s) →
  (∃ attempts', solve_sudoku fuel g attempts = Ok (true, s, attempts')) ∧
  (∃ nodes' rng',
     solve_sudoku_with_stats sample9 fuel g nodes rng = Ok (true, s, nodes', rng')) ∧
  count_solutions fuel g 2 = Ok (1%Z, g).
Proof.
  intros Hperm Hwf Hfuel Huniq.
  assert (completion g s) as Hs by (by apply Huniq).
  split_and!.
  - destruct (solve_sudoku_spec fuel g attempts Hwf Hfuel)
      as (b & g1 & a' & -> & _ & Hspec).
    destruct b; simpl in Hspec.
    + apply Huniq in Hspec as ->. by eexists.
    + destruct Hspec as [_ Hnone]. by destruct (Hnone s).
  - destruct (solve_sudoku_with_stats_spec sample9 Hperm fuel g nodes rng Hwf Hfuel)
      as (b & g2 & n' & rng' & -> & _ & _ & Hspec).
    destruct b; simpl in Hspec.
    + apply Huniq in Hspec as ->. by eexists _, _.
    + destruct Hspec as [_ Hnone]. by destruct (Hnone s).
  - apply count_solutions_one_unique; [done..|]. by exists s.
Qed.

Lemma searches_find_unique_completion_witness :
  (∃ attempts',
     solve_sudoku 82 (put first_grid 3 5 0) 0 = Ok (true, first_grid, attempts')) ∧
  (∃ nodes' rng',
     solve_sudoku_with_stats toy_sample 82 (put first_grid 3 5 0) 0 1
       = Ok (true, first_grid, nodes', rng')) ∧
  count_solutions 82 (put first_grid 3 5 0) 2 = Ok (1%Z, put first_grid 3 5 0).
Proof.
  apply (searches_find_unique_completion toy_sample 82 (put first_grid 3 5 0)
           first_grid 0 0 1).
  - exact toy_sample_perm.
  - wf_compute.
  - vm_compute. lia.
  - intros s'. apply completion_one_cleared; [exact solved_first_grid|lia|lia].
Defined.

(** ** The puzzles the generator returns *)

Lemma lookup_difficulty (difficulty : string) (clues : Z) :
  DIFFICULTY_CLUES !! difficulty = Some clues →
  difficulty ∈ ["easy"; "medium"; "hard"; "extreme"] ∧ (21 ≤ clues ≤ 40)%Z.
Proof.
  unfold DIFFICULTY_CLUES. rewrite !elem_of_cons.
  rewrite lookup_insert. case_decide as H1; [intros [= <-]; split; [auto|lia]|].
  rewrite lookup_insert. case_decide as H2; [intros [= <-]; split; [auto|lia]|].
  rewrite lookup_insert. case_decide as H3; [intros [= <-]; split; [auto|lia]|].
  rewrite lookup_singleton. case_decide as H4; [intros [= <-]; split; [auto|lia]|].
  done.
Qed.

Lemma lookup_difficulty_known (difficulty : string) :
  difficulty ∈ ["easy"; "medium"; "hard"; "extreme"] →
  is_Some (DIFFICULTY_CLUES !! difficulty).
Proof.
  rewrite !elem_of_cons, elem_of_nil.
  intros [-> | [-> | [-> | [-> | []]]]]; vm_compute; eauto.
Qed.

(** X11: [generate_puzzle_base] raises [KeyError], with the difficulty as
    key, exactly for a difficulty that is not one of the four keys of
    [DIFFICULTY_CLUES]; for the four keys, and only for them, it returns a
    puzzle, whatever the random source draws. *)
Theorem generate_puzzle_base_difficulty {Rng : Type}
    (sample9 : Rng → list Z * Rng)
    (shuffle : list (nat * nat) → Rng → list (nat * nat) * Rng)
    (fuel : nat) (difficulty : string) (rng : Rng) :
  (∀ rng, (sample9 rng).1 ≡ₚ rangeZ 1 10) →
  (∀ cs rng, (shuffle cs rng).1 ≡ₚ cs) → 81 < fuel →
  (difficulty ∈ ["easy"; "medium"; "hard"; "extreme"] ↔
   ∃ puzzle rng',
     generate_puzzle_base sample9 shuffle fuel difficulty rng = Ok (puzzle, rng')) ∧
  (difficulty ∉ ["easy"; "medium"; "hard"; "extreme"] ↔
   generate_puzzle_base sample9 shuffle fuel difficulty rng
     = Raise (KeyError difficulty)).
Proof.
  intros Hsample Hshuffle Hfuel.
  destruct (DIFFICULTY_CLUES !! difficulty) as [clues|] eqn:Hlook.
  - destruct (lookup_difficulty difficulty clues Hlook) as [Hin _].
    destruct (generate_puzzle_base_spec sample9 shuffle Hsample Hshuffle fuel
                difficulty clues rng Hfuel Hlook)
      as (full & rng1 & puzzle & _ & _ & _ & Hrun & _).
    rewrite Hrun. split; split; [by eauto|done|done|done].
  - assert (difficulty ∉ ["easy"; "medium"; "hard"; "extreme"]) as Hnin.
    { intros [v Hv]%lookup_difficulty_known. congruence. }
    unfold generate_puzzle_base. rewrite Hlook. simpl_res.
    split; split; [done|by intros (? & ? & ?)|done|done].
Qed.

Lemma generate_puzzle_base_difficulty_witness :
  "expert" ∉ ["easy"; "medium"; "hard"; "extreme"] ↔
  generate_puzzle_base toy_sample toy_shuffle 82 "expert" 0
    = Raise (KeyError "expert").
Proof.
  apply (generate_puzzle_base_difficulty toy_sample toy_shuffle 82 "expert" 0).
  - exact toy_sample_perm.
  - exact toy_shuffle_perm.
  - lia.
Defined.

Lemma reduce_loop_zeros (fuel : nat) (clues : Z) (cs : list (nat * nat))
    (p p' : Grid) (removed : Z) :
  wf p → (∀ r c, (r, c) ∈ cs → r < 9 ∧ c < 9) →
  reduce_loop fuel clues cs p removed = Ok p' →
  (Z.of_nat (zeros p) ≤ removed)%Z →
  (Z.of_nat (zeros p') ≤ Z.max removed (81 - clues))%Z.
Proof.
  revert p removed. induction cs as [|[r c] cs IH]; intros p removed Hwf Hcs;
    cbn [reduce_loop].
  { intros [= <-]. lia. }
  case_decide as Hclues; [intros [= <-]; lia|].
  destruct (Hcs r c) as [Hr Hc]; [left|].
  assert (∀ r' c', (r', c') ∈ cs → r' < 9 ∧ c' < 9) as Hcs'.
  { intros r' c' Hin. apply Hcs. by right. }
  rewrite get_cell_wf, set_cell_wf by done. simpl_res.
  destruct (count_solutions fuel (put p r c 0) 2) as [[n t]| |]; simpl_res;
    [|done..].
  case_decide.
  - rewrite set_cell_wf by (done || by apply wf_put). simpl_res.
    rewrite put_put_restore by done. by apply IH.
  - intros Hrun Hz. pose proof (zeros_put_zero p r c).
    apply IH in Hrun; [lia|by apply wf_put|done|lia].
Qed.

Lemma zeros_positive (g : Grid) (r c : nat) :
  r < 9 → c < 9 → val g r c = 0%Z → 1 ≤ zeros g.
Proof.
  intros Hr Hc H0. unfold zeros.
  assert ((r, c) ∈ filter (λ rc, val g rc.1 rc.2 = 0%Z) all_cells) as Hin.
  { apply list_elem_of_filter. split; [done|]. by apply elem_of_all_cells. }
  destruct (filter _ all_cells); [by apply elem_of_nil in Hin|]. simpl. lia.
Qed.

(** X12: started on a complete nine by nine grid, the reducing loop of
    [generate_puzzle_base] returns that grid with some cells cleared and at
    most [81 - clues] of them; with a target of 81 clues or more it returns
    the grid unchanged. *)
Theorem reduce_loop_clue_target (fuel : nat) (clues : Z)
    (cs : list (nat * nat)) (full : Grid) :
  81 < fuel → wf full → complete full →
  (∀ r c, (r, c) ∈ cs → r < 9 ∧ c < 9) →
  ∃ puzzle,
    reduce_loop fuel clues cs full 0 = Ok puzzle ∧ cleared full puzzle ∧
    (Z.of_nat (zeros puzzle) ≤ Z.max 0 (81 - clues))%Z ∧
    ((81 ≤ clues)%Z → puzzle = full).
Proof.
  intros Hfuel Hwf Hfull Hcs.
  destruct (reduce_loop_spec fuel clues cs full 0 Hfuel Hwf Hcs)
    as (puzzle & Hrun & _ & Hcl & _).
  exists puzzle. split_and!; [done..| |].
  - apply (reduce_loop_zeros fuel clues cs full puzzle 0); [done..|].
    rewrite (zeros_complete full) by done. lia.
  - intros Hclues. destruct cs as [|[r c] cs]; cbn [reduce_loop] in Hrun.
    + by injection Hrun.
    + rewrite decide_True in Hrun by lia. by injection Hrun.
Qed.

Lemma reduce_loop_clue_target_witness :
  ∃ puzzle,
    reduce_loop 82 40 all_cells first_grid 0 = Ok puzzle ∧
    cleared first_grid puzzle ∧
    (Z.of_nat (zeros puzzle) ≤ Z.max 0 (81 - 40))%Z ∧
    ((81 ≤ 40)%Z → puzzle = first_grid).
Proof.
  apply (reduce_loop_clue_target 82 40 all_cells first_grid).
  - lia.
  - wf_compute.
  - apply solved_complete. exact solved_first_grid.
  - intros r c. apply elem_of_all_cells.
Defined.

Lemma validate_grid_accepts (g : Grid) :
  wf g → in_range g → conflict_free g → validate_grid g = Ok ().
Proof.
  intros Hwf Hin Hcf.
  destruct (validate_grid_cases g Hwf)
    as [(Hrun & _) | [(r & c & Hr & Hc & Hbad & _) | [_ Hdup]]]; [done| |].
  - destruct Hbad. by apply Hin.
  - exfalso. apply conflict_free_iff in Hcf. apply Hcf, conflict_groups.
    destruct Hdup as [(r & Hr & Hg & _) | [(c & Hc & Hg & _)
                                          | (br & bc & Hb & Hg & _)]].
    + left. by exists r.
    + right. left. by exists c.
    + right. right. by exists br, bc.
Qed.

(** A grid cut from a solved grid passes validation. *)
Lemma validate_grid_cleared (full p : Grid) :
  solved full → wf p → cleared full p → validate_grid p = Ok ().
Proof.
  intros (Hwf & Hd & Hcf) Hwfp Hcl. apply validate_grid_accepts; [done| |].
  - intros r c Hr Hc. specialize (Hd r c Hr Hc). unfold digit in Hd.
    destruct (Hcl r c Hr Hc) as [-> | ->]; lia.
  - intros r c r' c' Hr Hc Hp H0.
    assert (r' < 9 ∧ c' < 9) as [Hr' Hc'] by (destruct Hp as [(? & ? & _) _]; done).
    destruct (Hcl r c Hr Hc) as [Heq|Heq]; [|done].
    destruct (Hcl r' c' Hr' Hc') as [Heq'|Heq']; [|congruence].
    rewrite Heq, Heq'. apply Hcf; [done..|]. congruence.
Qed.

Section generated_puzzles.
Context {Rng : Type}.
Variable sample9 : Rng → list Z * Rng.
Variable shuffle : list (nat * nat) → Rng → list (nat * nat) * Rng.
Hypothesis sample9_perm : ∀ rng, (sample9 rng).1 ≡ₚ rangeZ 1 10.
Hypothesis shuffle_perm : ∀ cs rng, (shuffle cs rng).1 ≡ₚ cs.

Lemma generate_puzzle_base_facts (fuel : nat) (difficulty : string)
    (clues : Z) (rng : Rng) :
  81 < fuel → DIFFICULTY_CLUES !! difficulty = Some clues →
  ∃ full rng1 puzzle rng',
    generate_full_grid sample9 fuel rng = Ok (full, rng1) ∧ solved full ∧
    generate_puzzle_base sample9 shuffle fuel difficulty rng = Ok (puzzle, rng') ∧
    wf puzzle ∧ cleared full puzzle ∧ unique_solution puzzle full ∧
    count_solutions fuel puzzle 2 = Ok (1%Z, puzzle) ∧
    1 ≤ zeros puzzle ∧ (Z.of_nat (zeros puzzle) ≤ 81 - clues)%Z ∧
    validate_grid puzzle = Ok ().
Proof.
  intros Hfuel Hclues.
  destruct (lookup_difficulty difficulty clues Hclues) as [_ Hrange].
  destruct (generate_puzzle_base_spec sample9 shuffle sample9_perm shuffle_perm
              fuel difficulty clues rng Hfuel Hclues)
    as (full & rng1 & puzzle & Hgen & Hfull & Hreduce & Hrun & Hwf & Hcl & Hcount).
  exists full, rng1, puzzle, (shuffle all_cells rng1).2.
  pose proof Hfull as (Hwff & _).
  assert (∀ r c, (r, c) ∈ (shuffle all_cells rng1).1 → r < 9 ∧ c < 9) as Hin.
  { intros r c. rewrite shuffle_perm. apply elem_of_all_cells. }
  split_and!; [done..| |done| | |].
  - by apply (reduce_unique_solution fuel clues (shuffle all_cells rng1).1).
  - pose proof (shuffle_perm all_cells rng1) as Hperm.
    destruct (shuffle all_cells rng1).1 as [|[r c] cs] eqn:Hcs.
    { apply Permutation_length in Hperm. done. }
    destruct (Hin r c) as [Hr Hc]; [left|].
    apply (zeros_positive puzzle r c); [done..|].
    apply (reduce_loop_first_cleared fuel clues r c cs full); [done|done|lia|done..].
  - pose proof (reduce_loop_zeros fuel clues _ full puzzle 0 Hwff Hin Hreduce) as Hz.
    rewrite (zeros_complete full) in Hz by (by apply solved_complete). lia.
  - by apply (validate_grid_cleared full).
Qed.
End generated_puzzles.

(** X13: for each of the four difficulties and whatever the random source
    draws, the puzzle [generate_puzzle_base] returns is the generated full
    grid with between 1 and [81 - clues] cells cleared (so it shows at
    least [clues] clues), is accepted by [validate_grid], and is solved by
    [solve_sudoku] to exactly that full grid. *)
Theorem generate_puzzle_base_solvable {Rng : Type}
    (sample9 : Rng → list Z * Rng)
    (shuffle : list (nat * nat) → Rng → list (nat * nat) * Rng)
    (fuel : nat) (difficulty : string) (clues attempts : Z) (rng : Rng) :
  (∀ rng, (sample9 rng).1 ≡ₚ rangeZ 1 10) →
  (∀ cs rng, (shuffle cs rng).1 ≡ₚ cs) → 81 < fuel →
  DIFFICULTY_CLUES !! difficulty = Some clues →
  ∃ full rng1 puzzle rng' attempts',
    generate_full_grid sample9 fuel rng = Ok (full, rng1) ∧
    generate_puzzle_base sample9 shuffle fuel difficulty rng = Ok (puzzle, rng') ∧
    cleared full puzzle ∧
    1 ≤ zeros puzzle ∧ (Z.of_nat (zeros puzzle) ≤ 81 - clues)%Z ∧
    validate_grid puzzle = Ok () ∧
    solve_sudoku fuel puzzle attempts = Ok (true, full, attempts') ∧
    validate_grid full = Ok ().
Proof.
  intros Hsample Hshuffle Hfuel Hclues.
  destruct (generate_puzzle_base_facts sample9 shuffle Hsample Hshuffle fuel
              difficulty clues rng Hfuel Hclues)
    as (full & rng1 & puzzle & rng' & Hgen & Hfull & Hrun & Hwf & Hcl & Huniq
        & _ & Hz1 & Hz & Hvalid).
  destruct (solve_sudoku_unique fuel puzzle full attempts Hwf) as [a' Hsolve];
    [pose proof (zeros_le puzzle); lia|done|].
  exists full, rng1, puzzle, rng', a'. split_and!; [done..|].
  by apply validate_grid_solved_grid.
Qed.

Lemma generate_puzzle_base_solvable_witness :
  ∃ full rng1 puzzle rng' attempts',
    generate_full_grid toy_sample 82 0 = Ok (full, rng1) ∧
    generate_puzzle_base toy_sample toy_shuffle 82 "hard" 0 = Ok (puzzle, rng') ∧
    cleared full puzzle ∧
    1 ≤ zeros puzzle ∧ (Z.of_nat (zeros puzzle) ≤ 81 - 25)%Z ∧
    validate_grid puzzle = Ok () ∧
    solve_sudoku 82 puzzle 0 = Ok (true, full, attempts') ∧
    validate_grid full = Ok ().
Proof.
  apply (generate_puzzle_base_solvable toy_sample toy_shuffle 82 "hard" 25 0 0).
  - exact toy_sample_perm.
  - exact toy_shuffle_perm.
  - lia.
  - vm_compute. reflexivity.
Defined.

(** ** The puzzles [generate_extreme_puzzle] returns *)

Section extreme_puzzles.
Context {Rng : Type}.
Variable sample9 : Rng → list Z * Rng.
Variable shuffle : list (nat * nat) → Rng → list (nat * nat) * Rng.
Hypothesis sample9_perm : ∀ rng, (sample9 rng).1 ≡ₚ rangeZ 1 10.
Hypothesis shuffle_perm : ∀ cs rng, (shuffle cs rng).1 ≡ₚ cs.

(** What every candidate of the loop satisfies, and how its measured node
    count relates to its number of blanks. *)
Lemma extreme_attempt_facts (fuel : nat) (rng : Rng) :
  81 < fuel →
  ∃ full puzzle nodes rng1 rng',
    generate_puzzle_base sample9 shuffle fuel "extreme" rng = Ok (puzzle, rng1) ∧
    solve_sudoku_with_stats sample9 fuel puzzle 0 rng1
      = Ok (true, full, nodes, rng') ∧
    extreme_attempt sample9 shuffle fuel rng = Ok (puzzle, nodes, rng') ∧
    solved full ∧ wf puzzle ∧ cleared full puzzle ∧
    unique_solution puzzle full ∧
    count_solutions fuel puzzle 2 = Ok (1%Z, puzzle) ∧
    1 ≤ zeros puzzle ≤ 60 ∧ validate_grid puzzle = Ok () ∧
    (Z.of_nat (zeros puzzle) ≤ nodes)%Z.
Proof.
  intros Hfuel. unfold extreme_attempt.
  destruct (generate_puzzle_base_facts sample9 shuffle sample9_perm shuffle_perm
              fuel "extreme" 21 rng Hfuel lookup_extreme)
    as (full & rng1 & puzzle & rng2 & _ & Hfull & -> & Hwf & Hcl & Huniq
        & Hcount & Hz1 & Hz & Hvalid).
  simpl_res.
  assert (zeros puzzle < fuel) as Hzf by (pose proof (zeros_le puzzle); lia).
  destruct (solve_sudoku_with_stats_spec sample9 sample9_perm fuel puzzle 0
              rng2 Hwf Hzf) as (b & g' & n' & rng' & Hrun & _ & _ & Hspec).
  destruct (solve_sudoku_with_stats_nodes sample9 sample9_perm fuel puzzle 0
              rng2 Hwf Hzf) as (b2 & g2 & n2 & rng2' & Hrun2 & _ & _ & Hnodes).
  rewrite Hrun in Hrun2. injection Hrun2 as <- <- <- <-.
  pose proof Huniq as [Hsol Hother].
  assert (b = true ∧ g' = full) as [-> ->].
  { destruct b; simpl in Hspec.
    - split; [done|]. apply Hother.
      by apply (completion_solution puzzle full).
    - destruct Hspec as [_ Hnone]. destruct (Hnone full).
      by apply solution_completion. }
  rewrite Hrun. simpl_res. specialize (Hnodes eq_refl).
  exists full, puzzle, n', rng2, rng'.
  do 8 (split; [done|]). split; [lia|]. split; [done|lia].
Qed.

Lemma extreme_loop_facts (fuel : nat) (min_nodes : Z) (attempts : list Z)
    (rng : Rng) :
  81 < fuel →
  extreme_loop sample9 shuffle fuel min_nodes attempts rng
    = Raise (RuntimeError "Failed to generate extreme puzzle") ∨
  ∃ full puzzle nodes rng0 rng1 rng',
    extreme_loop sample9 shuffle fuel min_nodes attempts rng = Ok (puzzle, rng') ∧
    attempts ≠ [] ∧ (min_nodes ≤ nodes)%Z ∧
    generate_puzzle_base sample9 shuffle fuel "extreme" rng0 = Ok (puzzle, rng1) ∧
    solve_sudoku_with_stats sample9 fuel puzzle 0 rng1
      = Ok (true, full, nodes, rng') ∧
    extreme_attempt sample9 shuffle fuel rng0 = Ok (puzzle, nodes, rng') ∧
    solved full ∧ wf puzzle ∧ cleared full puzzle ∧
    unique_solution puzzle full ∧
    count_solutions fuel puzzle 2 = Ok (1%Z, puzzle) ∧
    1 ≤ zeros puzzle ≤ 60 ∧ validate_grid puzzle = Ok () ∧
    (Z.of_nat (zeros puzzle) ≤ nodes)%Z.
Proof.
  intros Hfuel. revert rng.
  induction attempts as [|a attempts IH]; intros rng; cbn [extreme_loop];
    [by left|].
  destruct (extreme_attempt_facts fuel rng Hfuel)
    as (full & puzzle & nodes & rng1 & rng' & Hgen & Hrun & Hattempt & Hfacts).
  rewrite Hattempt. simpl_res. case_decide as Hmin.
  - right. exists full, puzzle, nodes, rng, rng1, rng'.
    do 6 (split; [done|]). exact Hfacts.
  - destruct (IH rng') as [Hraise | (f & p & n & r0 & r1 & r & Hloop & _ & Hrest)];
      [by left|].
    right. exists f, p, n, r0, r1, r. do 2 (split; [done|]). exact Hrest.
Qed.

(** A threshold of at most 1 is met by the first attempt. *)
Lemma extreme_loop_low_threshold (fuel : nat) (min_nodes : Z)
    (attempts : list Z) (rng : Rng) :
  81 < fuel → (min_nodes ≤ 1)%Z → attempts ≠ [] →
  ∃ puzzle rng',
    extreme_loop sample9 shuffle fuel min_nodes attempts rng = Ok (puzzle, rng').
Proof.
  intros Hfuel Hmin Hne. destruct attempts as [|a attempts]; [done|].
  cbn [extreme_loop].
  destruct (extreme_attempt_facts fuel rng Hfuel)
    as (full & puzzle & nodes & rng1 & rng' & _ & _ & -> & _ & _ & _ & _ & _
        & Hz & _ & Hnodes).
  simpl_res. rewrite decide_True by lia. by exists puzzle, rng'.
Qed.
End extreme_puzzles.

(** X14: whatever the random source draws, [generate_extreme_puzzle] either
    raises the [RuntimeError] of its last line or returns a puzzle; it
    raises no other exception.  A puzzle it returns comes from a call of
    [generate_puzzle_base] for "extreme" on which [solve_sudoku_with_stats],
    started with a count of 0 in the state that call left, returned [True]
    with a count of at least [min_nodes]; that count is also at least the
    number of blanks of the puzzle.  The puzzle is a solved grid, the one
    the measuring search reached, with between 1 and 60 cells cleared (at
    least 21 clues); it is accepted by [validate_grid], has one solution by
    [count_solutions], and is solved by [solve_sudoku] to that grid; at
    least one attempt was allowed.  With [max_attempts] of 0 or less the
    call raises at once; with a threshold of at most 1 and at least one
    attempt allowed it returns. *)
Theorem generate_extreme_puzzle_returns {Rng : Type}
    (sample9 : Rng → list Z * Rng)
    (shuffle : list (nat * nat) → Rng → list (nat * nat) * Rng)
    (fuel : nat) (min_nodes max_attempts : Z) (rng : Rng) :
  (∀ rng, (sample9 rng).1 ≡ₚ rangeZ 1 10) →
  (∀ cs rng, (shuffle cs rng).1 ≡ₚ cs) → 81 < fuel →
  (generate_extreme_puzzle sample9 shuffle fuel min_nodes max_attempts rng
     = Raise (RuntimeError "Failed to generate extreme puzzle") ∨
   ∃ puzzle rng',
     generate_extreme_puzzle sample9 shuffle fuel min_nodes max_attempts rng
       = Ok (puzzle, rng')) ∧
  (∀ puzzle rng',
     generate_extreme_puzzle sample9 shuffle fuel min_nodes max_attempts rng
       = Ok (puzzle, rng') →
     (1 ≤ max_attempts)%Z ∧
     ∃ full nodes rng0 rng1,
       generate_puzzle_base sample9 shuffle fuel "extreme" rng0
         = Ok (puzzle, rng1) ∧
       solve_sudoku_with_stats sample9 fuel puzzle 0 rng1
         = Ok (true, full, nodes, rng') ∧
       (min_nodes ≤ nodes)%Z ∧ (Z.of_nat (zeros puzzle) ≤ nodes)%Z ∧
       solved full ∧ cleared full puzzle ∧ 1 ≤ zeros puzzle ≤ 60 ∧
       validate_grid puzzle = Ok () ∧
       count_solutions fuel puzzle 2 = Ok (1%Z, puzzle) ∧
       ∀ attempts, ∃ attempts',
         solve_sudoku fuel puzzle attempts = Ok (true, full, attempts')) ∧
  ((max_attempts ≤ 0)%Z →
   generate_extreme_puzzle sample9 shuffle fuel min_nodes max_attempts rng
     = Raise (RuntimeError "Failed to generate extreme puzzle")) ∧
  ((min_nodes ≤ 1)%Z → (1 ≤ max_attempts)%Z →
   ∃ puzzle rng',
     generate_extreme_puzzle sample9 shuffle fuel min_nodes max_attempts rng
       = Ok (puzzle, rng')).
Proof.
  intros Hsample Hshuffle Hfuel. unfold generate_extreme_puzzle.
  pose proof (length_rangeZ 1 (max_attempts + 1)) as Hlen.
  split_and!.
  - destruct (extreme_loop_facts sample9 shuffle Hsample Hshuffle fuel min_nodes
                (rangeZ 1 (max_attempts + 1)) rng Hfuel)
      as [Hraise | (full & puzzle & nodes & rng0 & rng1 & rng' & Hrun & _)];
      [by left|].
    right. by exists puzzle, rng'.
  - intros puzzle rng' Hret.
    destruct (extreme_loop_facts sample9 shuffle Hsample Hshuffle fuel min_nodes
                (rangeZ 1 (max_attempts + 1)) rng Hfuel)
      as [Hraise | (full & p & nodes & rng0 & rng1 & r' & Hrun & Hne & Hmin
                    & Hgen & Hmeasure & _ & Hfull & Hwf & Hcl & Huniq & Hcount
                    & Hz & Hvalid & Hnodes)];
      [congruence|].
    rewrite Hret in Hrun. injection Hrun as <- <-. split.
    { destruct (rangeZ 1 (max_attempts + 1)); [done|]. simpl in Hlen. lia. }
    exists full, nodes, rng0, rng1. do 9 (split; [done|]).
    intros attempts. apply solve_sudoku_unique; [done|lia|done].
  - intros Hmax. unfold rangeZ.
    by replace (Z.to_nat (max_attempts + 1 - 1)) with 0 by lia.
  - intros Hmin Hmax.
    apply (extreme_loop_low_threshold sample9 shuffle Hsample Hshuffle);
      [done..|].
    intros Hnil. rewrite Hnil in Hlen. simpl in Hlen. lia.
Qed.

Lemma generate_extreme_puzzle_returns_witness :
  ∃ puzzle rng',
    generate_extreme_puzzle toy_sample toy_shuffle 82 1 1 0 = Ok (puzzle, rng') ∧
    (1 ≤ 1)%Z ∧
    ∃ full nodes rng0 rng1,
      generate_puzzle_base toy_sample toy_shuffle 82 "extreme" rng0
        = Ok (puzzle, rng1) ∧
      solve_sudoku_with_stats toy_sample 82 puzzle 0 rng1
        = Ok (true, full, nodes, rng') ∧
      (1 ≤ nodes)%Z ∧ (Z.of_nat (zeros puzzle) ≤ nodes)%Z ∧
      solved full ∧ cleared full puzzle ∧ 1 ≤ zeros puzzle ≤ 60 ∧
      validate_grid puzzle = Ok () ∧
      count_solutions 82 puzzle 2 = Ok (1%Z, puzzle) ∧
      ∀ attempts, ∃ attempts',
        solve_sudoku 82 puzzle attempts = Ok (true, full, attempts').
Proof.
  destruct (generate_extreme_puzzle_returns toy_sample toy_shuffle 82 1 1 0)
    as (_ & Hfacts & _ & Hreturns).
  - exact toy_sample_perm.
  - exact toy_shuffle_perm.
  - lia.
  - destruct Hreturns as (puzzle & rng' & Hret); [lia..|].
    exists puzzle, rng'. split; [exact Hret|]. exact (Hfacts puzzle rng' Hret).
Defined.

(** ** Reading and writing grids *)

Lemma decimal_str (v : Z) : decimal (str v) = Some v.
Proof.
  unfold decimal, str. rewrite DecimalString.NilZero.isi.
  - simpl. f_equal. apply DecimalZ.of_to.
  - destruct v; simpl; try done. intros [= H].
    by apply DecimalPos.Unsigned.to_uint_nonnil in H.
  - destruct v; simpl; try done. intros [= H].
    by apply DecimalPos.Unsigned.to_uint_nonnil in H.
Qed.

Section reading.
Variable int : string → option Z.



Lemma nine_by_nine (g : Grid) :
  negb (length g =? 9) || existsb (λ row, negb (length row =? 9)) g = false
  ↔ wf g.
Proof.
  unfold wf. rewrite orb_false_iff, negb_false_iff, Nat.eqb_eq.
  apply and_iff_compat_l. induction g as [|row g IH]; simpl.
  - split; [by constructor|done].
  - rewrite orb_false_iff, negb_false_iff, Nat.eqb_eq, IH, Forall_cons. done.
Qed.

Lemma read_sudoku_csv_wf (fs : Files) (stdin : Rows) (filename : option string)
    (g : Grid) :
  read_sudoku_csv int fs stdin filename = inr g → wf g.
Proof.
  unfold read_sudoku_csv. destruct (open_input fs stdin filename); [done|].
  destruct (int_rows int _) as [|g']; [done|].
  destruct (negb _ || _) eqn:Hshape; [done|]. intros [= <-].
  by apply nine_by_nine.
Qed.

Lemma int_row_writerow (row : list Z) :
  (∀ v, int (str v) = Some v) → int_row int (str <$> row) = inr row.
Proof.
  intros Hint. induction row as [|v row IH]; [done|].
  cbn [fmap list_fmap int_row]. rewrite Hint.
  change (list_fmap Z string str row) with (str <$> row). by rewrite IH.
Qed.

Lemma int_rows_writerows (g : Grid) :
  (∀ v, int (str v) = Some v) → int_rows int (writerows g) = inr g.
Proof.
  intros Hint. induction g as [|row g IH]; [done|].
  unfold writerows in *. cbn [fmap list_fmap int_rows].
  rewrite (int_row_writerow row Hint).
  change (list_fmap (list Z) (list string) (λ row : list Z, str <$> row) g)
    with ((λ row : list Z, str <$> row) <$> g).
  by rewrite IH.
Qed.
End reading.


(** X16: a grid written by [write_sudoku_csv] under a name other than ["-"]
    is read back by [read_sudoku_csv] as the same grid when it is nine by
    nine, and refused with the dimension error when it is not; the other
    files are left as they were.  A file named ["-"] is written but cannot
    be read back: that name reads standard input. *)
Theorem write_read_round_trip (int : string → option Z)
    (writable : string → bool) (fs : Files) (stdin : Rows) (g : Grid)
    (filename : string) :
  (∀ v, int (str v) = Some v) → writable filename = true →
  ∃ fs',
    write_sudoku_csv writable fs g filename = Some fs' ∧
    (∀ name, name ≠ filename → fs' !! name = fs !! name) ∧
    (filename ≠ "-" →
     read_sudoku_csv int fs' stdin (Some filename)
       = if decide (wf g) then inr g else inl Not_nine_by_nine) ∧
    (filename = "-" →
     read_sudoku_csv int fs' stdin (Some filename)
       = read_sudoku_csv int fs stdin None).
Proof.
  intros Hint Hw. unfold write_sudoku_csv. rewrite Hw.
  eexists. split; [done|]. split_and!.
  - intros name Hne. by rewrite lookup_insert_ne.
  - intros Hname. unfold read_sudoku_csv, open_input.
    rewrite decide_False by done. rewrite lookup_insert_eq.
    rewrite (int_rows_writerows int g Hint).
    destruct (negb _ || _) eqn:Hshape.
    + rewrite decide_False; [done|]. intros Hwf%nine_by_nine. congruence.
    + rewrite decide_True; [done|]. by apply nine_by_nine.
  - intros ->. unfold read_sudoku_csv, open_input. by rewrite decide_True.
Qed.

Lemma write_read_round_trip_witness :
  ∃ fs',
    write_sudoku_csv all_writable ∅ order_grid "puzzle.csv" = Some fs' ∧
    (∀ name, name ≠ "puzzle.csv" → fs' !! name = (∅ : Files) !! name) ∧
    ("puzzle.csv" ≠ "-" →
     read_sudoku_csv decimal fs' [] (Some "puzzle.csv")
       = if decide (wf order_grid) then inr order_grid
         else inl Not_nine_by_nine) ∧
    ("puzzle.csv" = "-" →
     read_sudoku_csv decimal fs' [] (Some "puzzle.csv")
       = read_sudoku_csv decimal ∅ [] None).
Proof.
  apply (write_read_round_trip decimal all_writable ∅ [] order_grid "puzzle.csv").
  - exact decimal_str.
  - reflexivity.
Defined.

(** ** The command line of the solver *)

Lemma completion_valid_solution (g s : Grid) :
  in_range g → conflict_free g → completion g s → solution g s.
Proof.
  intros Hin Hcf Hs. split; [|intros r c Hr Hc H0; by apply (completion_extends g s)].
  split_and!.
  - by eapply completion_wf.
  - intros r c Hr Hc. destruct (decide (val g r c = 0%Z)) as [H0|H0].
    + by apply (completion_filled g s).
    + rewrite (completion_extends g s) by done.
      specialize (Hin r c Hr Hc). unfold digit. lia.
  - by apply (completion_conflict_free g).
Qed.

Lemma validate_grid_verdict (g : Grid) :
  wf g →
  (validate_grid g = Ok () ∧ in_range g ∧ conflict_free g) ∨
  (∃ m, validate_grid g = Raise (ValueError m) ∧
        ¬ (in_range g ∧ conflict_free g)).
Proof.
  intros Hwf.
  destruct (validate_grid_cases g Hwf)
    as [(Hrun & Hin & Hnc) | [(r & c & Hr & Hc & Hbad & _ & Hrun) | [Hin Hdup]]].
  - left. split_and!; [done..|]. by apply conflict_free_iff.
  - right. eexists. split; [done|]. intros [Hin _]. by apply Hbad, Hin.
  - assert (conflict g) as Hconflict.
    { apply conflict_groups.
      destruct Hdup as [(r & Hr & Hg & _) | [(c & Hc & Hg & _)
                                            | (br & bc & Hb & Hg & _)]].
      - left. by exists r.
      - right. left. by exists c.
      - right. right. by exists br, bc. }
    right.
    destruct Hdup as [(r & _ & _ & Hrun) | [(c & _ & _ & Hrun)
                                           | (br & bc & _ & _ & Hrun)]];
      (eexists; split; [exact Hrun|]);
      intros [_ Hcf%conflict_free_iff]; by apply Hcf.
Qed.

Lemma validation_cases (args : Solve.Args) (g : Grid) :
  wf g →
  (Solve.validate args = false ∧ Solve.validation args g = ([], None)) ∨
  (Solve.validate args = true ∧ in_range g ∧ conflict_free g ∧
   Solve.validation args g = ([Solve.Puzzle_is_valid], None)) ∨
  (Solve.validate args = true ∧ ¬ (in_range g ∧ conflict_free g) ∧
   ∃ m, validate_grid g = Raise (ValueError m) ∧
        Solve.validation args g = ([Solve.Validation_failed m], Some (Ok ()))).
Proof.
  intros Hwf. unfold Solve.validation.
  destruct (Solve.validate args); [|by left]. right.
  destruct (validate_grid_verdict g Hwf) as [(-> & Hin & Hcf) | (m & -> & Hbad)].
  - by left.
  - right. split_and!; [done..|]. by exists m.
Qed.

(** The two ways the solving part of [main] ends. *)
Lemma solving_cases (writable : string → bool) (fuel : nat)
    (args : Solve.Args) (fs : Files) (g : Grid) (out : list Solve.event) :
  wf g → 81 < fuel →
  ((∀ s, ¬ completion g s) ∧
   Solve.solving writable fuel args fs g out
     = (out ++ [Solve.Original_puzzle; Solve.show args g;
                Solve.No_solution_exists], fs, Ok ())) ∨
  ∃ s attempts after fs',
    solve_sudoku fuel g 0 = Ok (true, s, attempts) ∧ completion g s ∧
    (Z.of_nat (zeros g) ≤ attempts)%Z ∧
    Solve.solving writable fuel args fs g out
      = (out ++ [Solve.Original_puzzle; Solve.show args g;
                 Solve.Solved_in attempts; Solve.Solved_puzzle;
                 Solve.show args s] ++ after, fs', Ok ()) ∧
    ((given (Solve.output args) = None ∧ after = [] ∧ fs' = fs) ∨
     ∃ name, given (Solve.output args) = Some name ∧
       ((writable name = true ∧ after = [Solve.Written_to name] ∧
         fs' = <[name := writerows s]> fs) ∨
        (writable name = false ∧ after = [Solve.Error_writing name] ∧
         fs' = fs))).
Proof.
  intros Hwf Hfuel. unfold Solve.solving.
  assert (zeros g < fuel) as Hz by (pose proof (zeros_le g); lia).
  destruct (solve_sudoku_spec fuel g 0 Hwf Hz) as (b & s & a' & Hsolve & _ & Hfirst).
  destruct (solve_sudoku_attempts fuel g 0 Hwf Hz)
    as (b2 & s2 & a2 & Hsolve2 & _ & _ & Hattempts).
  rewrite Hsolve in Hsolve2. injection Hsolve2 as <- <- <-.
  rewrite Hsolve. cbv zeta. destruct b; simpl in Hfirst.
  - right. specialize (Hattempts eq_refl). exists s, a'.
    destruct (given (Solve.output args)) as [name|] eqn:Hgiven.
    + unfold write_sudoku_csv. destruct (writable name) eqn:Hw.
      * exists [Solve.Written_to name], (<[name := writerows s]> fs).
        split_and!; [done|done|lia| |].
        -- by rewrite <-!app_assoc.
        -- right. exists name. split; [done|]. by left.
      * exists [Solve.Error_writing name], fs.
        split_and!; [done|done|lia| |].
        -- by rewrite <-!app_assoc.
        -- right. exists name. split; [done|]. by right.
    + exists [], fs. split_and!; [done|done|lia| |].
      * by rewrite <-!app_assoc.
      * by left.
  - left. destruct Hfirst as [_ Hnone]. split; [done|]. by rewrite <-app_assoc.
Qed.

(** The runs of [main], by what the input is. *)
Lemma solve_main_cases (int : string → option Z) (writable : string → bool)
    (fuel : nat) (args : Solve.Args) (fs : Files) (stdin : Rows) :
  81 < fuel →
  (∃ e, read_sudoku_csv int fs stdin (Some (Solve.input args)) = inl e ∧
        Solve.main int writable fuel args fs stdin
          = ([Solve.Error_reading e], fs, Ok ())) ∨
  ∃ g, read_sudoku_csv int fs stdin (Some (Solve.input args)) = inr g ∧ wf g ∧
    ((Solve.validate args = true ∧ ¬ (in_range g ∧ conflict_free g) ∧
      ∃ m, validate_grid g = Raise (ValueError m) ∧
           Solve.main int writable fuel args fs stdin
             = ([Solve.Validation_failed m], fs, Ok ())) ∨
     (Solve.validate args = true ∧ in_range g ∧ conflict_free g ∧
      given (Solve.output args) = None ∧
      Solve.main int writable fuel args fs stdin
        = ([Solve.Puzzle_is_valid], fs, Ok ())) ∨
     ((Solve.validate args = true → in_range g ∧ conflict_free g) ∧
      (Solve.validate args = false ∨ is_Some (given (Solve.output args))) ∧
      Solve.main int writable fuel args fs stdin
        = Solve.solving writable fuel args fs g
            (if Solve.validate args then [Solve.Puzzle_is_valid] else []))).
Proof.
  intros Hfuel. unfold Solve.main.
  destruct (read_sudoku_csv int fs stdin (Some (Solve.input args)))
    as [e|g] eqn:Hread; [left; by exists e|].
  right. exists g. pose proof (read_sudoku_csv_wf int _ _ _ g Hread) as Hwf.
  split_and!; [done..|].
  destruct (validation_cases args g Hwf)
    as [[Hv ->] | [(Hv & Hin & Hcf & ->) | (Hv & Hbad & m & Hm & ->)]].
  - right. right. rewrite Hv. cbn [andb]. split_and!; [done|by left|done].
  - rewrite Hv. cbn [andb].
    destruct (given (Solve.output args)) as [name|] eqn:Hgiven.
    + right. right. rewrite bool_decide_true by done. cbn [negb].
      split_and!; [done|by right|done].
    + right. left. rewrite bool_decide_false by (by intros [? ?]).
      by split_and!.
  - left. split_and!; [done..|]. by exists m.
Qed.

(** Membership of an event in a printed list. *)
Ltac event_in :=
  intros;
  repeat match goal with H : ∃ _, _ |- _ => destruct H end;
  unfold Solve.show in *;
  repeat match goal with
         | |- context [if ?b then _ else _] => destruct b
         | H : context [if ?b then _ else _] |- _ => destruct b
         end;
  rewrite ?elem_of_app, ?elem_of_cons, ?elem_of_nil in *;
  intuition (subst; try discriminate; try congruence).

(** X17: whatever the files and the options, [main] of the solver returns:
    no exception leaves it, neither from reading, nor from validating or
    solving the grid it read, nor from writing.  It changes no file other
    than the one named by [--output]. *)
Theorem solve_main_returns (int : string → option Z)
    (writable : string → bool) (fuel : nat) (args : Solve.Args) (fs : Files)
    (stdin : Rows) :
  81 < fuel →
  ∃ out fs',
    Solve.main int writable fuel args fs stdin = (out, fs', Ok ()) ∧
    ∀ name, given (Solve.output args) ≠ Some name → fs' !! name = fs !! name.
Proof.
  intros Hfuel.
  destruct (solve_main_cases int writable fuel args fs stdin Hfuel)
    as [(e & _ & ->) | (g & _ & Hwf & [(_ & _ & m & _ & ->)
         | [(_ & _ & _ & _ & ->) | (_ & _ & ->)]])]; [by eauto..|].
  destruct (solving_cases writable fuel args fs g
              (if Solve.validate args then [Solve.Puzzle_is_valid] else [])
              Hwf Hfuel)
    as [[_ ->] | (s & a & after & fs' & _ & _ & _ & -> & Hend)]; [by eauto|].
  eexists _, fs'. split; [done|]. intros name Hname.
  destruct Hend as [(_ & _ & ->) | (name' & Hgiven & [(_ & _ & ->) | (_ & _ & ->)])];
    [done| |done].
  apply lookup_insert_ne. congruence.
Qed.

Lemma solve_main_returns_witness :
  ∃ out fs',
    Solve.main decimal all_writable 82
      {| Solve.input := "-"; Solve.output := Some "solved.csv";
         Solve.validate := true; Solve.no_pretty := false |}
      ∅ (writerows order_grid) = (out, fs', Ok ()) ∧
    ∀ name,
      given (Solve.output
               {| Solve.input := "-"; Solve.output := Some "solved.csv";
                  Solve.validate := true; Solve.no_pretty := false |})
        ≠ Some name →
      fs' !! name = (∅ : Files) !! name.
Proof.
  apply (solve_main_returns decimal all_writable 82
           {| Solve.input := "-"; Solve.output := Some "solved.csv";
              Solve.validate := true; Solve.no_pretty := false |}
           ∅ (writerows order_grid)).
  lia.
Defined.

(** X18: [main] of the solver writes the output file exactly when the input
    is read as a grid, passes the validation if it was asked for, has a
    completion, and the file named by [--output] can be written.  The grid
    written is the one [solve_sudoku] reached: a completion of the grid
    read, and, when [--validate] was given, a solved grid that keeps every
    clue.  When nothing is reported as written the files are unchanged. *)
Theorem solve_main_writes_solution (int : string → option Z)
    (writable : string → bool) (fuel : nat) (args : Solve.Args) (fs : Files)
    (stdin : Rows) :
  81 < fuel →
  let '(out, fs', _) := Solve.main int writable fuel args fs stdin in
  ((∃ name, Solve.Written_to name ∈ out) ↔
   ∃ g name,
     read_sudoku_csv int fs stdin (Some (Solve.input args)) = inr g ∧
     (Solve.validate args = true → in_range g ∧ conflict_free g) ∧
     (∃ s, completion g s) ∧
     given (Solve.output args) = Some name ∧ writable name = true) ∧
  (∀ name, Solve.Written_to name ∈ out →
     ∃ g s attempts,
       read_sudoku_csv int fs stdin (Some (Solve.input args)) = inr g ∧
       given (Solve.output args) = Some name ∧
       solve_sudoku fuel g 0 = Ok (true, s, attempts) ∧ completion g s ∧
       fs' = <[name := writerows s]> fs ∧
       (Solve.validate args = true → solution g s)) ∧
  ((∀ name, Solve.Written_to name ∉ out) → fs' = fs).
Proof.
  intros Hfuel.
  destruct (solve_main_cases int writable fuel args fs stdin Hfuel)
    as [(e & Hread & ->) | (g & Hread & Hwf & [(Hv & Hbad & m & _ & ->)
         | [(Hv & Hin & Hcf & Hgiven & ->) | (Hpass & Hreq & ->)]])].
  - rewrite Hread. split_and!; [|event_in|done].
    split; [event_in|]. by intros (? & ? & ? & _).
  - rewrite Hread. split_and!; [|event_in|done].
    split; [event_in|]. intros (? & ? & [= <-] & Hpass & _). by destruct Hbad; apply Hpass.
  - rewrite Hread. split_and!; [|event_in|done].
    split; [event_in|]. intros (? & ? & _ & _ & _ & ? & _). exfalso. congruence.
  - rewrite Hread.
    destruct (solving_cases writable fuel args fs g
                (if Solve.validate args then [Solve.Puzzle_is_valid] else [])
                Hwf Hfuel)
      as [[Hnone ->] | (s & a & after & fs' & Hsolve & Hs & _ & -> & Hend)].
    { split_and!; [|event_in|done].
      split; [event_in|]. intros (? & ? & [= <-] & _ & [s Hs] & _).
      by destruct (Hnone s). }
    destruct Hend as [(Hgiven & -> & ->)
                     | (name & Hgiven & [(Hw & -> & ->) | (Hw & -> & ->)])].
    + split_and!; [|event_in|done].
      split; [event_in|]. intros (? & ? & _ & _ & _ & ? & _). exfalso. congruence.
    + split_and!.
      * split; [|intros _; exists name; event_in].
        intros _. exists g, name. split_and!; [done..|by exists s|done|done].
      * intros name' Hin. assert (name' = name) as -> by event_in.
        exists g, s, a. split_and!; [done..|].
        intros Hv. destruct (Hpass Hv). by apply completion_valid_solution.
      * intros Hout. destruct (Hout name). event_in.
    + split_and!; [|event_in|done].
      split; [event_in|]. intros (? & ? & _ & _ & _ & ? & ?). exfalso. congruence.
Qed.

Lemma solve_main_writes_solution_witness :
  let '(out, fs', _) :=
    Solve.main decimal all_writable 82
      {| Solve.input := "-"; Solve.output := Some "solved.csv";
         Solve.validate := true; Solve.no_pretty := false |}
      ∅ (writerows order_grid) in
  ((∃ name, Solve.Written_to name ∈ out) ↔
   ∃ g name,
     read_sudoku_csv decimal ∅ (writerows order_grid) (Some "-") = inr g ∧
     (true = true → in_range g ∧ conflict_free g) ∧
     (∃ s, completion g s) ∧
     given (Some "solved.csv") = Some name ∧ all_writable name = true) ∧
  (∀ name, Solve.Written_to name ∈ out →
     ∃ g s attempts,
       read_sudoku_csv decimal ∅ (writerows order_grid) (Some "-") = inr g ∧
       given (Some "solved.csv") = Some name ∧
       solve_sudoku 82 g 0 = Ok (true, s, attempts) ∧ completion g s ∧
       fs' = <[name := writerows s]> ∅ ∧
       (true = true → solution g s)) ∧
  ((∀ name, Solve.Written_to name ∉ out) → fs' = ∅).
Proof.
  apply (solve_main_writes_solution decimal all_writable 82
           {| Solve.input := "-"; Solve.output := Some "solved.csv";
              Solve.validate := true; Solve.no_pretty := false |}
           ∅ (writerows order_grid)).
  lia.
Defined.

(** X19: with [--validate] and no output file (none given, or the empty
    string), [main] of the solver only validates: it prints one line, the
    read error, ["Puzzle is valid."] or the message of [validate_grid], it
    does not solve, changes no file and returns.  ["Puzzle is valid."] is
    printed exactly when the input is read as a grid whose values are
    between 0 and 9 and that repeats no non-zero value in a row, a column
    or a box; this holds for any recursion bound. *)
Theorem solve_main_validate_only (int : string → option Z)
    (writable : string → bool) (fuel : nat) (args : Solve.Args) (fs : Files)
    (stdin : Rows) :
  Solve.validate args = true → given (Solve.output args) = None →
  ∃ line,
    Solve.main int writable fuel args fs stdin = ([line], fs, Ok ()) ∧
    match read_sudoku_csv int fs stdin (Some (Solve.input args)) with
    | inl e => line = Solve.Error_reading e
    | inr g =>
        (in_range g ∧ conflict_free g ∧ line = Solve.Puzzle_is_valid) ∨
        (¬ (in_range g ∧ conflict_free g) ∧
         ∃ m, validate_grid g = Raise (ValueError m) ∧
              line = Solve.Validation_failed m)
    end.
Proof.
  intros Hv Hgiven. unfold Solve.main.
  destruct (read_sudoku_csv int fs stdin (Some (Solve.input args)))
    as [e|g] eqn:Hread; [by eexists|].
  pose proof (read_sudoku_csv_wf int _ _ _ g Hread) as Hwf.
  destruct (validation_cases args g Hwf)
    as [[Hv' _] | [(_ & Hin & Hcf & ->) | (_ & Hbad & m & Hm & ->)]];
    [congruence| |].
  - rewrite Hv, Hgiven. rewrite bool_decide_false by (by intros [? ?]).
    eexists. split; [done|]. by left.
  - eexists. split; [done|]. right. split; [done|]. by exists m.
Qed.

Lemma solve_main_validate_only_witness :
  ∃ line,
    Solve.main decimal all_writable 0
      {| Solve.input := "-"; Solve.output := Some "";
         Solve.validate := true; Solve.no_pretty := false |}
      ∅ (writerows twin_grid) = ([line], ∅, Ok ()) ∧
    match read_sudoku_csv decimal ∅ (writerows twin_grid) (Some "-") with
    | inl e => line = Solve.Error_reading e
    | inr g =>
        (in_range g ∧ conflict_free g ∧ line = Solve.Puzzle_is_valid) ∨
        (¬ (in_range g ∧ conflict_free g) ∧
         ∃ m, validate_grid g = Raise (ValueError m) ∧
              line = Solve.Validation_failed m)
    end.
Proof.
  apply (solve_main_validate_only decimal all_writable 0
           {| Solve.input := "-"; Solve.output := Some "";
              Solve.validate := true; Solve.no_pretty := false |}
           ∅ (writerows twin_grid)).
  - reflexivity.
  - reflexivity.
Defined.

(** X20: the verdict [main] of the solver prints is right.  When the input
    is read as a grid, passes the validation if it was asked for, and
    solving is asked for (no [--validate], or an output file), [main]
    prints ["No solution exists."] exactly when the grid has no completion
    and ["Solved puzzle:"] exactly when it has one, never both; otherwise it
    prints neither.  The number of attempts it reports is the one counted
    by [solve_sudoku] and is at least the number of empty cells of the grid
    read. *)
Theorem solve_main_verdict (int : string → option Z)
    (writable : string → bool) (fuel : nat) (args : Solve.Args) (fs : Files)
    (stdin : Rows) :
  81 < fuel →
  let '(out, _, _) := Solve.main int writable fuel args fs stdin in
  (Solve.No_solution_exists ∈ out ↔
   ∃ g, read_sudoku_csv int fs stdin (Some (Solve.input args)) = inr g ∧
        (Solve.validate args = true → in_range g ∧ conflict_free g) ∧
        (Solve.validate args = false ∨ is_Some (given (Solve.output args))) ∧
        ∀ s, ¬ completion g s) ∧
  (Solve.Solved_puzzle ∈ out ↔
   ∃ g, read_sudoku_csv int fs stdin (Some (Solve.input args)) = inr g ∧
        (Solve.validate args = true → in_range g ∧ conflict_free g) ∧
        (Solve.validate args = false ∨ is_Some (given (Solve.output args))) ∧
        ∃ s, completion g s) ∧
  ¬ (Solve.No_solution_exists ∈ out ∧ Solve.Solved_puzzle ∈ out) ∧
  (∀ attempts, Solve.Solved_in attempts ∈ out →
     ∃ g s,
       read_sudoku_csv int fs stdin (Some (Solve.input args)) = inr g ∧
       solve_sudoku fuel g 0 = Ok (true, s, attempts) ∧
       Solve.show args s ∈ out ∧
       (Z.of_nat (zeros g) ≤ attempts)%Z).
Proof.
  intros Hfuel.
  destruct (solve_main_cases int writable fuel args fs stdin Hfuel)
    as [(e & Hread & ->) | (g & Hread & Hwf & [(Hv & Hbad & m & _ & ->)
         | [(Hv & Hin & Hcf & Hgiven & ->) | (Hpass & Hreq & ->)]])];
    rewrite Hread.
  - split_and!; [split; [event_in|by intros (? & ? & _)]..|event_in|event_in].
  - split_and!; [split; [event_in|]..|event_in|event_in];
      intros (? & [= <-] & Hpass & _); by destruct Hbad; apply Hpass.
  - split_and!; [split; [event_in|]..|event_in|event_in];
      intros (? & _ & _ & [Hreq | [? Hreq]] & _); exfalso; congruence.
  - destruct (solving_cases writable fuel args fs g
                (if Solve.validate args then [Solve.Puzzle_is_valid] else [])
                Hwf Hfuel)
      as [[Hnone ->] | (s & a & after & fs' & Hsolve & Hs & Hz & -> & Hend)].
    + split_and!.
      * split; [intros _; by exists g|event_in].
      * split; [event_in|]. intros (? & [= <-] & _ & _ & s & Hs).
        by destruct (Hnone s).
      * event_in.
      * event_in.
    + assert (after = [] ∨ (∃ name, after = [Solve.Written_to name]) ∨
              ∃ name, after = [Solve.Error_writing name]) as Hafter.
      { destruct Hend as [(_ & -> & _)
                         | (name & _ & [(_ & -> & _) | (_ & -> & _)])]; eauto. }
      clear Hend. split_and!.
      * split.
        -- destruct Hafter as [-> | [[name ->] | [name ->]]]; event_in.
        -- intros (? & [= <-] & _ & _ & Hnone). by destruct (Hnone s).
      * split; [intros _; exists g; split_and!; [done..|by exists s]|].
        intros _. event_in.
      * destruct Hafter as [-> | [[name ->] | [name ->]]]; event_in.
      * intros attempts Hin. assert (attempts = a) as ->.
        { destruct Hafter as [-> | [[name ->] | [name ->]]]; event_in. }
        exists g, s. split_and!; [done..| |done].
        rewrite !elem_of_app, !elem_of_cons. tauto.
Qed.

Lemma solve_main_verdict_witness :
  let '(out, _, _) :=
    Solve.main decimal all_writable 82
      {| Solve.input := "-"; Solve.output := None;
         Solve.validate := false; Solve.no_pretty := true |}
      ∅ (writerows stuck_grid) in
  (Solve.No_solution_exists ∈ out ↔
   ∃ g, read_sudoku_csv decimal ∅ (writerows stuck_grid) (Some "-") = inr g ∧
        (false = true → in_range g ∧ conflict_free g) ∧
        (false = false ∨ is_Some (given None)) ∧
        ∀ s, ¬ completion g s) ∧
  (Solve.Solved_puzzle ∈ out ↔
   ∃ g, read_sudoku_csv decimal ∅ (writerows stuck_grid) (Some "-") = inr g ∧
        (false = true → in_range g ∧ conflict_free g) ∧
        (false = false ∨ is_Some (given None)) ∧
        ∃ s, completion g s) ∧
  ¬ (Solve.No_solution_exists ∈ out ∧ Solve.Solved_puzzle ∈ out) ∧
  (∀ attempts, Solve.Solved_in attempts ∈ out →
     ∃ g s,
       read_sudoku_csv decimal ∅ (writerows stuck_grid) (Some "-") = inr g ∧
       solve_sudoku 82 g 0 = Ok (true, s, attempts) ∧
       Solve.show
         {| Solve.input := "-"; Solve.output := None;
            Solve.validate := false; Solve.no_pretty := true |} s ∈ out ∧
       (Z.of_nat (zeros g) ≤ attempts)%Z).
Proof.
  apply (solve_main_verdict decimal all_writable 82
           {| Solve.input := "-"; Solve.output := None;
              Solve.validate := false; Solve.no_pretty := true |}
           ∅ (writerows stuck_grid)).
  lia.
Defined.

(** ** The command line of the generator *)

Lemma lookup_rangeZ (a b : Z) (j : nat) :
  j < Z.to_nat (b - a) → rangeZ a b !! j = Some (a + Z.of_nat j)%Z.
Proof.
  intros Hj. unfold rangeZ. rewrite list_lookup_fmap, lookup_seq_lt by done.
  done.
Qed.


Section generate_main.
Context {Rng : Type}.
Variable sample9 : Rng → list Z * Rng.
Variable shuffle : list (nat * nat) → Rng → list (nat * nat) * Rng.
Variable randrange : Z → Rng → Z * Rng.
Variable reseed : Z → Rng.
Variable writable : string → bool.
Hypothesis sample9_perm : ∀ rng, (sample9 rng).1 ≡ₚ rangeZ 1 10.
Hypothesis shuffle_perm : ∀ cs rng, (shuffle cs rng).1 ≡ₚ cs.

(** The loop that prints returns what [extreme_loop] returns, and prints
    one line per attempt made: the attempts before the accepted one are
    below the threshold, and all of them are when the loop gives up. *)
Lemma printed_loop_cases (fuel : nat) (min_nodes : Z) (attempts : list Z)
    (rng : Rng) :
  81 < fuel →
  ∃ lines,
    Generate.extreme_loop sample9 shuffle fuel min_nodes attempts rng
      = (lines, extreme_loop sample9 shuffle fuel min_nodes attempts rng) ∧
    (∀ j a, attempts !! j = Some a → j < length lines →
       lines !! j = attempt_line sample9 shuffle fuel min_nodes rng j a) ∧
    ((extreme_loop sample9 shuffle fuel min_nodes attempts rng
        = Raise (RuntimeError "Failed to generate extreme puzzle") ∧
      length lines = length attempts ∧
      ∀ j, j < length attempts → ∃ p n r,
        attempt_at sample9 shuffle fuel j rng = Ok (p, n, r) ∧
        (n < min_nodes)%Z) ∨
     ∃ k puzzle nodes rng',
       extreme_loop sample9 shuffle fuel min_nodes attempts rng
         = Ok (puzzle, rng') ∧
       length lines = S k ∧ k < length attempts ∧
       attempt_at sample9 shuffle fuel k rng = Ok (puzzle, nodes, rng') ∧
       (min_nodes ≤ nodes)%Z ∧
       ∀ j, j < k → ∃ p n r,
         attempt_at sample9 shuffle fuel j rng = Ok (p, n, r) ∧
         (n < min_nodes)%Z).
Proof.
  intros Hfuel. revert rng.
  induction attempts as [|a attempts IH]; intros rng;
    cbn [Generate.extreme_loop extreme_loop].
  { exists []. split; [done|]. split; [intros j a' _ Hj; simpl in Hj; lia|].
    left. split_and!; [done..|]. intros j Hj. simpl in Hj. lia. }
  destruct (extreme_attempt_spec sample9 shuffle sample9_perm shuffle_perm
              fuel rng Hfuel) as (puzzle & nodes & rng1 & Hrun & _).
  rewrite Hrun. simpl_res. case_decide as Hmin.
  - exists [Generate.Extreme_accepted a nodes false]. split; [done|]. split.
    + intros j a' Ha' Hj. simpl in Hj. destruct j as [|j]; [|lia].
      injection Ha' as <-. unfold attempt_line. cbn [attempt_at].
      rewrite Hrun. cbn [lookup list_lookup]. by rewrite bool_decide_false by lia.
    + right. exists 0, puzzle, nodes, rng1.
      split_and!; [done|done|simpl; lia|done|done|]. intros j Hj. lia.
  - destruct (IH rng1) as (lines & -> & Hlines & Hend).
    exists (Generate.Extreme_accepted a nodes true :: lines). split; [done|].
    split.
    + intros j a' Ha' Hj. destruct j as [|j].
      * injection Ha' as <-. unfold attempt_line. cbn [attempt_at].
        rewrite Hrun. cbn [lookup list_lookup].
        by rewrite bool_decide_true by lia.
      * unfold attempt_line.
        rewrite (attempt_at_succ sample9 shuffle fuel j rng rng1 puzzle nodes Hrun).
        apply (Hlines j a'); [done|]. simpl in Hj. lia.
    + destruct Hend as [(Hraise & Hlen & Hall)
                       | (k & pk & nk & rk & Hok & Hlen & Hk & Hat & Hnk & Hbefore)].
      * left. split_and!; [done|simpl; lia|]. intros [|j] Hj.
        -- exists puzzle, nodes, rng1. split; [done|lia].
        -- rewrite (attempt_at_succ sample9 shuffle fuel j rng rng1 puzzle
                      nodes Hrun).
           apply Hall. simpl in Hj. lia.
      * right. exists (S k), pk, nk, rk.
        rewrite (attempt_at_succ sample9 shuffle fuel k rng rng1 puzzle nodes Hrun).
        split_and!; [done|simpl; lia|simpl; lia|done|done|]. intros [|j] Hj.
        -- exists puzzle, nodes, rng1. split; [done|lia].
        -- rewrite (attempt_at_succ sample9 shuffle fuel j rng rng1 puzzle
                      nodes Hrun).
           apply Hbefore. lia.
Qed.

(** The runs of [main]: the extreme tier prints a line per attempt and can
    give up; otherwise a puzzle is generated, shown, and handed to the two
    output blocks. *)
Lemma generate_main_cases (fuel : nat) (args : Generate.Args) (rng : Rng) :
  81 < fuel →
  Generate.difficulty args ∈ ["easy"; "medium"; "hard"; "extreme"] →
  ∃ seed lines,
    seed = match Generate.seed args with
           | None => (randrange 1000000000 rng).1
           | Some seed => seed
           end ∧
    (Generate.difficulty args ≠ "extreme" → lines = []) ∧
    (∀ j, j < length lines →
       lines !! j = attempt_line sample9 shuffle fuel 75000 (reseed seed) j
                      (Z.of_nat j + 1)) ∧
    ((Generate.difficulty args = "extreme" ∧ length lines = 100 ∧
      (∀ j, j < 100 → ∃ p n r,
         attempt_at sample9 shuffle fuel j (reseed seed) = Ok (p, n, r) ∧
         (n < 75000)%Z) ∧
      Generate.main sample9 shuffle randrange reseed writable fuel args rng
        = ([Generate.Seed_is seed] ++ lines,
           Generate.Uncaught
             (RuntimeError "Failed to generate extreme puzzle"))) ∨
     ∃ full puzzle clues,
       DIFFICULTY_CLUES !! Generate.difficulty args = Some clues ∧
       solved full ∧ wf puzzle ∧ cleared full puzzle ∧
       unique_solution puzzle full ∧
       count_solutions fuel puzzle 2 = Ok (1%Z, puzzle) ∧
       1 ≤ zeros puzzle ∧ (Z.of_nat (zeros puzzle) ≤ 81 - clues)%Z ∧
       validate_grid puzzle = Ok () ∧
       (Generate.difficulty args = "extreme" →
        ∃ k nodes rng',
          length lines = S k ∧ k < 100 ∧
          attempt_at sample9 shuffle fuel k (reseed seed)
            = Ok (puzzle, nodes, rng') ∧
          (75000 ≤ nodes)%Z ∧
          ∀ j, j < k → ∃ p n r,
            attempt_at sample9 shuffle fuel j (reseed seed) = Ok (p, n, r) ∧
            (n < 75000)%Z) ∧
       Generate.main sample9 shuffle randrange reseed writable fuel args rng
         = Generate.pdf_block writable args puzzle seed
             (([Generate.Seed_is seed] ++ lines)
              ++ [Generate.Generated (Generate.difficulty args);
                  if Generate.no_pretty args
                  then Generate.Print_csv (writerows puzzle)
                  else Generate.Print_grid puzzle])).
Proof.
  intros Hfuel Hd. unfold Generate.main.
  set (seed := match Generate.seed args with
               | None => (randrange 1000000000 rng).1
               | Some seed => seed
               end).
  exists seed. case_decide as Hextreme.
  - unfold Generate.generate_extreme_puzzle.
    assert (length (rangeZ 1 (100 + 1)) = 100) as Hlen by reflexivity.
    destruct (printed_loop_cases fuel 75000 (rangeZ 1 (100 + 1)) (reseed seed)
                Hfuel) as (lines & -> & Hlines & Hend).
    exists lines. split; [done|]. split; [done|]. split.
    { intros j Hj. apply Hlines; [|done].
      assert (j < 100) as Hj100.
      { destruct Hend as [(_ & Hl & _) | (k & ? & ? & ? & _ & Hl & Hk & _)]; lia. }
      rewrite lookup_rangeZ by (simpl; lia). f_equal. lia. }
    destruct Hend as [(-> & Hl & Hall)
                     | (k & pk & nk & rk & Hok & Hl & Hk & Hat & Hnk & Hbefore)].
    + left. split_and!; [done|lia| |done].
      intros j Hj. apply Hall. lia.
    + right.
      destruct (extreme_loop_facts sample9 shuffle sample9_perm shuffle_perm fuel
                  75000 (rangeZ 1 (100 + 1)) (reseed seed) Hfuel)
        as [Hraise | (full & puzzle & nodes & rng0 & rng1 & rng' & Hrun & _ & _
                      & _ & _ & _ & Hfull & Hwf & Hcl & Huniq & Hcount & Hz
                      & Hvalid & _)]; [congruence|].
      rewrite Hrun in Hok. injection Hok as <- <-. rewrite Hrun.
      exists full, puzzle, 21%Z. rewrite Hextreme.
      split_and!; [done..|lia|lia|done| |done].
      intros _. exists k, nk, rng'. split_and!; [done|lia|done..].
  - destruct (lookup_difficulty_known _ Hd) as [clues Hclues].
    destruct (generate_puzzle_base_facts sample9 shuffle sample9_perm
                shuffle_perm fuel (Generate.difficulty args) clues (reseed seed)
                Hfuel Hclues)
      as (full & rng1 & puzzle & rng' & _ & Hfull & -> & Hwf & Hcl & Huniq
          & Hcount & Hz1 & Hz & Hvalid).
    exists []. split; [done|]. split; [done|].
    split; [intros j Hj; simpl in Hj; lia|].
    right. exists full, puzzle, clues. by split_and!.
Qed.

(** The output blocks print after what was printed, and end with a return
    or with the error of a file that cannot be written. *)
Lemma pdf_block_cases (args : Generate.Args) (puzzle : Grid) (seed : Z)
    (out : list Generate.event) :
  ∃ pdf_part csv_part r,
    Generate.pdf_block writable args puzzle seed out
      = (out ++ pdf_part ++ csv_part, r) ∧
    (pdf_part = [] ∨
     ∃ name, given (Generate.pdf args) = Some name ∧ writable name = true ∧
       pdf_part = [Generate.Write_pdf puzzle name seed (Generate.difficulty args);
                   Generate.Pdf_written_to name]) ∧
    (csv_part = [] ∨
     ∃ name, given (Generate.output args) = Some name ∧ writable name = true ∧
       r = Generate.Returned ∧
       csv_part = [Generate.Write_csv (writerows puzzle) name;
                   Generate.Written_to name]) ∧
    ((r = Generate.Returned ∧
      (∀ name, given (Generate.pdf args) = Some name → writable name = true ∧
         pdf_part ≠ []) ∧
      (∀ name, given (Generate.output args) = Some name →
         writable name = true ∧ csv_part ≠ [])) ∨
     (∃ name, r = Generate.OSError name ∧ writable name = false ∧
        csv_part = [] ∧
        (given (Generate.pdf args) = Some name ∨
         given (Generate.output args) = Some name))).
Proof.
  unfold Generate.pdf_block, Generate.output_block.
  destruct (given (Generate.pdf args)) as [pdf|] eqn:Hpdf;
    [destruct (writable pdf) eqn:Hwp|];
    (destruct (given (Generate.output args)) as [csv|] eqn:Hcsv;
       [destruct (writable csv) eqn:Hwc|]).
  - eexists _, _, _. rewrite <-app_assoc. split; [done|].
    split; [right; by eauto|]. split; [right; by eauto|]. left.
    split_and!; [done|by intros ? [= <-]|by intros ? [= <-]].
  - exists [Generate.Write_pdf puzzle pdf seed (Generate.difficulty args);
            Generate.Pdf_written_to pdf], [], (Generate.OSError csv).
    rewrite app_nil_r. split; [done|].
    split; [right; by eauto|]. split; [by left|]. right. exists csv. by eauto.
  - exists [Generate.Write_pdf puzzle pdf seed (Generate.difficulty args);
            Generate.Pdf_written_to pdf], [], Generate.Returned.
    rewrite app_nil_r. split; [done|].
    split; [right; by eauto|]. split; [by left|]. left.
    split_and!; [done|by intros ? [= <-]|done].
  - exists [], [], (Generate.OSError pdf). rewrite app_nil_r.
    split; [done|]. split; [by left|]. split; [by left|]. right. exists pdf.
    by eauto.
  - exists [], [], (Generate.OSError pdf). rewrite app_nil_r.
    split; [done|]. split; [by left|]. split; [by left|]. right. exists pdf.
    by eauto.
  - exists [], [], (Generate.OSError pdf). rewrite app_nil_r.
    split; [done|]. split; [by left|]. split; [by left|]. right. exists pdf.
    by eauto.
  - eexists [], _, _. split; [done|].
    split; [by left|]. split; [right; by eauto|]. left.
    split_and!; [done|done|by intros ? [= <-]].
  - exists [], [], (Generate.OSError csv). rewrite app_nil_r.
    split; [done|]. split; [by left|]. split; [by left|]. right. exists csv.
    by eauto.
  - exists [], [], Generate.Returned. rewrite app_nil_r.
    split; [done|]. split; [by left|]. split; [by left|]. left. by split_and!.
Qed.
End generate_main.




(** ** From the generator to the solver *)

Lemma read_written (int : string → option Z) (fs : Files) (stdin : Rows)
    (g : Grid) (name : string) :
  (∀ v, int (str v) = Some v) → name ≠ "-" → wf g →
  read_sudoku_csv int (<[name := writerows g]> fs) stdin (Some name) = inr g.
Proof.
  intros Hint Hname Hwf. unfold read_sudoku_csv, open_input.
  rewrite decide_False by done. rewrite lookup_insert_eq.
  rewrite (int_rows_writerows int g Hint).
  apply nine_by_nine in Hwf. by rewrite Hwf.
Qed.

(** X23: a puzzle of the easy, medium or hard tier that [main] of the
    generator writes with [--output] is accepted by the solver.  The
    generator returns after writing the rows of a puzzle with one solution;
    run on that file, [main] of the solver reads the puzzle back, reports
    it valid when asked to validate, prints it and its solution after
    ["Solved puzzle:"] unless it only validates, and writes the solution to
    its own output file when that file can be written: the solver recovers
    the grid the puzzle was cut from. *)
Theorem generated_puzzle_is_solved {Rng : Type} (sample9 : Rng → list Z * Rng)
    (shuffle : list (nat * nat) → Rng → list (nat * nat) * Rng)
    (randrange : Z → Rng → Z * Rng) (reseed : Z → Rng)
    (writable : string → bool) (int : string → option Z) (fuel : nat)
    (args : Generate.Args) (rng : Rng) (name : string) :
  (∀ rng, (sample9 rng).1 ≡ₚ rangeZ 1 10) →
  (∀ cs rng, (shuffle cs rng).1 ≡ₚ cs) → 81 < fuel →
  (∀ v, int (str v) = Some v) →
  Generate.difficulty args ∈ ["easy"; "medium"; "hard"] →
  (∀ pdf, given (Generate.pdf args) = Some pdf → writable pdf = true) →
  given (Generate.output args) = Some name → writable name = true →
  name ≠ "-" →
  ∃ out full puzzle,
    Generate.main sample9 shuffle randrange reseed writable fuel args rng
      = (out, Generate.Returned) ∧
    Generate.Write_csv (writerows puzzle) name ∈ out ∧
    unique_solution puzzle full ∧
    ∀ (fs : Files) (stdin : Rows) (solve_args : Solve.Args),
      Solve.input solve_args = name →
      let fs1 := <[name := writerows puzzle]> fs in
      let '(printed, fs2, r) :=
        Solve.main int writable fuel solve_args fs1 stdin in
      r = Ok () ∧
      (Solve.validate solve_args = true → Solve.Puzzle_is_valid ∈ printed) ∧
      (Solve.validate solve_args = false ∨
       is_Some (given (Solve.output solve_args)) →
       Solve.show solve_args puzzle ∈ printed ∧
       Solve.Solved_puzzle ∈ printed ∧
       Solve.show solve_args full ∈ printed) ∧
      (∀ solved_name,
         given (Solve.output solve_args) = Some solved_name →
         writable solved_name = true →
         fs2 = <[solved_name := writerows full]> fs1).
Proof.
  intros Hsample Hshuffle Hfuel Hint Hd Hpdf Hout Hw Hname.
  assert (Generate.difficulty args ∈ ["easy"; "medium"; "hard"; "extreme"]) as Hd'.
  { revert Hd. rewrite !elem_of_cons. tauto. }
  assert (Generate.difficulty args ≠ "extreme") as Hne.
  { intros Heq. rewrite Heq in Hd. revert Hd.
    rewrite !elem_of_cons, elem_of_nil. by intros [? | [? | [? | []]]]. }
  destruct (generate_main_cases sample9 shuffle randrange reseed writable
              Hsample Hshuffle fuel args rng Hfuel Hd')
    as (seed & lines & _ & Hplain & _
        & [[Hextreme _] | (full & puzzle & clues & _ & Hfull & Hwf
          & Hcl & Huniq & _ & _ & _ & Hvalid & _ & ->)]); [done|].
  rewrite (Hplain Hne).
  destruct (pdf_block_cases writable args puzzle seed
              (([Generate.Seed_is seed] ++ [])
               ++ [Generate.Generated (Generate.difficulty args);
                   if Generate.no_pretty args
                   then Generate.Print_csv (writerows puzzle)
                   else Generate.Print_grid puzzle]))
    as (pdf_part & csv_part & r & -> & _ & Hcsv & Hend).
  destruct Hend as [(-> & _ & Hc) | (bad & _ & Hbad & _ & [Hgiven | Hgiven])].
  2:{ rewrite (Hpdf bad Hgiven) in Hbad. done. }
  2:{ rewrite Hout in Hgiven. injection Hgiven as <-. congruence. }
  destruct (Hc name Hout) as [_ Hpart].
  destruct Hcsv as [-> | (name' & Hgiven & _ & _ & ->)]; [done|].
  rewrite Hout in Hgiven. injection Hgiven as <-.
  eexists _, full, puzzle. split; [done|].
  split; [rewrite !elem_of_app, !elem_of_cons; tauto|]. split; [done|].
  intros fs stdin sargs Hinput fs1.
  pose proof (read_written int fs stdin puzzle name Hint Hname Hwf) as Hread.
  fold fs1 in Hread.
  assert (in_range puzzle ∧ conflict_free puzzle) as [Hin Hcf].
  { destruct (validate_grid_verdict puzzle Hwf) as [(_ & ? & ?) | (m & Hm & _)];
      [done|congruence]. }
  destruct (solve_main_cases int writable fuel sargs fs1 stdin Hfuel)
    as [(e & Hread' & _) | (g & Hread' & _ & Hcases)];
    rewrite Hinput, Hread in Hread'; [done|]. injection Hread' as <-.
  destruct Hcases as [(_ & Hbad & _) | [(Hv & _ & _ & Hnone & ->)
                                       | (_ & _ & ->)]].
  - by destruct Hbad.
  - split_and!; [done|event_in| |intros ? ?; congruence].
    intros [? | [? ?]]; congruence.
  - destruct (solving_cases writable fuel sargs fs1 puzzle
                (if Solve.validate sargs then [Solve.Puzzle_is_valid] else [])
                Hwf Hfuel)
      as [[Hnone _] | (s & a & after & fs' & _ & Hs & _ & -> & Hafter)].
    { destruct (Hnone full). apply solution_completion, Huniq. }
    assert (s = full) as ->.
    { apply Huniq. by apply completion_valid_solution. }
    split_and!; [done| |intros _; split_and!|].
    + intros ->. left.
    + rewrite !elem_of_app, !elem_of_cons. tauto.
    + rewrite !elem_of_app, !elem_of_cons. tauto.
    + rewrite !elem_of_app, !elem_of_cons. tauto.
    + intros solved_name Hgiven Hws.
      destruct Hafter as [(Hnone & _) | (name' & Hgiven' & [(_ & _ & ->)
                                                           | (Hbad & _)])];
        [congruence|congruence|].
      rewrite Hgiven in Hgiven'. injection Hgiven' as <-. congruence.
Qed.

Lemma generated_puzzle_is_solved_witness :
  ∃ out full puzzle,
    Generate.main toy_sample toy_shuffle toy_randrange toy_reseed all_writable
      82 easy_args 0 = (out, Generate.Returned) ∧
    Generate.Write_csv (writerows puzzle) "puzzle.csv" ∈ out ∧
    unique_solution puzzle full ∧
    ∀ (fs : Files) (stdin : Rows) (solve_args : Solve.Args),
      Solve.input solve_args = "puzzle.csv" →
      let fs1 := <["puzzle.csv" := writerows puzzle]> fs in
      let '(printed, fs2, r) :=
        Solve.main decimal all_writable 82 solve_args fs1 stdin in
      r = Ok () ∧
      (Solve.validate solve_args = true → Solve.Puzzle_is_valid ∈ printed) ∧
      (Solve.validate solve_args = false ∨
       is_Some (given (Solve.output solve_args)) →
       Solve.show solve_args puzzle ∈ printed ∧
       Solve.Solved_puzzle ∈ printed ∧
       Solve.show solve_args full ∈ printed) ∧
      (∀ solved_name,
         given (Solve.output solve_args) = Some solved_name →
         all_writable solved_name = true →
         fs2 = <[solved_name := writerows full]> fs1).
Proof.
  apply (generated_puzzle_is_solved toy_sample toy_shuffle toy_randrange
           toy_reseed all_writable decimal 82 easy_args 0 "puzzle.csv").
  - exact toy_sample_perm.
  - exact toy_shuffle_perm.
  - lia.
  - exact decimal_str.
  - left.
  - intros pdf Hpdf. reflexivity.
  - reflexivity.
  - reflexivity.
  - intros Hname. discriminate Hname.
Defined.

(** ** The printed grid *)

Lemma list_nine {A} (l : list A) :
  length l = 9 → ∃ a b c d e f g h i, l = [a; b; c; d; e; f; g; h; i].
Proof.
  intros Hl. do 9 (destruct l as [|? l]; [done|]). destruct l; [|done].
  by eexists _, _, _, _, _, _, _, _, _.
Qed.

(** A value between 0 and 9 is printed as one character, from which it
    can be read. *)
Lemma cell_char (v : Z) :
  (0 ≤ v ≤ 9)%Z →
  ∃ a, (if decide (v ≠ 0%Z) then str v else ".") = String a "" ∧
       read_cell a = v.
Proof.
  intros Hv.
  assert (v ∈ [0; 1; 2; 3; 4; 5; 6; 7; 8; 9]%Z) as Hin.
  { rewrite !elem_of_cons. lia. }
  rewrite !elem_of_cons, elem_of_nil in Hin.
  destruct Hin as [-> | [-> | [-> | [-> | [-> | [-> | [-> | [-> | [-> | [-> | []]]]]]]]]]];
    eexists; split; vm_compute; reflexivity.
Qed.

Lemma read_print_row (row : list Z) :
  length row = 9 → Forall (λ v, 0 ≤ v ≤ 9)%Z row →
  String.length (print_row row) = 22 ∧ read_row (print_row row) = row.
Proof.
  intros Hlen Hrow.
  destruct (list_nine row Hlen) as (a & b & c & d & e & f & g & h & i & ->).
  repeat match goal with
         | H : Forall _ (_ :: _) |- _ =>
             apply Forall_cons in H; destruct H as [?%cell_char H]
         end.
  repeat match goal with
         | H : ∃ _, _ |- _ => destruct H as (? & ? & ?)
         end.
  unfold print_row, print_cell. cbn [imap foldr compose].
  repeat match goal with
         | H : (if decide (?v ≠ 0%Z) then _ else _) = _ |- _ =>
             rewrite H; clear H
         end.
  split; [reflexivity|]. unfold read_row.
  remember read_cell as rc eqn:Hrc. clear Hrc. vm_compute. congruence.
Qed.

Lemma in_range_rows (g : Grid) :
  wf g → in_range g → Forall (Forall (λ v, 0 ≤ v ≤ 9)%Z) g.
Proof.
  intros [Hlen Hrows] Hin. apply Forall_lookup. intros r row Hr.
  apply Forall_lookup. intros c v Hc.
  pose proof (lookup_lt_Some _ _ _ Hr) as Hr9.
  pose proof (lookup_lt_Some _ _ _ Hc) as Hc9.
  rewrite (Forall_lookup_1 _ _ _ _ Hrows Hr) in Hc9. rewrite Hlen in Hr9.
  specialize (Hin r c Hr9 Hc9). unfold val in Hin. rewrite Hr in Hin.
  simpl in Hin. by rewrite Hc in Hin.
Qed.

(** X24: for a nine by nine grid with values between 0 and 9, [print_grid]
    prints twelve lines: nine lines of 22 characters for the rows, a line
    of 21 dashes before the fourth and the seventh row, and an empty line
    at the end.  The display loses nothing: the grid is read back from the
    printed lines, a dot standing for 0, so two such grids that print the
    same are the same grid. *)
Theorem print_grid_readable (g : Grid) :
  wf g → in_range g →
  length (print_grid g) = 12 ∧
  print_grid g !! 3 = Some (times "-" 21) ∧
  print_grid g !! 7 = Some (times "-" 21) ∧
  print_grid g !! 11 = Some "" ∧
  (∀ n line, n ∈ [0; 1; 2; 4; 5; 6; 8; 9; 10] →
     print_grid g !! n = Some line → String.length line = 22) ∧
  read_grid (print_grid g) = g ∧
  (∀ g', wf g' → in_range g' → print_grid g' = print_grid g → g' = g).
Proof.
  assert (∀ g, wf g → in_range g →
    length (print_grid g) = 12 ∧
    print_grid g !! 3 = Some (times "-" 21) ∧
    print_grid g !! 7 = Some (times "-" 21) ∧
    print_grid g !! 11 = Some "" ∧
    (∀ n line, n ∈ [0; 1; 2; 4; 5; 6; 8; 9; 10] →
       print_grid g !! n = Some line → String.length line = 22) ∧
    read_grid (print_grid g) = g) as Hread.
  { clear g. intros g Hwf Hin. pose proof (in_range_rows g Hwf Hin) as Hrows.
    destruct Hwf as [Hlen Hwf].
    destruct (list_nine g Hlen) as (a & b & c & d & e & f & g' & h & i & ->).
    repeat match goal with
           | H : Forall _ (_ :: _) |- _ =>
               apply Forall_cons in H; destruct H as [? H]
           end.
    repeat match goal with
           | Hl : length ?row = 9, Hr : Forall _ ?row |- _ =>
               pose proof (read_print_row row Hl Hr) as [? ?]; clear Hl Hr
           end.
    unfold print_grid.
    cbn [imap mjoin list_join app compose Nat.modulo Nat.eqb negb andb
         Nat.divmod snd fst Nat.sub].
    split_and!; [done..| |].
    - intros n line Hn. rewrite !elem_of_cons, elem_of_nil in Hn.
      destruct Hn
        as [-> | [-> | [-> | [-> | [-> | [-> | [-> | [-> | [-> | []]]]]]]]]];
        cbn; intros [= <-]; done.
    - cbv [read_grid fmap list_fmap]. cbn [lookup list_lookup default].
      cbv [id]. congruence. }
  intros Hwf Hin.
  destruct (Hread g Hwf Hin) as (H12 & H3 & H7 & H11 & Hlines & Hback).
  split_and!; [done..|].
  intros g' Hwf' Hin' Hsame.
  destruct (Hread g' Hwf' Hin') as (_ & _ & _ & _ & _ & Hback').
  by rewrite <-Hback, <-Hback', Hsame.
Qed.

Lemma print_grid_readable_witness :
  length (print_grid order_grid) = 12 ∧
  print_grid order_grid !! 3 = Some (times "-" 21) ∧
  print_grid order_grid !! 7 = Some (times "-" 21) ∧
  print_grid order_grid !! 11 = Some "" ∧
  (∀ n line, n ∈ [0; 1; 2; 4; 5; 6; 8; 9; 10] →
     print_grid order_grid !! n = Some line → String.length line = 22) ∧
  read_grid (print_grid order_grid) = order_grid ∧
  (∀ g', wf g' → in_range g' → print_grid g' = print_grid order_grid →
         g' = order_grid).
Proof.
  apply (print_grid_readable order_grid).
  - wf_compute.
  - intros r c Hr Hc.
    do 9 (destruct r as [|r]; [do 9 (destruct c as [|c]; [vm_compute; split; discriminate|]); lia|]).
    lia.
Defined.
